(** * nagme_desktop: recurrence resolution, reconciliation and display core

    A shallow embedding of the pure core of [nagme_desktop.py] (the
    reminder model and its payload form, the recurrence resolver, the event
    reconciler, the builders of the visible list and of the project
    overview, the entry sorter and the labels), followed by the properties
    of that code.

    Conventions of the embedding:
    - Python [int] is [Z]; [Optional[int]] is [option Z]; [str] is [string].
    - A function that may leave through an exception returns [result A]:
      [Ok a] for a normal return, [Raise e] for the exception.
    - [dt.date] is the record [date]; its proleptic Gregorian ordinal is
      computed as in CPython's [datetime] module, with the same range
      ([1 .. 3652059], years 1 to 9999).
    - The local time zone [local_tz()] is a fixed offset; it is the
      parameter [tz] (seconds east of UTC) of every function that reads it. *)

From Stdlib Require Import ZArith Lia Bool SpecFloat DecimalString.
From stdpp Require Import base option list sorting gmap strings.

#[local] Open Scope Z_scope.

(** ** Exceptions *)

Inductive exn : Type :=
| ValueError          (* an argument outside the accepted range *)
| OverflowError       (* a date or a float left the representable range *)
| ZeroDivisionError.

Inductive result (A : Type) : Type :=
| Ok (a : A)
| Raise (e : exn).
Arguments Ok {A} a.
Arguments Raise {A} e.

Definition rbind {A B} (m : result A) (f : A -> result B) : result B :=
  match m with
  | Ok a => f a
  | Raise e => Raise e
  end.

Notation "'let?' x ':=' m 'in' k" := (rbind m (fun x => k))
  (at level 10, x pattern, m at level 100, k at level 200).

Definition is_ok {A} (m : result A) : bool :=
  match m with Ok _ => true | Raise _ => false end.

(** Python's [x or default] on [Optional[int]]: [None] and [0] are falsy. *)
Definition or_int (x : option Z) (default : Z) : Z :=
  match x with
  | Some v => if v =? 0 then default else v
  | None => default
  end.

(** ** Calendar ([datetime.date], proleptic Gregorian) *)

Record date : Type := mk_date { year : Z; month : Z; day : Z }.

Definition MINYEAR : Z := 1.
Definition MAXYEAR : Z := 9999.
Definition MAXORDINAL : Z := 3652059.

Definition is_leap (y : Z) : bool :=
  (y mod 4 =? 0) && (negb (y mod 100 =? 0) || (y mod 400 =? 0)).

Definition DAYS_IN_MONTH : list Z :=
  [31; 28; 31; 30; 31; 30; 31; 31; 30; 31; 30; 31].

Definition DAYS_BEFORE_MONTH : list Z :=
  [0; 31; 59; 90; 120; 151; 181; 212; 243; 273; 304; 334].

Definition days_in_month (y m : Z) : Z :=
  if (m =? 2) && is_leap y then 29
  else nth (Z.to_nat (m - 1)) DAYS_IN_MONTH 0.

Definition days_before_month (y m : Z) : Z :=
  nth (Z.to_nat (m - 1)) DAYS_BEFORE_MONTH 0
  + (if (2 <? m) && is_leap y then 1 else 0).

Definition days_before_year (y : Z) : Z :=
  let y1 := y - 1 in
  y1 * 365 + y1 / 4 - y1 / 100 + y1 / 400.

Definition ymd2ord (y m d : Z) : Z :=
  days_before_year y + days_before_month y m + d.

(** [date.toordinal()] *)
Definition toordinal (dv : date) : Z :=
  ymd2ord (year dv) (month dv) (day dv).

(** Month and day of the [n]-th day (from 0) of a year. *)
Definition month_day_of_yday (leapyear : bool) (n : Z) : Z * Z :=
  let m := Z.shiftr (n + 50) 5 in
  let preceding :=
    nth (Z.to_nat (m - 1)) DAYS_BEFORE_MONTH 0
    + (if (2 <? m) && leapyear then 1 else 0) in
  if n <? preceding then
    let m' := m - 1 in
    let preceding' :=
      preceding
      - (nth (Z.to_nat (m' - 1)) DAYS_IN_MONTH 0
         + (if (m' =? 2) && leapyear then 1 else 0)) in
    (m', n - preceding' + 1)
  else (m, n - preceding + 1).

(** [date.fromordinal(n)], for [1 <= n <= MAXORDINAL]: the 400-, 100-, 4-
    and 1-year cycles are peeled off in turn. *)
Definition ord2ymd (n0 : Z) : date :=
  let n := n0 - 1 in
  let n400 := n / 146097 in
  let n := n mod 146097 in
  let n100 := n / 36524 in
  let n := n mod 36524 in
  let n4 := n / 1461 in
  let n := n mod 1461 in
  let n1 := n / 365 in
  let n := n mod 365 in
  let y := n400 * 400 + 1 + n100 * 100 + n4 * 4 + n1 in
  if (n1 =? 4) || (n100 =? 4) then mk_date (y - 1) 12 31
  else
    let leapyear := (n1 =? 3) && (negb (n4 =? 24) || (n100 =? 3)) in
    let '(m, d) := month_day_of_yday leapyear n in
    mk_date y m d.

Definition ordinal_ok (n : Z) : bool := (1 <=? n) && (n <=? MAXORDINAL).

(** A well-formed [dt.date] value, as its constructor checks it. *)
Definition date_valid (dv : date) : bool :=
  (MINYEAR <=? year dv) && (year dv <=? MAXYEAR)
  && (1 <=? month dv) && (month dv <=? 12)
  && (1 <=? day dv) && (day dv <=? days_in_month (year dv) (month dv)).

(** [dt.date(y, m, d)] *)
Definition new_date (y m d : Z) : result date :=
  if date_valid (mk_date y m d) then Ok (mk_date y m d) else Raise ValueError.

(** [d + dt.timedelta(days=k)] *)
Definition date_add_days (dv : date) (k : Z) : result date :=
  let o := toordinal dv + k in
  if ordinal_ok o then Ok (ord2ymd o) else Raise OverflowError.

(** [date.weekday()]: Monday = 0 .. Sunday = 6. *)
Definition weekday (dv : date) : Z := (toordinal dv + 6) mod 7.

(** Python: Monday=0..Sunday=6, Java Calendar: Sunday=1..Saturday=7 *)
Definition java_day_of_week (date_value : date) : Z :=
  ((weekday date_value + 1) mod 7) + 1.

Definition month_max_day (y m : Z) : result Z :=
  let? next_month :=
    (if m =? 12 then new_date (y + 1) 1 1 else new_date y (m + 1) 1) in
  let? last := date_add_days next_month (-1) in
  Ok (day last).

(** ** Instants and local time *)

Definition EPOCH_ORDINAL : Z := 719163.  (* 1970-01-01 *)
Definition MS_PER_DAY : Z := 86400000.

(** The ordinal of the UTC day and of the local day of an instant. *)
Definition utc_ordinal (ms : Z) : Z := ms / MS_PER_DAY + EPOCH_ORDINAL.
Definition local_ordinal (tz ms : Z) : Z :=
  (ms + tz * 1000) / MS_PER_DAY + EPOCH_ORDINAL.

(** [ms_to_local(ms)]: the UTC datetime of the instant, moved to the local
    zone.  Its callers read the calendar date only, which is what is
    returned.  Both the UTC and the local datetime must be representable;
    for such instants [ms / 1000] is a float close enough to the quotient
    to fall on the same millisecond. *)
Definition ms_to_local (tz ms : Z) : result date :=
  if negb (ordinal_ok (utc_ordinal ms)) then Raise ValueError
  else if negb (ordinal_ok (local_ordinal tz ms)) then Raise OverflowError
  else Ok (ord2ymd (local_ordinal tz ms)).

(** A local wall-clock [dt.datetime] with whole minutes. *)
Record datetime : Type :=
  mk_datetime { dt_date : date; dt_hour : Z; dt_minute : Z }.

(** [dt.datetime(y, m, d, hour, minute, tzinfo=local_tz())] *)
Definition new_datetime (y m d hour minute : Z) : result datetime :=
  if date_valid (mk_date y m d)
     && (0 <=? hour) && (hour <=? 23) && (0 <=? minute) && (minute <=? 59)
  then Ok (mk_datetime (mk_date y m d) hour minute)
  else Raise ValueError.

(** [local_to_ms(value)] for a datetime that carries the local zone. *)
Definition local_to_ms (tz : Z) (value : datetime) : Z :=
  ((toordinal (dt_date value) - EPOCH_ORDINAL) * 86400
   + dt_hour value * 3600 + dt_minute value * 60 - tz) * 1000.

(** ** Constants *)

Definition PROJECT_BUCKET : string := "Project".
Definition DEFAULT_PROJECT_NAME : string := "General".
Definition DEFAULT_BUCKET : string := "Work".   (* DEFAULT_BUCKETS[0] *)
Definition PRE_DUE_COLOR_WINDOW_DAYS : Z := 14.

Definition NAG_MODE_ONE_TIME : string := "ONE_TIME".
Definition NAG_MODE_MONTHLY : string := "MONTHLY".

Definition PATTERN_DAY_OF_MONTH : string := "DAY_OF_MONTH".
Definition PATTERN_DAY_OF_WEEK : string := "DAY_OF_WEEK".
Definition PATTERN_NTH_WEEKDAY : string := "NTH_WEEKDAY_OF_MONTH".
Definition PATTERN_END_OF_MONTH : string := "END_OF_MONTH".
Definition PATTERN_QUARTERLY : string := "QUARTERLY".
Definition PATTERN_ANNUAL : string := "ANNUAL".
Definition PATTERN_OPTIONS : list string :=
  [PATTERN_DAY_OF_MONTH; PATTERN_DAY_OF_WEEK; PATTERN_NTH_WEEKDAY;
   PATTERN_END_OF_MONTH; PATTERN_QUARTERLY; PATTERN_ANNUAL].

Definition JAVA_MONDAY : Z := 2.
Definition MAX_LONG : Z := 2 ^ 63 - 1.

(** ** Data model *)

Record DueWindow : Type := mk_DueWindow {
  start_ms : Z;
  due_ms : Z;
  source_due_ms : Z
}.

Record Nag : Type := mk_Nag {
  work_name : string;
  nag_text : string;
  bucket : string;
  project_name : option string;
  lateness_days : Z;
  mode : string;
  repeat_minutes : Z;
  continue_minutes : option Z;
  notifications_enabled : bool;
  weight : Z;
  one_time_epoch_ms : option Z;
  monthly_day : option Z;
  monthly_hour : option Z;
  monthly_minute : option Z;
  created_at_epoch_ms : Z;
  skipped_monthly_due_epoch_ms : list Z;
  icon_glyph : option string;
  icon_png_base64 : option string;
  image_url : option string;
  recurring_pattern_type : string;
  recurring_day_of_week : option Z;
  recurring_nth_week : option Z;
  recurring_month_of_year : option Z;
  recurring_quarter_anchor_month : option Z;
  recurring_visible_days_before_due : option Z;
  pushed_offset_ms : Z;
  push_count : Z;
  pushed_total_ms : Z
}.

(** [Nag.is_monthly_due_skipped]: membership in [set(self.skipped...)]. *)
Definition is_monthly_due_skipped (nag : Nag) (due : Z) : bool :=
  let skipped : gset Z := list_to_set (skipped_monthly_due_epoch_ms nag) in
  bool_decide (due ∈ skipped).

Record NagListEntry : Type := mk_NagListEntry {
  entry_nag : Nag;
  due_window : option DueWindow;
  key : string
}.

(** ** Recurrence resolver *)

Definition apply_push_offset (nag : Nag) (base_due_ms : Z) : Z :=
  base_due_ms + Z.max 0 (pushed_offset_ms nag).

(** The days of the month, in order, on which the weekday is the target. *)
Definition weekday_matches (y m target_java_dow max_day : Z) : list Z :=
  filter (fun d => java_day_of_week (mk_date y m d) = target_java_dow)
         (seqZ 1 max_day).

(** [matches[-1]] and [matches[index]] are read where the list is not
    empty and the index is inside it; the default is never returned. *)
Definition nth_weekday_day_of_month
    (y m target_java_dow nth_week : Z) : result Z :=
  let? max_day := month_max_day y m in
  let matches := weekday_matches y m target_java_dow max_day in
  match matches with
  | [] => Ok 1
  | _ =>
    if 5 <=? nth_week then Ok (default 1 (last matches))
    else
      let index := Z.max 0 (nth_week - 1) in
      if index <? Z.of_nat (length matches)
      then Ok (default 1 (matches !! Z.to_nat index))
      else Ok (default 1 (last matches))
  end.

Definition is_recurring_date_match
    (tz : Z) (nag : Nag) (day_value : date) : result bool :=
  if negb (mode nag =? NAG_MODE_MONTHLY)%string then Ok false
  else
    let y := year day_value in
    let m := month day_value in
    let day_of_month := day day_value in
    let java_dow := java_day_of_week day_value in
    let? max_day := month_max_day y m in
    let pattern :=
      if (recurring_pattern_type nag =? EmptyString)%string
      then PATTERN_DAY_OF_MONTH
      else recurring_pattern_type nag in
    if (pattern =? PATTERN_DAY_OF_MONTH)%string then
      let target_day := Z.min (or_int (monthly_day nag) day_of_month) max_day in
      Ok (day_of_month =? target_day)
    else if (pattern =? PATTERN_DAY_OF_WEEK)%string then
      Ok (java_dow =? or_int (recurring_day_of_week nag) JAVA_MONDAY)
    else if (pattern =? PATTERN_NTH_WEEKDAY)%string then
      let? target_day :=
        nth_weekday_day_of_month y m
          (or_int (recurring_day_of_week nag) JAVA_MONDAY)
          (or_int (recurring_nth_week nag) 1) in
      Ok (day_of_month =? target_day)
    else if (pattern =? PATTERN_END_OF_MONTH)%string then
      Ok (day_of_month =? max_day)
    else if (pattern =? PATTERN_QUARTERLY)%string then
      let? created := ms_to_local tz (created_at_epoch_ms nag) in
      let created_month := month created in
      let anchor_month :=
        Z.max 1 (Z.min 12
          (or_int (recurring_quarter_anchor_month nag) created_month)) in
      let month_delta := ((m - anchor_month) mod 12 + 12) mod 12 in
      let in_cycle := month_delta mod 3 =? 0 in
      let target_day := Z.min (or_int (monthly_day nag) day_of_month) max_day in
      Ok (in_cycle && (day_of_month =? target_day))
    else if (pattern =? PATTERN_ANNUAL)%string then
      let target_month :=
        Z.max 1 (Z.min 12 (or_int (recurring_month_of_year nag) m)) in
      let target_day := Z.min (or_int (monthly_day nag) day_of_month) max_day in
      Ok ((m =? target_month) && (day_of_month =? target_day))
    else Ok false.

(** [range(0, 366 * 6 + 1)] *)
Definition SCAN_OFFSETS : list Z := seqZ 0 (366 * 6 + 1).

(** The body of the forward [for day_offset in range(...)] loop, over the
    offsets still to visit. *)
Fixpoint next_scan (tz : Z) (nag : Nag) (hour minute reference_ms : Z)
    (probe_date : date) (offsets : list Z) : result (option Z) :=
  match offsets with
  | [] => Ok None
  | day_offset :: rest =>
    let? current_date := date_add_days probe_date day_offset in
    let? matched := is_recurring_date_match tz nag current_date in
    if negb matched then
      next_scan tz nag hour minute reference_ms probe_date rest
    else
      let? due_dt :=
        new_datetime (year current_date) (month current_date)
                     (day current_date) hour minute in
      let due := local_to_ms tz due_dt in
      if due <? reference_ms then
        next_scan tz nag hour minute reference_ms probe_date rest
      else if is_monthly_due_skipped nag due then
        next_scan tz nag hour minute reference_ms probe_date rest
      else Ok (Some due)
  end.

Definition resolve_next_recurring_base_due_ms
    (tz : Z) (nag : Nag) (reference_ms : Z) : result (option Z) :=
  if negb (mode nag =? NAG_MODE_MONTHLY)%string then Ok None
  else
    match monthly_hour nag, monthly_minute nag with
    | Some hour, Some minute =>
      let? probe_date := ms_to_local tz reference_ms in
      next_scan tz nag hour minute reference_ms probe_date SCAN_OFFSETS
    | _, _ => Ok None
    end.

(** The body of the backward loop; it has no skip filter. *)
Fixpoint previous_scan (tz : Z) (nag : Nag) (hour minute reference_ms : Z)
    (probe_date : date) (offsets : list Z) : result (option Z) :=
  match offsets with
  | [] => Ok None
  | day_offset :: rest =>
    let? current_date := date_add_days probe_date (- day_offset) in
    let? matched := is_recurring_date_match tz nag current_date in
    if negb matched then
      previous_scan tz nag hour minute reference_ms probe_date rest
    else
      let? due_dt :=
        new_datetime (year current_date) (month current_date)
                     (day current_date) hour minute in
      let due := local_to_ms tz due_dt in
      if reference_ms <? due then
        previous_scan tz nag hour minute reference_ms probe_date rest
      else Ok (Some due)
  end.

Definition resolve_previous_recurring_base_due_ms
    (tz : Z) (nag : Nag) (reference_ms : Z) : result (option Z) :=
  if negb (mode nag =? NAG_MODE_MONTHLY)%string then Ok None
  else
    match monthly_hour nag, monthly_minute nag with
    | Some hour, Some minute =>
      let? probe_date := ms_to_local tz reference_ms in
      previous_scan tz nag hour minute reference_ms probe_date SCAN_OFFSETS
    | _, _ => Ok None
    end.

Definition resolve_current_display_monthly_due_window
    (tz : Z) (nag : Nag) (reference_ms : Z) : result (option DueWindow) :=
  let? next := resolve_next_recurring_base_due_ms tz nag reference_ms in
  match next with
  | None => Ok None
  | Some base_due =>
    let? previous :=
      resolve_previous_recurring_base_due_ms tz nag (base_due - 1) in
    let previous_base := or_int previous (created_at_epoch_ms nag) in
    Ok (Some {| start_ms := Z.max previous_base (created_at_epoch_ms nag);
                due_ms := apply_push_offset nag base_due;
                source_due_ms := base_due |})
  end.

(** The [while guard < 600] loop; [fuel] is [600 - guard]. *)
Fixpoint windows_loop (tz : Z) (nag : Nag) (range_end_ms : Z)
    (fuel : nat) (search_cursor : Z) : result (list DueWindow) :=
  match fuel with
  | O => Ok []
  | S fuel' =>
    let? next := resolve_next_recurring_base_due_ms tz nag search_cursor in
    match next with
    | None => Ok []
    | Some next_base_due =>
      let due := apply_push_offset nag next_base_due in
      if range_end_ms <? due then Ok []
      else
        let? previous :=
          resolve_previous_recurring_base_due_ms tz nag (next_base_due - 1) in
        let previous_base_due := or_int previous (created_at_epoch_ms nag) in
        let window :=
          {| start_ms := Z.max previous_base_due (created_at_epoch_ms nag);
             due_ms := due;
             source_due_ms := next_base_due |} in
        let? rest :=
          windows_loop tz nag range_end_ms fuel' (next_base_due + 60000) in
        Ok (window :: rest)
    end
  end.

Definition resolve_monthly_due_windows_in_range
    (tz : Z) (nag : Nag) (range_start_ms range_end_ms : Z)
    : result (list DueWindow) :=
  if range_end_ms <? range_start_ms then Ok []
  else windows_loop tz nag range_end_ms 600 range_start_ms.

Definition resolve_due_window
    (tz : Z) (nag : Nag) (now_ms_value : Z) : result (option DueWindow) :=
  if (mode nag =? NAG_MODE_ONE_TIME)%string then
    match one_time_epoch_ms nag with
    | None => Ok None
    | Some base_due =>
      Ok (Some {| start_ms := Z.min (created_at_epoch_ms nag) base_due;
                  due_ms := apply_push_offset nag base_due;
                  source_due_ms := base_due |})
    end
  else resolve_current_display_monthly_due_window tz nag now_ms_value.

Definition resolve_next_due_ms
    (tz : Z) (nag : Nag) (reference_ms : Z) : result (option Z) :=
  if (mode nag =? NAG_MODE_ONE_TIME)%string then
    match one_time_epoch_ms nag with
    | None => Ok None
    | Some due => Ok (Some (apply_push_offset nag due))
    end
  else
    let? base := resolve_next_recurring_base_due_ms tz nag reference_ms in
    match base with
    | None => Ok None
    | Some base_due => Ok (Some (apply_push_offset nag base_due))
    end.

(** ** Entry sorter *)

Definition SORT_ENTERED : string := "Entered".
Definition SORT_WEIGHT : string := "Weight".
Definition SORT_DUE : string := "Due".
Definition SORT_SMART : string := "Smart".

Definition smart_status_rank (due now_ms_value : Z) : Z :=
  if due =? MAX_LONG then 3
  else if due <? now_ms_value then 0
  else if due - now_ms_value <=? PRE_DUE_COLOR_WINDOW_DAYS * 24 * 60 * 60 * 1000
  then 1
  else 2.

(** Python's ordering of tuples of integers. *)
Fixpoint tuple_leb (a b : list Z) : bool :=
  match a, b with
  | [], _ => true
  | _ :: _, [] => false
  | x :: a', y :: b' =>
    if x <? y then true else if y <? x then false else tuple_leb a' b'
  end.

(** [sorted(xs, key=...)] is a stable sort: elements with equal keys keep
    their input order.  The stable arrangement of a list is unique, and
    insertion in front of the first element that is not smaller computes it. *)
Fixpoint insert_by {A} (leb : A -> A -> bool) (x : A) (l : list A) : list A :=
  match l with
  | [] => [x]
  | y :: l' => if leb x y then x :: l else y :: insert_by leb x l'
  end.

Definition py_sorted {A} (leb : A -> A -> bool) (l : list A) : list A :=
  foldr (insert_by leb) [] l.

(** The nested [entry_due_ms] of [sort_entries]. *)
Definition entry_due_ms
    (tz now_ms_value : Z) (entry : NagListEntry) : result Z :=
  match due_window entry with
  | Some w => Ok (due_ms w)
  | None =>
    let? due := resolve_next_due_ms tz (entry_nag entry) now_ms_value in
    Ok (default MAX_LONG due)
  end.

(** The key tuple of an entry under a sort mode. *)
Definition sort_key (tz : Z) (sort_mode : string) (now_ms_value : Z)
    (e : NagListEntry) : result (list Z) :=
  let? due := entry_due_ms tz now_ms_value e in
  let w := weight (entry_nag e) in
  let created := created_at_epoch_ms (entry_nag e) in
  if (sort_mode =? SORT_WEIGHT)%string then Ok [- w; due; created]
  else if (sort_mode =? SORT_DUE)%string then Ok [due; - w; created]
  else if (sort_mode =? SORT_SMART)%string then
    Ok [smart_status_rank due now_ms_value; - w; due; created]
  else Ok [created; due].

(** Keys are computed once per entry, in input order, before any
    comparison; an exception in a key leaves [sorted]. *)
Fixpoint keyed {A K} (f : A -> result K) (l : list A) : result (list (K * A)) :=
  match l with
  | [] => Ok []
  | x :: l' =>
    let? k := f x in
    let? rest := keyed f l' in
    Ok ((k, x) :: rest)
  end.

Definition sort_entries (tz : Z) (entries : list NagListEntry)
    (sort_mode : string) (now_ms_value : Z) : result (list NagListEntry) :=
  let? decorated := keyed (sort_key tz sort_mode now_ms_value) entries in
  Ok (map snd (py_sorted (fun a b => tuple_leb (fst a) (fst b)) decorated)).

(** ** Percent label *)

(** Python [float] is IEEE 754 binary64: 53 bits of precision. *)
Definition float : Type := spec_float.
Definition PREC : Z := 53.
Definition EMAX : Z := 1024.

(** [a / b] on integers: the quotient rounded once to the nearest float. *)
Definition int_true_div (a b : Z) : result float :=
  if b =? 0 then Raise ZeroDivisionError
  else if a =? 0 then Ok (S754_zero (b <? 0))
  else
    let q :=
      SFdiv PREC EMAX
        (S754_finite (a <? 0) (Z.to_pos (Z.abs a)) 0)
        (S754_finite (b <? 0) (Z.to_pos (Z.abs b)) 0) in
    match q with
    | S754_infinity _ => Raise OverflowError
    | _ => Ok q
    end.

Definition float_100 : float := binary_normalize PREC EMAX 100 0 false.

Definition float_mul (x y : float) : float := SFmul PREC EMAX x y.

(** The integer nearest to [num / den], ties to the even one. *)
Definition round_half_even (num den : Z) : Z :=
  let q := num / den in
  let r := num mod den in
  if 2 * r <? den then q
  else if den <? 2 * r then q + 1
  else if Z.even q then q else q + 1.

(** [int(round(x))] *)
Definition int_round (x : float) : result Z :=
  match x with
  | S754_zero _ => Ok 0
  | S754_finite s m e =>
    let v :=
      if 0 <=? e then Z.pos m * 2 ^ e
      else round_half_even (Z.pos m) (2 ^ (- e)) in
    Ok (if s then - v else v)
  | S754_infinity _ => Raise OverflowError
  | S754_nan => Raise ValueError
  end.

Definition overdue_window_ms (lateness : Z) : Z :=
  Z.max 1 lateness * 24 * 60 * 60 * 1000.

(** The integer [percent] of [progress_percent_label]. *)
Definition progress_percent
    (now_ms_value start due lateness : Z) : result Z :=
  if now_ms_value <=? due then
    let denominator := Z.max 1 (due - start) in
    let elapsed := Z.max 0 (Z.min denominator (now_ms_value - start)) in
    let? ratio := int_true_div elapsed denominator in
    int_round (float_mul ratio float_100)
  else
    let window := Z.max 1 (overdue_window_ms lateness) in
    let past_due := Z.max 0 (now_ms_value - due) in
    let? ratio := int_true_div past_due window in
    int_round (float_mul ratio float_100).

(** [progress_percent_label]: the percent printed with a percent sign. *)
Definition progress_percent_label
    (now_ms_value start due lateness : Z) : result string :=
  let? percent := progress_percent now_ms_value start due lateness in
  Ok (NilZero.string_of_int (Z.to_int percent) +:+ "%").

(** ** Untyped payloads *)

(** A value as [json.loads] and the row decoder deliver it. *)
#[local] Unset Elimination Schemes.
Inductive value : Type :=
| VNone
| VBool (b : bool)
| VInt (z : Z)
| VFloat (f : float)
| VStr (s : string)
| VList (items : list value)
| VDict (fields : list (string * value)).
#[local] Set Elimination Schemes.

(** A [dict] with string keys; every key occurs once. *)
Definition pydict : Type := list (string * value).

(** Builtins and library functions of the Python runtime that the payload
    code calls.  They are not code of the repository: they are taken as
    given, and every property below holds whatever they compute. *)
Record PyOps : Type := mk_PyOps {
  py_str : value -> string;             (* str(x) *)
  py_int : value -> option Z;           (* int(x); None when it raises *)
  py_bool : value -> bool;              (* bool(x) *)
  str_strip : string -> string;         (* s.strip() *)
  str_lower : string -> string;         (* s.lower() *)
  str_len : string -> Z;                (* len(s) *)
  str_remove_whitespace : string -> string;  (* s with all whitespace removed *)
  b64_valid : string -> bool;           (* b64decode(s, validate=True) returns *)
  json_loads : string -> option value   (* json.loads(s); None when it raises *)
}.

Section Lookup.
Context {B : Type} (f : value -> B).

(** [d.get(k)] mapped through [f], [None] when the key is absent. *)
Fixpoint dict_find (d : pydict) (k : string) : option B :=
  match d with
  | [] => None
  | (k', v) :: d' => if (k' =? k)%string then Some (f v) else dict_find d' k
  end.
End Lookup.

(** [d.get(k, default)] *)
Definition dict_get (d : pydict) (k : string) (default : value) : value :=
  match dict_find id d k with
  | Some v => v
  | None => default
  end.

(** Truthiness of an [Optional[str]]. *)
Definition truthy (x : option string) : bool :=
  match x with
  | Some s => negb (s =? EmptyString)%string
  | None => false
  end.

(** [s.startswith(p)] *)
Definition startswith (s p : string) : bool := String.prefix p s.

(** [sub in s] *)
Definition contains (s sub : string) : bool :=
  match String.index 0 sub s with Some _ => true | None => false end.

Definition CH_COLON : Ascii.ascii := Ascii.ascii_of_nat 58.
Definition CH_COMMA : Ascii.ascii := Ascii.ascii_of_nat 44.
Definition CH_SPACE : Ascii.ascii := Ascii.ascii_of_nat 32.
Definition CH_LF : Ascii.ascii := Ascii.ascii_of_nat 10.
Definition CH_CR : Ascii.ascii := Ascii.ascii_of_nat 13.

(** [s.split(sep, 1)[1]] for a one-character [sep] that occurs in [s]. *)
Fixpoint after_first (sep : Ascii.ascii) (s : string) : string :=
  match s with
  | EmptyString => EmptyString
  | String c s' => if Ascii.eqb c sep then s' else after_first sep s'
  end.

(** [s.replace(a, b)] for single characters. *)
Fixpoint replace_char (a b : Ascii.ascii) (s : string) : string :=
  match s with
  | EmptyString => EmptyString
  | String c s' =>
    String (if Ascii.eqb c a then b else c) (replace_char a b s')
  end.

(** [any(ord(ch) > 127 for ch in text)]: a code point above 127 is a byte
    above 127 of the encoded text. *)
Fixpoint looks_like_icon_text (text : string) : bool :=
  match text with
  | EmptyString => false
  | String c s' =>
    (127 <? Z.of_N (Ascii.N_of_ascii c)) || looks_like_icon_text s'
  end.

Definition INVALID_ICON_TOKENS : list string :=
  [EmptyString; "none"; "null"; "non"; "img"; "undefined"; "nan"; "na"; "n/a"].

Definition str_in (s : string) (l : list string) : bool :=
  existsb (String.eqb s) l.

(** The [for key in keys: if key in raw: ... if value: return value] loop
    over a dict, for a normaliser [f]. *)
Fixpoint first_truthy (results : list (option (option string)))
    : option string :=
  match results with
  | [] => None
  | Some v :: rest => if truthy v then v else first_truthy rest
  | None :: rest => first_truthy rest
  end.

Section Normalisers.
Variable ops : PyOps.

Fixpoint normalize_icon_glyph (raw_value : value) : option string :=
  match raw_value with
  | VNone => None
  | VDict d =>
    first_truthy
      (map (dict_find normalize_icon_glyph d)
           ["glyph"; "emoji"; "icon"; "text"; "value"; "label"; "name"])
  | VList items =>
    first_truthy (map (fun item => Some (normalize_icon_glyph item)) items)
  | _ =>
    let text := str_strip ops (py_str ops raw_value) in
    if (text =? EmptyString)%string then None
    else if str_in (str_lower ops text) INVALID_ICON_TOKENS then None
    else if startswith (str_lower ops text) "<img"
            || startswith (str_lower ops text) "http" then None
    else
      let text' :=
        if startswith (str_lower ops text) "icon:"
        then str_strip ops (after_first CH_COLON text) else text in
      if (text' =? EmptyString)%string then None
      else if negb (looks_like_icon_text text') then None
      else Some text'
  end.

Fixpoint normalize_image_url (raw_value : value) : option string :=
  match raw_value with
  | VNone => None
  | VDict d =>
    first_truthy
      (map (dict_find normalize_image_url d)
           ["url"; "src"; "imageUrl"; "image"; "iconUrl"; "icon"])
  | _ =>
    let text := str_strip ops (py_str ops raw_value) in
    if (text =? EmptyString)%string then None
    else
      let lower := str_lower ops text in
      if startswith lower "http://" || startswith lower "https://"
      then Some text else None
  end.

Fixpoint normalize_icon_png_base64 (raw_value : value) : option string :=
  match raw_value with
  | VNone => None
  | VDict d =>
    first_truthy
      (map (dict_find normalize_icon_png_base64 d)
           ["icon_png_base64"; "iconPngBase64"; "base64"; "data"; "value"])
  | VList items =>
    first_truthy (map (fun item => Some (normalize_icon_png_base64 item)) items)
  | _ =>
    let text := str_strip ops (py_str ops raw_value) in
    if (text =? EmptyString)%string then None
    else
      let lower := str_lower ops text in
      let text1 :=
        if startswith lower "data:" && contains lower "base64,"
        then str_strip ops (after_first CH_COMMA text) else text in
      let text2 := str_remove_whitespace ops text1 in
      if str_len ops text2 <? 16 then None
      else if b64_valid ops text2 then Some text2 else None
  end.

Definition normalize_project_name (raw_value : value) : option string :=
  match raw_value with
  | VNone => None
  | _ =>
    let text :=
      str_strip ops
        (replace_char CH_CR CH_SPACE
           (replace_char CH_LF CH_SPACE (py_str ops raw_value))) in
    if (text =? EmptyString)%string then None else Some text
  end.

(** The [for candidate_key in (...): x = f(payload.get(key)); if x: break]
    loops: the variable keeps the last value tried. *)
Fixpoint probe_keys (f : value -> option string) (payload : pydict)
    (keys : list string) (acc : option string) : option string :=
  match keys with
  | [] => acc
  | k :: rest =>
    let v := f (dict_get payload k VNone) in
    if truthy v then v else probe_keys f payload rest v
  end.
End Normalisers.

(** ** Reminder model: validated construction *)

(** [sorted(set(xs))] on integers. *)
Definition sorted_set (xs : list Z) : list Z :=
  py_sorted Z.leb (elements (list_to_set xs : gset Z)).

(** [xs[-n:]] for [n > 0] *)
Definition last_n {A} (n : nat) (xs : list A) : list A :=
  drop (length xs - n) xs.

Definition with_icon_png_base64 (n : Nag) (v : option string) : Nag :=
  mk_Nag (work_name n) (nag_text n) (bucket n) (project_name n)
    (lateness_days n) (mode n) (repeat_minutes n) (continue_minutes n)
    (notifications_enabled n) (weight n) (one_time_epoch_ms n) (monthly_day n)
    (monthly_hour n) (monthly_minute n) (created_at_epoch_ms n)
    (skipped_monthly_due_epoch_ms n) (icon_glyph n) v (image_url n)
    (recurring_pattern_type n) (recurring_day_of_week n) (recurring_nth_week n)
    (recurring_month_of_year n) (recurring_quarter_anchor_month n)
    (recurring_visible_days_before_due n) (pushed_offset_ms n) (push_count n)
    (pushed_total_ms n).

Definition with_skipped (n : Nag) (v : list Z) : Nag :=
  mk_Nag (work_name n) (nag_text n) (bucket n) (project_name n)
    (lateness_days n) (mode n) (repeat_minutes n) (continue_minutes n)
    (notifications_enabled n) (weight n) (one_time_epoch_ms n) (monthly_day n)
    (monthly_hour n) (monthly_minute n) (created_at_epoch_ms n)
    v (icon_glyph n) (icon_png_base64 n) (image_url n)
    (recurring_pattern_type n) (recurring_day_of_week n) (recurring_nth_week n)
    (recurring_month_of_year n) (recurring_quarter_anchor_month n)
    (recurring_visible_days_before_due n) (pushed_offset_ms n) (push_count n)
    (pushed_total_ms n).

Definition with_push (n : Nag) (offset count total : Z) : Nag :=
  mk_Nag (work_name n) (nag_text n) (bucket n) (project_name n)
    (lateness_days n) (mode n) (repeat_minutes n) (continue_minutes n)
    (notifications_enabled n) (weight n) (one_time_epoch_ms n) (monthly_day n)
    (monthly_hour n) (monthly_minute n) (created_at_epoch_ms n)
    (skipped_monthly_due_epoch_ms n) (icon_glyph n) (icon_png_base64 n)
    (image_url n) (recurring_pattern_type n) (recurring_day_of_week n)
    (recurring_nth_week n) (recurring_month_of_year n)
    (recurring_quarter_anchor_month n) (recurring_visible_days_before_due n)
    offset count total.

Section Model.
Variable ops : PyOps.

(** The nested [opt_int(name)]; the outer [None] is an exception of
    [int]. *)
Definition opt_int (payload : pydict) (name : string) : option (option Z) :=
  match dict_get payload name VNone with
  | VNone => Some None
  | VStr EmptyString => Some None
  | raw => z ← py_int ops raw; Some (Some z)
  end.

(** [str(x) or default] *)
Definition str_or (s default : string) : string :=
  if (s =? EmptyString)%string then default else s.

(** [Nag.from_payload]; [now] is the reading of [now_ms()] taken for the
    default creation time.  Every exception inside is caught and turned
    into [None]. *)
Definition from_payload (now : Z) (payload : pydict) : option Nag :=
  let work_name :=
    str_strip ops
      (py_str ops (dict_get payload "workName" (VStr EmptyString))) in
  let nag_text :=
    str_strip ops
      (py_str ops (dict_get payload "nagText" (VStr EmptyString))) in
  if (work_name =? EmptyString)%string || (nag_text =? EmptyString)%string
  then None
  else
    let skipped :=
      match dict_get payload "skippedMonthlyDueEpochMillis" (VList []) with
      | VList items => omap (py_int ops) items
      | _ => []
      end in
    continue_minutes ←
      match dict_get payload "continueMinutes" VNone with
      | VNone => Some None
      | raw => z ← py_int ops raw; Some (Some z)
      end;
    let icon_glyph :=
      probe_keys (normalize_icon_glyph ops) payload
        ["iconGlyph"; "icon"; "iconEmoji"; "nagIcon"; "iconText"] None in
    let image_url :=
      probe_keys (normalize_image_url ops) payload
        ["imageUrl"; "iconImageUrl"; "nagImageUrl"; "nagImage"; "iconUrl";
         "image"; "icon"] None in
    let project_name :=
      probe_keys (normalize_project_name ops) payload
        ["projectName"; "project"; "project_name"] None in
    let icon_png_base64 :=
      probe_keys (normalize_icon_png_base64 ops) payload
        ["iconPngBase64"; "icon_png_base64"; "iconImageBase64";
         "nagIconBase64"] None in
    visible ← opt_int payload "recurringVisibleDaysBeforeDue";
    let recurring_visible_days_before_due := Z.max 1 <$> visible in
    let bucket :=
      str_or (py_str ops (dict_get payload "bucket" (VStr DEFAULT_BUCKET)))
             DEFAULT_BUCKET in
    let project_name :=
      if (str_lower ops bucket =? str_lower ops PROJECT_BUCKET)%string
      then (if truthy project_name then project_name
            else Some DEFAULT_PROJECT_NAME)
      else None in
    lateness ← py_int ops (dict_get payload "latenessDays" (VInt 7));
    let mode :=
      str_or (py_str ops (dict_get payload "mode" (VStr NAG_MODE_ONE_TIME)))
             NAG_MODE_ONE_TIME in
    repeat ← py_int ops (dict_get payload "repeatMinutes" (VInt 60));
    let notifications :=
      py_bool ops (dict_get payload "notificationsEnabled" (VBool true)) in
    weight ← py_int ops (dict_get payload "weight" (VInt 50));
    one_time ← opt_int payload "oneTimeEpochMillis";
    monthly_day ← opt_int payload "monthlyDay";
    monthly_hour ← opt_int payload "monthlyHour";
    monthly_minute ← opt_int payload "monthlyMinute";
    created ← py_int ops (dict_get payload "createdAtEpochMillis" (VInt now));
    let pattern :=
      py_str ops
        (dict_get payload "recurringPatternType" (VStr PATTERN_DAY_OF_MONTH)) in
    day_of_week ← opt_int payload "recurringDayOfWeek";
    nth_week ← opt_int payload "recurringNthWeek";
    month_of_year ← opt_int payload "recurringMonthOfYear";
    anchor ← opt_int payload "recurringQuarterAnchorMonth";
    offset ← py_int ops (dict_get payload "pushedOffsetMillis" (VInt 0));
    count ← py_int ops (dict_get payload "pushCount" (VInt 0));
    total ← py_int ops (dict_get payload "pushedTotalMillis" (VInt 0));
    Some
      {| work_name := work_name;
         nag_text := nag_text;
         bucket := bucket;
         project_name := project_name;
         lateness_days := Z.max 1 lateness;
         mode := mode;
         repeat_minutes := Z.max 1 repeat;
         continue_minutes := continue_minutes;
         notifications_enabled := notifications;
         weight := Z.max 0 (Z.min 100 weight);
         one_time_epoch_ms := one_time;
         monthly_day := monthly_day;
         monthly_hour := monthly_hour;
         monthly_minute := monthly_minute;
         created_at_epoch_ms := created;
         skipped_monthly_due_epoch_ms := sorted_set skipped;
         icon_glyph := icon_glyph;
         icon_png_base64 := icon_png_base64;
         image_url := image_url;
         recurring_pattern_type := pattern;
         recurring_day_of_week := day_of_week;
         recurring_nth_week := nth_week;
         recurring_month_of_year := month_of_year;
         recurring_quarter_anchor_month := anchor;
         recurring_visible_days_before_due := recurring_visible_days_before_due;
         pushed_offset_ms := Z.max 0 offset;
         push_count := Z.max 0 count;
         pushed_total_ms := Z.max 0 total |}.

(** ** Event reconciler *)

(** [NagDesktopApp._parse_payload] *)
Fixpoint _parse_payload (v : value) : option pydict :=
  match v with
  | VDict d =>
    let nested :=
      dict_find
        (fun p =>
           match p with
           | VDict _ | VStr _ => _parse_payload p
           | _ => None
           end) d "payload" in
    match nested with
    | Some (Some (f :: fs)) => Some (f :: fs)
    | _ => Some d
    end
  | VStr s =>
    let text := str_strip ops s in
    if (text =? EmptyString)%string then None
    else
      match json_loads ops text with
      | Some (VDict parsed) => Some parsed
      | _ => None
      end
  | _ => None
  end.

Record Rebuilt : Type := mk_Rebuilt {
  nags_by_work : gmap string Nag;
  last_parseable_payload_rows : Z;
  last_valid_nag_rows : Z
}.

(** The sort key of an event row: [str(e.get("created_at", default))] with
    the empty string as default. *)
Definition created_at_key (row : pydict) : string :=
  py_str ops (dict_get row "created_at" (VStr EmptyString)).

(** One iteration of the replay loop; [now] is the clock reading during
    that iteration. *)
Definition replay_row (now : Z) (st : Rebuilt) (row : pydict) : Rebuilt :=
  match _parse_payload (dict_get row "payload" VNone) with
  | None | Some [] => st
  | Some payload =>
    let parseable := last_parseable_payload_rows st + 1 in
    match from_payload now payload with
    | None => mk_Rebuilt (nags_by_work st) parseable (last_valid_nag_rows st)
    | Some nag =>
      let row_icon_base64 :=
        normalize_icon_png_base64 ops (dict_get row "icon_png_base64" VNone) in
      let nag :=
        if truthy row_icon_base64
        then with_icon_png_base64 nag row_icon_base64 else nag in
      let action :=
        str_lower ops
          (str_strip ops
             (py_str ops (dict_get payload "action" (VStr EmptyString)))) in
      let current :=
        if (action =? "delete")%string
        then delete (work_name nag) (nags_by_work st)
        else <[work_name nag := nag]> (nags_by_work st) in
      mk_Rebuilt current parseable (last_valid_nag_rows st + 1)
    end
  end.

(** The [for row in sorted_events] loop; [clock i] is the reading of
    [now_ms()] while the [i]-th row is processed. *)
Fixpoint replay (clock : nat -> Z) (i : nat) (rows : list pydict)
    (st : Rebuilt) : Rebuilt :=
  match rows with
  | [] => st
  | row :: rest => replay clock (S i) rest (replay_row (clock i) st row)
  end.

(** [NagDesktopApp._rebuild_current_nags_from_events] *)
Definition _rebuild_current_nags_from_events
    (clock : nat -> Z) (events : list pydict) : Rebuilt :=
  let sorted_events :=
    py_sorted (fun a b => (created_at_key a <=? created_at_key b)%string)
              events in
  replay clock 0 sorted_events (mk_Rebuilt ∅ 0 0).
End Model.

(** ** User actions: the updated reminder *)

(** [push_selected], the lines that build [updated]: a copy of the reminder
    with the three push fields recomputed.  They are reached when the
    application is not in view-only mode, a reminder is selected and the
    entered duration parses to [push_ms > 0]. *)
Definition push_selected_updated (nag : Nag) (push_ms : Z) : Nag :=
  with_push nag
    (Z.max 0 (pushed_offset_ms nag + push_ms))
    (Z.max 0 (push_count nag + 1))
    (Z.max 0 (pushed_total_ms nag + push_ms)).

(** [complete_selected_occurrence], the lines that build [updated]: a copy
    of the reminder with the occurrence added to the skipped list.  They are
    reached when the application is not in view-only mode and the selected
    entry is a monthly reminder with a due window whose source due is not
    yet in the list. *)
Definition complete_selected_occurrence_updated
    (nag : Nag) (source_due : Z) : Nag :=
  with_skipped nag
    (last_n 200
       (sorted_set (skipped_monthly_due_epoch_ms nag ++ [source_due]))).

(** ** Inputs on which the resolver runs to completion *)

(** The hour and minute of a reminder are accepted by [dt.datetime]. *)
Definition time_of_day_ok (nag : Nag) : bool :=
  match monthly_hour nag, monthly_minute nag with
  | Some hour, Some minute =>
    (0 <=? hour) && (hour <=? 23) && (0 <=? minute) && (minute <=? 59)
  | _, _ => true
  end.

(** The last ordinal from which a forward scan stays before December 9999,
    the one month whose length [month_max_day] cannot compute. *)
Definition LAST_SCAN_START : Z := MAXORDINAL - 31 - 366 * 6.

(** The instant is representable and a scan of [366 * 6] days in either
    direction from its local date stays inside the calendar. *)
Definition scan_in_range (tz ms : Z) : bool :=
  ordinal_ok (utc_ordinal ms)
  && (366 * 6 + 1 <=? local_ordinal tz ms)
  && (local_ordinal tz ms <=? LAST_SCAN_START).

Definition resolvable (tz : Z) (nag : Nag) (reference_ms : Z) : bool :=
  time_of_day_ok nag
  && scan_in_range tz reference_ms
  && is_ok (ms_to_local tz (created_at_epoch_ms nag)).

(** ** A concrete runtime for the examples

    The examples below run the payload code on structured payloads whose
    fields are [None], booleans, integers and ASCII strings.  On such values
    the functions here compute what CPython computes; text to be parsed by
    [json.loads] and the printing of floats and containers are not part of
    any example and are left out. *)

Definition is_space (c : Ascii.ascii) : bool :=
  let n := Z.of_N (Ascii.N_of_ascii c) in
  (n =? 32) || ((9 <=? n) && (n <=? 13)).

Fixpoint lstrip (s : string) : string :=
  match s with
  | EmptyString => EmptyString
  | String c s' => if is_space c then lstrip s' else s
  end.

Fixpoint rstrip (s : string) : string :=
  match s with
  | EmptyString => EmptyString
  | String c s' =>
    let r := rstrip s' in
    if is_space c && (r =? EmptyString)%string then EmptyString else String c r
  end.

Fixpoint ascii_lower (s : string) : string :=
  match s with
  | EmptyString => EmptyString
  | String c s' =>
    let n := Ascii.N_of_ascii c in
    String (if (65 <=? n)%N && (n <=? 90)%N
            then Ascii.ascii_of_N (n + 32) else c)
           (ascii_lower s')
  end.

Fixpoint remove_spaces (s : string) : string :=
  match s with
  | EmptyString => EmptyString
  | String c s' =>
    if is_space c then remove_spaces s' else String c (remove_spaces s')
  end.

Definition is_b64_char (c : Ascii.ascii) : bool :=
  let n := Z.of_N (Ascii.N_of_ascii c) in
  ((65 <=? n) && (n <=? 90)) || ((97 <=? n) && (n <=? 122))
  || ((48 <=? n) && (n <=? 57)) || (n =? 43) || (n =? 47).

Fixpoint b64_body (s : string) : bool :=
  match s with
  | EmptyString => true
  | String c s' =>
    if is_b64_char c then b64_body s'
    else (s =? "=")%string || (s =? "==")%string
  end.

Definition float_trunc (f : float) : option Z :=
  match f with
  | S754_zero _ => Some 0
  | S754_finite s m e =>
    let v := if 0 <=? e then Z.pos m * 2 ^ e else Z.pos m / 2 ^ (- e) in
    Some (if s then - v else v)
  | _ => None
  end.

Definition example_ops : PyOps :=
  {| py_str := fun v =>
       match v with
       | VStr s => s
       | VInt z => NilZero.string_of_int (Z.to_int z)
       | VNone => "None"
       | VBool true => "True"
       | VBool false => "False"
       | _ => "<object>"
       end;
     py_int := fun v =>
       match v with
       | VInt z => Some z
       | VBool b => Some (if b then 1 else 0)
       | VFloat f => float_trunc f
       | VStr s => Z.of_int <$> NilZero.int_of_string s
       | _ => None
       end;
     py_bool := fun v =>
       match v with
       | VNone => false
       | VBool b => b
       | VInt z => negb (z =? 0)
       | VFloat (S754_zero _) => false
       | VFloat _ => true
       | VStr s => negb (s =? EmptyString)%string
       | VList l => match l with [] => false | _ => true end
       | VDict d => match d with [] => false | _ => true end
       end;
     str_strip := fun s => rstrip (lstrip s);
     str_lower := ascii_lower;
     str_len := fun s => Z.of_nat (String.length s);
     str_remove_whitespace := remove_spaces;
     b64_valid := fun s =>
       (Z.of_nat (String.length s) mod 4 =? 0) && b64_body s;
     json_loads := fun _ => None |}.

(** A monthly reminder due on the 15th at 09:00, created at the epoch. *)
Definition monthly_15th : Nag :=
  {| work_name := "rent"; nag_text := "Pay rent"; bucket := "Work";
     project_name := None; lateness_days := 7; mode := NAG_MODE_MONTHLY;
     repeat_minutes := 60; continue_minutes := None;
     notifications_enabled := true; weight := 50; one_time_epoch_ms := None;
     monthly_day := Some 15; monthly_hour := Some 9; monthly_minute := Some 0;
     created_at_epoch_ms := 0; skipped_monthly_due_epoch_ms := [];
     icon_glyph := None; icon_png_base64 := None; image_url := None;
     recurring_pattern_type := PATTERN_DAY_OF_MONTH;
     recurring_day_of_week := None; recurring_nth_week := None;
     recurring_month_of_year := None; recurring_quarter_anchor_month := None;
     recurring_visible_days_before_due := None; pushed_offset_ms := 0;
     push_count := 0; pushed_total_ms := 0 |}.

Definition with_pattern (n : Nag) (pattern : string) : Nag :=
  mk_Nag (work_name n) (nag_text n) (bucket n) (project_name n)
    (lateness_days n) (mode n) (repeat_minutes n) (continue_minutes n)
    (notifications_enabled n) (weight n) (one_time_epoch_ms n) (monthly_day n)
    (monthly_hour n) (monthly_minute n) (created_at_epoch_ms n)
    (skipped_monthly_due_epoch_ms n) (icon_glyph n) (icon_png_base64 n)
    (image_url n) pattern (recurring_day_of_week n) (recurring_nth_week n)
    (recurring_month_of_year n) (recurring_quarter_anchor_month n)
    (recurring_visible_days_before_due n) (pushed_offset_ms n) (push_count n)
    (pushed_total_ms n).

Definition with_created_at (n : Nag) (created : Z) : Nag :=
  mk_Nag (work_name n) (nag_text n) (bucket n) (project_name n)
    (lateness_days n) (mode n) (repeat_minutes n) (continue_minutes n)
    (notifications_enabled n) (weight n) (one_time_epoch_ms n) (monthly_day n)
    (monthly_hour n) (monthly_minute n) created
    (skipped_monthly_due_epoch_ms n) (icon_glyph n) (icon_png_base64 n)
    (image_url n) (recurring_pattern_type n) (recurring_day_of_week n)
    (recurring_nth_week n) (recurring_month_of_year n)
    (recurring_quarter_anchor_month n) (recurring_visible_days_before_due n)
    (pushed_offset_ms n) (push_count n) (pushed_total_ms n).

Definition with_nth_weekday (n : Nag) (dow nth : option Z) : Nag :=
  mk_Nag (work_name n) (nag_text n) (bucket n) (project_name n)
    (lateness_days n) (mode n) (repeat_minutes n) (continue_minutes n)
    (notifications_enabled n) (weight n) (one_time_epoch_ms n) (monthly_day n)
    (monthly_hour n) (monthly_minute n) (created_at_epoch_ms n)
    (skipped_monthly_due_epoch_ms n) (icon_glyph n) (icon_png_base64 n)
    (image_url n) PATTERN_NTH_WEEKDAY dow nth
    (recurring_month_of_year n) (recurring_quarter_anchor_month n)
    (recurring_visible_days_before_due n) (pushed_offset_ms n) (push_count n)
    (pushed_total_ms n).

(** 2023-11-14 22:13:20 UTC *)
Definition T_2023_11_14 : Z := 1700000000000.
(** 2023-11-15 09:00:00 UTC and 2023-10-15 09:00:00 UTC *)
Definition T_2023_11_15_0900 : Z := 1700038800000.
Definition T_2023_10_15_0900 : Z := 1697360400000.

(** A payload whose skipped list holds 201 distinct instants. *)
Definition payload_201 : pydict :=
  [("workName", VStr "rent"); ("nagText", VStr "Pay rent");
   ("mode", VStr "MONTHLY");
   ("skippedMonthlyDueEpochMillis", VList (VInt <$> seqZ 1 201))].

(** Two event rows for the same reminder, written at the same instant, that
    differ in the text, and a third, later row. *)
Definition event_row (created_at work text : string) : pydict :=
  [("id", VInt 1); ("created_at", VStr created_at);
   ("payload", VDict [("action", VStr "update"); ("workName", VStr work);
                      ("nagText", VStr text);
                      ("createdAtEpochMillis", VInt 0)])].

Definition row_first : pydict :=
  event_row "2024-01-01T00:00:00+00:00" "rent" "Pay rent".
Definition row_second : pydict :=
  event_row "2024-01-01T00:00:00+00:00" "rent" "Pay the rent today".
Definition row_later : pydict :=
  event_row "2024-02-01T00:00:00+00:00" "rent" "Pay rent in February".

Definition clock_zero : nat -> Z := fun _ => 0.

(** A one-time reminder with the given key, due instant and weight. *)
Definition one_time (name : string) (due : option Z) (w : Z) : Nag :=
  {| work_name := name; nag_text := name; bucket := "Work";
     project_name := None; lateness_days := 7; mode := NAG_MODE_ONE_TIME;
     repeat_minutes := 60; continue_minutes := None;
     notifications_enabled := true; weight := w; one_time_epoch_ms := due;
     monthly_day := None; monthly_hour := None; monthly_minute := None;
     created_at_epoch_ms := 0; skipped_monthly_due_epoch_ms := [];
     icon_glyph := None; icon_png_base64 := None; image_url := None;
     recurring_pattern_type := PATTERN_DAY_OF_MONTH;
     recurring_day_of_week := None; recurring_nth_week := None;
     recurring_month_of_year := None; recurring_quarter_anchor_month := None;
     recurring_visible_days_before_due := None; pushed_offset_ms := 0;
     push_count := 0; pushed_total_ms := 0 |}.

Definition entry_of (nag : Nag) : NagListEntry :=
  {| entry_nag := nag; due_window := None;
     key := work_name nag +:+ "_single" |}.

(** ** The Smart order, in the words of the specification *)


(** ** The Nth weekday of a month, in the words of the specification *)

(** How many of the days [1 .. d] of the month fall on the weekday. *)
Definition occurrences_through (y m dow d : Z) : Z :=
  Z.of_nat
    (length (filter (fun d' => java_day_of_week (mk_date y m d') = dow)
                    (seqZ 1 d))).

Definition occurrences_in_month (y m dow : Z) : Z :=
  occurrences_through y m dow (days_in_month y m).

(** Day [d] is the [n]-th occurrence of the weekday in its month. *)
Definition is_nth_occurrence (y m dow n d : Z) : Prop :=
  java_day_of_week (mk_date y m d) = dow
  /\ occurrences_through y m dow d = n.

(** Day [d] is the last occurrence of the weekday in its month. *)
Definition is_last_occurrence (y m dow d : Z) : Prop :=
  java_day_of_week (mk_date y m d) = dow
  /\ occurrences_through y m dow d = occurrences_in_month y m dow.

(** A reminder for the fifth Monday of the month, at 09:00. *)
Definition fifth_monday : Nag :=
  with_nth_weekday monthly_15th (Some 2) (Some 5).

(** Two reminders agree on every field other than the three push fields. *)
Definition same_except_push (a b : Nag) : Prop :=
  work_name a = work_name b
  /\ nag_text a = nag_text b
  /\ bucket a = bucket b
  /\ project_name a = project_name b
  /\ lateness_days a = lateness_days b
  /\ mode a = mode b
  /\ repeat_minutes a = repeat_minutes b
  /\ continue_minutes a = continue_minutes b
  /\ notifications_enabled a = notifications_enabled b
  /\ weight a = weight b
  /\ one_time_epoch_ms a = one_time_epoch_ms b
  /\ monthly_day a = monthly_day b
  /\ monthly_hour a = monthly_hour b
  /\ monthly_minute a = monthly_minute b
  /\ created_at_epoch_ms a = created_at_epoch_ms b
  /\ skipped_monthly_due_epoch_ms a = skipped_monthly_due_epoch_ms b
  /\ icon_glyph a = icon_glyph b
  /\ icon_png_base64 a = icon_png_base64 b
  /\ image_url a = image_url b
  /\ recurring_pattern_type a = recurring_pattern_type b
  /\ recurring_day_of_week a = recurring_day_of_week b
  /\ recurring_nth_week a = recurring_nth_week b
  /\ recurring_month_of_year a = recurring_month_of_year b
  /\ recurring_quarter_anchor_month a = recurring_quarter_anchor_month b
  /\ recurring_visible_days_before_due a = recurring_visible_days_before_due b.

(** The due instant of the second outcome is not before that of the first;
    the two outcomes are of the same kind. *)
Definition due_not_earlier (before after : result (option Z)) : Prop :=
  match before, after with
  | Ok (Some d), Ok (Some d') => d <= d'
  | Ok None, Ok None => True
  | Raise e, Raise e' => e = e'
  | _, _ => False
  end.

Definition window_not_earlier (before after : result (option DueWindow)) : Prop :=
  match before, after with
  | Ok (Some w), Ok (Some w') =>
    start_ms w = start_ms w' /\ source_due_ms w = source_due_ms w'
    /\ due_ms w <= due_ms w'
  | Ok None, Ok None => True
  | Raise e, Raise e' => e = e'
  | _, _ => False
  end.

(** ** Auxiliary predicates of the proofs *)

(** The month and day computed for the [n]-th day of a year are a valid
    month and day, and lie [n] days after 1 January. *)
Definition yday_check (b : bool) (n : Z) : bool :=
  let '(m, d) := month_day_of_yday b n in
  (1 <=? m) && (m <=? 12) && (1 <=? d)
  && (d <=? (if (m =? 2) && b then 29
             else nth (Z.to_nat (m - 1)) DAYS_IN_MONTH 0))
  && (nth (Z.to_nat (m - 1)) DAYS_BEFORE_MONTH 0
      + (if (2 <? m) && b then 1 else 0) + d =? n + 1).

(** Consecutive windows of a range query are at least 60 seconds apart. *)
Definition window_gap (a b : DueWindow) : Prop :=
  source_due_ms a + 60000 <= source_due_ms b.

(** ** Pattern rules, in plain terms *)

(** The day-of-month part of a rule: the configured day, clamped to the
    length of the month; a missing or zero day accepts every day. *)
Definition day_rule (nag : Nag) (dv : date) : Prop :=
  match monthly_day nag with
  | Some k => k = 0 \/ day dv = Z.min k (days_in_month (year dv) (month dv))
  | None => True
  end.

Definition with_monthly_day (n : Nag) (d : option Z) : Nag :=
  mk_Nag (work_name n) (nag_text n) (bucket n) (project_name n)
    (lateness_days n) (mode n) (repeat_minutes n) (continue_minutes n)
    (notifications_enabled n) (weight n) (one_time_epoch_ms n) d
    (monthly_hour n) (monthly_minute n) (created_at_epoch_ms n)
    (skipped_monthly_due_epoch_ms n) (icon_glyph n) (icon_png_base64 n)
    (image_url n) (recurring_pattern_type n) (recurring_day_of_week n)
    (recurring_nth_week n) (recurring_month_of_year n)
    (recurring_quarter_anchor_month n) (recurring_visible_days_before_due n)
    (pushed_offset_ms n) (push_count n) (pushed_total_ms n).

(** A reminder for the 31st of every month. *)
Definition monthly_31st : Nag := with_monthly_day monthly_15th (Some 31).

(** ** Occurrences, in plain terms *)

(** The instant at which a reminder with the given time of day falls due on
    a local date. *)
Definition occurrence_ms (tz : Z) (dv : date) (hour minute : Z) : Z :=
  local_to_ms tz (mk_datetime dv hour minute).

(** A date offers an acceptable next occurrence: it matches the pattern, its
    occurrence is not before the reference and has not been skipped. *)
Definition acceptable (tz : Z) (nag : Nag) (hour minute reference_ms : Z)
    (dv : date) : Prop :=
  is_recurring_date_match tz nag dv = Ok true
  /\ reference_ms <= occurrence_ms tz dv hour minute
  /\ occurrence_ms tz dv hour minute ∉ skipped_monthly_due_epoch_ms nag.

(** A day of the scan offers nothing: it does not match, or its occurrence
    is before the reference or has been skipped. *)
Definition day_rejected (tz : Z) (nag : Nag) (hour minute reference_ms : Z)
    (probe : date) (k : Z) : Prop :=
  forall cur,
    date_add_days probe k = Ok cur ->
    is_recurring_date_match tz nag cur = Ok true ->
    occurrence_ms tz cur hour minute < reference_ms
    \/ occurrence_ms tz cur hour minute ∈ skipped_monthly_due_epoch_ms nag.

(** ** Serialization *)

Definition value_of_opt_int (x : option Z) : value :=
  match x with Some z => VInt z | None => VNone end.

Definition value_of_opt_str (x : option string) : value :=
  match x with Some s => VStr s | None => VNone end.

(** [Nag.to_payload(action)]; [synced_at] is the reading of [now_ms()]. *)
Definition to_payload (nag : Nag) (action : string) (synced_at : Z) : pydict :=
  [("action", VStr action);
   ("syncedAtEpochMillis", VInt synced_at);
   ("workName", VStr (work_name nag));
   ("nagText", VStr (nag_text nag));
   ("bucket", VStr (bucket nag));
   ("projectName", value_of_opt_str (project_name nag));
   ("latenessDays", VInt (lateness_days nag));
   ("mode", VStr (mode nag));
   ("repeatMinutes", VInt (repeat_minutes nag));
   ("continueMinutes", value_of_opt_int (continue_minutes nag));
   ("notificationsEnabled", VBool (notifications_enabled nag));
   ("weight", VInt (weight nag));
   ("oneTimeEpochMillis", value_of_opt_int (one_time_epoch_ms nag));
   ("monthlyDay", value_of_opt_int (monthly_day nag));
   ("monthlyHour", value_of_opt_int (monthly_hour nag));
   ("monthlyMinute", value_of_opt_int (monthly_minute nag));
   ("createdAtEpochMillis", VInt (created_at_epoch_ms nag));
   ("skippedMonthlyDueEpochMillis",
    VList (VInt <$> skipped_monthly_due_epoch_ms nag));
   ("iconGlyph", value_of_opt_str (icon_glyph nag));
   ("iconPngBase64", value_of_opt_str (icon_png_base64 nag));
   ("imageUrl", value_of_opt_str (image_url nag));
   ("recurringPatternType", VStr (recurring_pattern_type nag));
   ("recurringDayOfWeek", value_of_opt_int (recurring_day_of_week nag));
   ("recurringNthWeek", value_of_opt_int (recurring_nth_week nag));
   ("recurringMonthOfYear", value_of_opt_int (recurring_month_of_year nag));
   ("recurringQuarterAnchorMonth",
    value_of_opt_int (recurring_quarter_anchor_month nag));
   ("recurringVisibleDaysBeforeDue",
    value_of_opt_int (recurring_visible_days_before_due nag));
   ("pushedOffsetMillis", VInt (pushed_offset_ms nag));
   ("pushCount", VInt (push_count nag));
   ("pushedTotalMillis", VInt (pushed_total_ms nag))].

(** The runtime does to strings, integers and booleans what CPython does:
    [str] of a string, [int] of an integer and [bool] of a boolean are the
    value itself. *)
Definition scalar_faithful (ops : PyOps) : Prop :=
  (forall s, py_str ops (VStr s) = s)
  /\ (forall z, py_int ops (VInt z) = Some z)
  /\ (forall b, py_bool ops (VBool b) = b).

(** An optional text that its normaliser accepts unchanged. *)
Definition kept_by (f : value -> option string) (x : option string) : Prop :=
  match x with
  | Some s => f (VStr s) = Some s /\ s <> EmptyString
  | None => True
  end.

(** A reminder in the form that validated construction produces. *)
Definition canonical (ops : PyOps) (nag : Nag) : Prop :=
  str_strip ops (work_name nag) = work_name nag
  /\ work_name nag <> EmptyString
  /\ str_strip ops (nag_text nag) = nag_text nag
  /\ nag_text nag <> EmptyString
  /\ bucket nag <> EmptyString
  /\ mode nag <> EmptyString
  /\ 1 <= lateness_days nag
  /\ 1 <= repeat_minutes nag
  /\ 0 <= weight nag <= 100
  /\ 0 <= pushed_offset_ms nag
  /\ 0 <= push_count nag
  /\ 0 <= pushed_total_ms nag
  /\ StronglySorted Z.lt (skipped_monthly_due_epoch_ms nag)
  /\ (forall days, recurring_visible_days_before_due nag = Some days ->
        1 <= days)
  /\ kept_by (normalize_icon_glyph ops) (icon_glyph nag)
  /\ kept_by (normalize_image_url ops) (image_url nag)
  /\ kept_by (normalize_icon_png_base64 ops) (icon_png_base64 nag)
  /\ kept_by (normalize_project_name ops) (project_name nag)
  /\ (is_Some (project_name nag)
      <-> str_lower ops (bucket nag) = str_lower ops PROJECT_BUCKET).

(** ** The visible list *)

Definition MONTHLY_VIEW_30_DAYS : Z := 30.
Definition MONTHLY_VIEW_1_YEAR_DAYS : Z := 365.
Definition RECUR_NEXT_ONLY : string := "Next only".
Definition RECUR_ALL_WINDOW : string := "All in window".

(** [f"{n}"] for an integer. *)
Definition str_of_int (n : Z) : string := NilZero.string_of_int (Z.to_int n).

Definition should_show_recurring_due_window
    (nag : Nag) (due now_ms_value : Z) : bool :=
  if negb (mode nag =? NAG_MODE_MONTHLY)%string then true
  else
    match recurring_visible_days_before_due nag with
    | None => true
    | Some visible_days =>
      let threshold_ms :=
        now_ms_value + Z.max 1 visible_days * 24 * 60 * 60 * 1000 in
      due <=? threshold_ms
    end.

(** The body of the [for nag in nags] loop of [build_visible_entries]: the
    entries that one reminder adds. *)
Definition visible_entries_of_nag (tz : Z) (nag : Nag)
    (now_ms_value horizon_ms horizon_end_ms : Z) (recurring_view_mode : string)
    : result (list NagListEntry) :=
  if (mode nag =? NAG_MODE_ONE_TIME)%string then
    let? window := resolve_due_window tz nag now_ms_value in
    Ok [{| entry_nag := nag; due_window := window;
           key := work_name nag +:+ "_single" |}]
  else if (recurring_view_mode =? RECUR_ALL_WINDOW)%string then
    let? windows :=
      resolve_monthly_due_windows_in_range tz nag now_ms_value
                                           horizon_end_ms in
    Ok (map (fun window =>
               {| entry_nag := nag; due_window := Some window;
                  key := work_name nag +:+ "_"
                         +:+ str_of_int (due_ms window) |})
            (List.filter
               (fun window =>
                  should_show_recurring_due_window nag (due_ms window)
                                                   now_ms_value)
               windows))
  else
    let? display_window :=
      resolve_current_display_monthly_due_window tz nag now_ms_value in
    let? next_upcoming := resolve_next_due_ms tz nag now_ms_value in
    match display_window, next_upcoming with
    | Some window, Some next =>
      if horizon_ms <? next - now_ms_value then Ok []
      else if negb (should_show_recurring_due_window nag next now_ms_value)
      then Ok []
      else
        Ok [{| entry_nag := nag; due_window := Some window;
               key := work_name nag +:+ "_"
                      +:+ str_of_int (due_ms window) |}]
    | _, _ => Ok []
    end.

(** The loop itself: the entries of the reminders, in the order of the
    reminders; the first exception leaves the function. *)
Fixpoint visible_entries_loop (tz : Z) (nags : list Nag)
    (now_ms_value horizon_ms horizon_end_ms : Z) (recurring_view_mode : string)
    : result (list NagListEntry) :=
  match nags with
  | [] => Ok []
  | nag :: rest =>
    let? added :=
      visible_entries_of_nag tz nag now_ms_value horizon_ms horizon_end_ms
                             recurring_view_mode in
    let? more :=
      visible_entries_loop tz rest now_ms_value horizon_ms horizon_end_ms
                           recurring_view_mode in
    Ok (added ++ more)
  end.

Definition horizon_ms_of (monthly_view_days : Z) : Z :=
  let horizon_days :=
    if MONTHLY_VIEW_1_YEAR_DAYS <=? monthly_view_days
    then MONTHLY_VIEW_1_YEAR_DAYS else MONTHLY_VIEW_30_DAYS in
  horizon_days * 24 * 60 * 60 * 1000.

Definition build_visible_entries (tz : Z) (nags : list Nag)
    (now_ms_value monthly_view_days : Z) (recurring_view_mode : string)
    : result (list NagListEntry) :=
  let horizon_ms := horizon_ms_of monthly_view_days in
  let horizon_end_ms := now_ms_value + horizon_ms in
  visible_entries_loop tz nags now_ms_value horizon_ms horizon_end_ms
                       recurring_view_mode.

(** What the list promises for an entry of a reminder [nag] at [now]. *)
Definition visible_entry_ok (tz : Z) (now_ms_value horizon_ms : Z)
    (e : NagListEntry) : Prop :=
  let nag := entry_nag e in
  if (mode nag =? NAG_MODE_ONE_TIME)%string then
    resolve_due_window tz nag now_ms_value = Ok (due_window e)
    /\ key e = work_name nag +:+ "_single"
  else
    exists window,
      due_window e = Some window
      /\ now_ms_value <= source_due_ms window
      /\ source_due_ms window <= due_ms window
      /\ due_ms window <= now_ms_value + horizon_ms
      /\ should_show_recurring_due_window nag (due_ms window) now_ms_value
         = true
      /\ key e = work_name nag +:+ "_" +:+ str_of_int (due_ms window).

(** ** Orders of the sorted list *)




Definition is_one_time (nag : Nag) : bool :=
  (mode nag =? NAG_MODE_ONE_TIME)%string.

(** ** Labels *)

Definition format_duration_compact (duration_ms : Z) : string :=
  let millis := Z.max 0 duration_ms in
  let week := 7 * 24 * 60 * 60 * 1000 in
  let day := 24 * 60 * 60 * 1000 in
  let hour := 60 * 60 * 1000 in
  let minute := 60 * 1000 in
  let second := 1000 in
  if week <=? millis then str_of_int (millis / week) +:+ "w"
  else if day <=? millis then str_of_int (millis / day) +:+ "d"
  else if hour <=? millis then str_of_int (millis / hour) +:+ "h"
  else if minute <=? millis then str_of_int (millis / minute) +:+ "m"
  else if second <=? millis then str_of_int (millis / second) +:+ "s"
  else str_of_int millis +:+ "ms".

Definition due_status_label (now_ms_value due : Z) : string :=
  if due <? now_ms_value
  then "+" +:+ format_duration_compact (now_ms_value - due)
  else format_duration_compact (due - now_ms_value).

(** The units of the compact format with their length in milliseconds. *)
Definition DURATION_UNITS : list (string * Z) :=
  [("w", 604800000); ("d", 86400000); ("h", 3600000); ("m", 60000);
   ("s", 1000); ("ms", 1)].

(** ** Progress fraction *)

Definition float_0 : float := S754_zero false.
Definition float_1 : float := binary_normalize PREC EMAX 1 0 false.

(** [x < y] and [x <= y] on floats. *)
Definition float_ltb (x y : float) : bool := SFltb x y.
Definition float_leb (x y : float) : bool := SFleb x y.

(** [min(a, b)] and [max(a, b)] of two floats: the first argument unless
    the second is strictly smaller (larger). *)
Definition float_min (a b : float) : float := if float_ltb b a then b else a.
Definition float_max (a b : float) : float := if float_ltb a b then b else a.

Definition progress_fraction (now_ms_value start end_ms : Z) : result float :=
  if end_ms <=? start then
    Ok (if end_ms <=? now_ms_value then float_1 else float_0)
  else
    let? ratio := int_true_div (now_ms_value - start) (end_ms - start) in
    Ok (float_max float_0 (float_min float_1 ratio)).

(** ** What the normalisers accept *)

Definition is_http_url (ops : PyOps) (s : string) : Prop :=
  s <> EmptyString
  /\ (startswith (str_lower ops s) "http://" = true
      \/ startswith (str_lower ops s) "https://" = true).

Definition is_base64_image (ops : PyOps) (s : string) : Prop :=
  16 <= str_len ops s /\ b64_valid ops s = true.

Definition is_icon_text (s : string) : Prop :=
  s <> EmptyString /\ looks_like_icon_text s = true.

(** A day of the backward scan offers nothing: it does not match, or its
    occurrence is after the reference. *)
Definition day_too_late (tz : Z) (nag : Nag) (hour minute reference_ms : Z)
    (probe : date) (k : Z) : Prop :=
  forall cur,
    date_add_days probe (- k) = Ok cur ->
    is_recurring_date_match tz nag cur = Ok true ->
    reference_ms < occurrence_ms tz cur hour minute.

(** ** The project overview *)

(** [x or default] on [Optional[str]]: [None] and the empty text are
    falsy. *)
Definition or_str (x : option string) (default : string) : string :=
  match x with
  | Some s => if (s =? EmptyString)%string then default else s
  | None => default
  end.

Definition effective_project_name (ops : PyOps) (nag : Nag) : option string :=
  if negb (str_lower ops (str_strip ops (bucket nag))
           =? str_lower ops PROJECT_BUCKET)%string
  then None
  else
    Some (or_str (normalize_project_name ops
                    (value_of_opt_str (project_name nag)))
                 DEFAULT_PROJECT_NAME).

(** The project under which the overview files a reminder. *)
Definition project_of (ops : PyOps) (nag : Nag) : string :=
  or_str (effective_project_name ops nag) DEFAULT_PROJECT_NAME.

(** [grouped.setdefault(project, []).append(nag)] on a dict that keeps its
    keys in the order of their first insertion. *)
Fixpoint grouped_add (grouped : list (string * list Nag)) (project : string)
    (nag : Nag) : list (string * list Nag) :=
  match grouped with
  | [] => [(project, [nag])]
  | (p, members) :: rest =>
    if (p =? project)%string then (p, members ++ [nag]) :: rest
    else (p, members) :: grouped_add rest project nag
  end.

Definition group_by_project (ops : PyOps) (nags : list Nag)
    : list (string * list Nag) :=
  fold_left (fun grouped nag => grouped_add grouped (project_of ops nag) nag)
            nags [].

(** [a < b] on tuples of integers. *)
Fixpoint tuple_ltb (a b : list Z) : bool :=
  match a, b with
  | _, [] => false
  | [], _ :: _ => true
  | x :: a', y :: b' =>
    if x <? y then true else if y <? x then false else tuple_ltb a' b'
  end.

(** The due instant by which the overview compares a reminder whose due
    window is [window]. *)
Definition overview_due_of (tz : Z) (nag : Nag) (now_ms_value : Z)
    (window : option DueWindow) : result Z :=
  match window with
  | Some w => Ok (due_ms w)
  | None =>
    let? next := resolve_next_due_ms tz nag now_ms_value in
    Ok (or_int next MAX_LONG)
  end.

Definition overview_due (tz : Z) (nag : Nag) (now_ms_value : Z) : result Z :=
  let? window := resolve_due_window tz nag now_ms_value in
  overview_due_of tz nag now_ms_value window.

Definition overview_key (now_ms_value : Z) (nag : Nag) (due : Z) : list Z :=
  [if due <=? now_ms_value then 0 else 1; due; - weight nag;
   created_at_epoch_ms nag].

(** The [for nag in project_nags] loop: the representative so far is
    replaced by a candidate with a strictly smaller key. *)
Fixpoint pick_representative (tz : Z) (now_ms_value : Z)
    (project_nags : list Nag)
    (representative : option (Nag * option DueWindow * Z))
    : result (option (Nag * option DueWindow * Z)) :=
  match project_nags with
  | [] => Ok representative
  | nag :: rest =>
    let? window := resolve_due_window tz nag now_ms_value in
    let? due := overview_due_of tz nag now_ms_value window in
    let candidate := (nag, window, due) in
    match representative with
    | None => pick_representative tz now_ms_value rest (Some candidate)
    | Some (rep_nag, _, rep_due_ms) =>
      let rep_key := overview_key now_ms_value rep_nag rep_due_ms in
      let cand_key := overview_key now_ms_value nag due in
      if tuple_ltb cand_key rep_key
      then pick_representative tz now_ms_value rest (Some candidate)
      else pick_representative tz now_ms_value rest representative
    end
  end.

(** The [for project_name, project_nags in grouped.items()] loop. *)
Fixpoint overview_loop (ops : PyOps) (tz : Z) (now_ms_value : Z)
    (grouped : list (string * list Nag)) : result (list NagListEntry) :=
  match grouped with
  | [] => Ok []
  | (project_name, project_nags) :: rest =>
    let? representative :=
      pick_representative tz now_ms_value project_nags None in
    let? more := overview_loop ops tz now_ms_value rest in
    match representative with
    | None => Ok more
    | Some (rep_nag, _, _) =>
      Ok ({| entry_nag := rep_nag; due_window := None;
             key := "project_overview_" +:+ str_lower ops project_name |}
          :: more)
    end
  end.

Definition build_project_overview_entries (ops : PyOps) (tz : Z)
    (nags : list Nag) (now_ms_value : Z) : result (list NagListEntry) :=
  match nags with
  | [] => Ok []
  | _ => overview_loop ops tz now_ms_value (group_by_project ops nags)
  end.

(** The comparison of the overview on key tuples, in plain terms: an
    instant that has come before one that has not, then the earlier due
    instant, then the larger weight, then the earlier creation time. *)
Definition urgency_le (now_ms_value : Z) (a : Nag) (due_a : Z) (b : Nag)
    (due_b : Z) : Prop :=
  let late_a := if due_a <=? now_ms_value then 0 else 1 in
  let late_b := if due_b <=? now_ms_value then 0 else 1 in
  late_a < late_b
  \/ (late_a = late_b
      /\ (due_a < due_b
          \/ (due_a = due_b
              /\ (weight b < weight a
                  \/ (weight a = weight b
                      /\ created_at_epoch_ms a <= created_at_epoch_ms b))))).

(** [a] is at least as urgent as [b] in the overview. *)
Definition at_least_as_urgent (tz now_ms_value : Z) (a b : Nag) : Prop :=
  exists due_a due_b,
    overview_due tz a now_ms_value = Ok due_a
    /\ overview_due tz b now_ms_value = Ok due_b
    /\ urgency_le now_ms_value a due_a b due_b.

(** The groups after the reminders [seen]: the projects are distinct, no
    group is empty, and a group holds the reminders of its project. *)
Definition grouped_ok (ops : PyOps) (grouped : list (string * list Nag))
    (seen : list Nag) : Prop :=
  NoDup grouped.*1
  /\ (forall p members, (p, members) ∈ grouped ->
        members <> []
        /\ forall x, x ∈ members <-> x ∈ seen /\ project_of ops x = p)
  /\ forall x, x ∈ seen -> project_of ops x ∈ grouped.*1.

(** The work name that an event row carries, when its payload parses. *)
Definition row_name (ops : PyOps) (row : pydict) : option string :=
  match _parse_payload ops (dict_get row "payload" VNone) with
  | Some payload =>
    Some (str_strip ops
            (py_str ops (dict_get payload "workName" (VStr EmptyString))))
  | None => None
  end.

(** ** Further examples *)

(** The window of [monthly_15th] seen on 14 November 2023: from the
    occurrence of 15 October to the occurrence of 15 November. *)
Definition window_2023_11 : DueWindow :=
  {| start_ms := T_2023_10_15_0900; due_ms := T_2023_11_15_0900;
     source_due_ms := T_2023_11_15_0900 |}.

(** A one-time reminder due on 15 November 2023 and a monthly one. *)
Definition example_nags : list Nag :=
  [one_time "call" (Some T_2023_11_15_0900) 10; monthly_15th].

Definition example_entries : list NagListEntry :=
  [{| entry_nag := one_time "call" (Some T_2023_11_15_0900) 10;
      due_window := Some {| start_ms := 0; due_ms := T_2023_11_15_0900;
                            source_due_ms := T_2023_11_15_0900 |};
      key := "call_single" |};
   {| entry_nag := monthly_15th; due_window := Some window_2023_11;
      key := "rent_1700038800000" |}].

(** Both reminders fall due at the same instant; the heavier one stands for
    their project. *)
Definition example_overview : list NagListEntry :=
  [{| entry_nag := monthly_15th; due_window := None;
      key := "project_overview_general" |}].

(** An event row for another reminder. *)
Definition row_other : pydict :=
  event_row "2024-03-01T00:00:00+00:00" "dentist" "Book the dentist".

(** A payload with an image URL, and the reminder built from it at
    instant 0. *)
Definition payload_with_image : pydict :=
  [("workName", VStr "rent"); ("nagText", VStr "Pay rent");
   ("imageUrl", VStr "https://example.org/rent.png")].

Definition rent_with_image : Nag :=
  {| work_name := "rent"; nag_text := "Pay rent"; bucket := "Work";
     project_name := None; lateness_days := 7; mode := NAG_MODE_ONE_TIME;
     repeat_minutes := 60; continue_minutes := None;
     notifications_enabled := true; weight := 50; one_time_epoch_ms := None;
     monthly_day := None; monthly_hour := None; monthly_minute := None;
     created_at_epoch_ms := 0; skipped_monthly_due_epoch_ms := [];
     icon_glyph := None; icon_png_base64 := None;
     image_url := Some "https://example.org/rent.png";
     recurring_pattern_type := PATTERN_DAY_OF_MONTH;
     recurring_day_of_week := None; recurring_nth_week := None;
     recurring_month_of_year := None; recurring_quarter_anchor_month := None;
     recurring_visible_days_before_due := None; pushed_offset_ms := 0;
     push_count := 0; pushed_total_ms := 0 |}.

(** ** What a row does to the rebuilt state *)

(** The effect of one event row: none, a parseable payload that is no
    reminder, the removal of a name, or the storing of a reminder. *)
Inductive row_effect : Type :=
| NoEffect
| CountPayload
| DeleteName (name : string)
| StoreNag (name : string) (nag : Nag).

(** The effect of [row] when the clock reads [now]; the loop body
    [replay_row] applies it to the state. *)
Definition effect_of_row (ops : PyOps) (now : Z) (row : pydict) : row_effect :=
  match _parse_payload ops (dict_get row "payload" VNone) with
  | None | Some [] => NoEffect
  | Some payload =>
    match from_payload ops now payload with
    | None => CountPayload
    | Some nag =>
      let row_icon_base64 :=
        normalize_icon_png_base64 ops (dict_get row "icon_png_base64" VNone) in
      let nag :=
        if truthy row_icon_base64
        then with_icon_png_base64 nag row_icon_base64 else nag in
      let action :=
        str_lower ops
          (str_strip ops
             (py_str ops (dict_get payload "action" (VStr EmptyString)))) in
      if (action =? "delete")%string then DeleteName (work_name nag)
      else StoreNag (work_name nag) nag
    end
  end.

Definition apply_effect (e : row_effect) (st : Rebuilt) : Rebuilt :=
  match e with
  | NoEffect => st
  | CountPayload =>
    mk_Rebuilt (nags_by_work st) (last_parseable_payload_rows st + 1)
               (last_valid_nag_rows st)
  | DeleteName name =>
    mk_Rebuilt (delete name (nags_by_work st))
               (last_parseable_payload_rows st + 1)
               (last_valid_nag_rows st + 1)
  | StoreNag name nag =>
    mk_Rebuilt (<[name := nag]> (nags_by_work st))
               (last_parseable_payload_rows st + 1)
               (last_valid_nag_rows st + 1)
  end.

(** Two rows are the same event: they agree on the two columns that the
    replay loop reads. *)
Definition same_event (r1 r2 : pydict) : Prop :=
  dict_get r1 "payload" VNone = dict_get r2 "payload" VNone
  /\ dict_get r1 "icon_png_base64" VNone = dict_get r2 "icon_png_base64" VNone.

(** The row does not consult the clock: it has no payload, or its payload
    carries the creation time (as every payload of [to_payload] does). *)
Definition carries_creation_time (ops : PyOps) (row : pydict) : Prop :=
  match _parse_payload ops (dict_get row "payload" VNone) with
  | Some payload =>
    payload = [] \/ is_Some (dict_find id payload "createdAtEpochMillis")
  | None => True
  end.

(** Two rows whose order does not matter: the same event twice, or two rows
    that carry their creation time and do not carry the same work name. *)
Definition order_free (ops : PyOps) (r1 r2 : pydict) : Prop :=
  same_event r1 r2
  \/ (carries_creation_time ops r1 /\ carries_creation_time ops r2
      /\ forall name, row_name ops r1 = Some name ->
                      row_name ops r2 <> Some name).

(** A row for another reminder, written at the same instant as
    [row_first]. *)
Definition row_tied : pydict :=
  event_row "2024-01-01T00:00:00+00:00" "dentist" "Book the dentist".

(** A reminder for the first occurrence of a weekday number that no day
    has, and one for the occurrence number -2 of Monday. *)
Definition ninth_weekday : Nag :=
  with_nth_weekday monthly_15th (Some 9) (Some 1).
Definition minus_second_monday : Nag :=
  with_nth_weekday monthly_15th (Some 2) (Some (-2)).

(** * Properties *)

(** ** The calendar *)

Lemma yday_check_all :
  forallb (fun n => yday_check true n && yday_check false n) (seqZ 0 365) = true.
Proof. vm_compute. reflexivity. Qed.

Lemma yday_check_ok b n : 0 <= n < 365 -> yday_check b n = true.
Proof.
  intros Hn.
  pose proof yday_check_all as Hall.
  rewrite forallb_forall in Hall.
  assert (Hin : In n (seqZ 0 365)).
  { apply list_elem_of_In, elem_of_seqZ. lia. }
  specialize (Hall n Hin). apply andb_true_iff in Hall.
  destruct b; tauto.
Qed.

Lemma year_decomp n400 n100 n4 n1 :
  0 <= n400 -> 0 <= n100 <= 3 -> 0 <= n4 <= 24 -> 0 <= n1 <= 3 ->
  let y := n400 * 400 + 1 + n100 * 100 + n4 * 4 + n1 in
  days_before_year y = 146097 * n400 + 36524 * n100 + 1461 * n4 + 365 * n1
  /\ is_leap y = (n1 =? 3) && (negb (n4 =? 24) || (n100 =? 3)).
Proof.
  intros H400 H100 H4 H1 y. subst y. split.
  - unfold days_before_year. cbv zeta. Z.div_mod_to_equations. lia.
  - unfold is_leap.
    repeat match goal with
           | |- context [Z.eqb ?a ?b] => destruct (Z.eqb_spec a b)
           end; simpl; try reflexivity;
      exfalso; Z.div_mod_to_equations; lia.
Qed.

Lemma ord2ymd_spec n :
  1 <= n <= MAXORDINAL ->
  date_valid (ord2ymd n) = true /\ toordinal (ord2ymd n) = n.
Proof.
  unfold MAXORDINAL. intros Hn. unfold ord2ymd. cbv zeta.
  set (a := n - 1).
  set (n400 := a / 146097). set (r1 := a mod 146097).
  set (n100 := r1 / 36524). set (r2 := r1 mod 36524).
  set (n4 := r2 / 1461). set (r3 := r2 mod 1461).
  set (n1 := r3 / 365). set (r4 := r3 mod 365).
  assert (Ha : a = 146097 * n400 + r1 /\ 0 <= r1 < 146097)
    by (subst n400 r1; Z.div_mod_to_equations; lia).
  assert (Hr1 : r1 = 36524 * n100 + r2 /\ 0 <= r2 < 36524)
    by (subst n100 r2; Z.div_mod_to_equations; lia).
  assert (Hr2 : r2 = 1461 * n4 + r3 /\ 0 <= r3 < 1461)
    by (subst n4 r3; Z.div_mod_to_equations; lia).
  assert (Hr3 : r3 = 365 * n1 + r4 /\ 0 <= r4 < 365)
    by (subst n1 r4; Z.div_mod_to_equations; lia).
  assert (H400 : 0 <= n400 <= 24) by (subst a; lia).
  assert (H100 : 0 <= n100 <= 4) by lia.
  assert (H4 : 0 <= n4 <= 24) by lia.
  assert (H1 : 0 <= n1 <= 4) by lia.
  clearbody n400 r1 n100 r2 n4 r3 n1 r4. subst a.
  destruct (Z.eqb_spec n1 4) as [E1|E1]; simpl orb.
  - (* last day of a four-year cycle *)
    assert (r4 = 0) by lia. subst n1 r4.
    assert (H100' : 0 <= n100 <= 3) by lia.
    destruct (year_decomp n400 n100 n4 3 ltac:(lia) H100' H4 ltac:(lia))
      as [Hd Hl].
    cbv zeta in Hd, Hl.
    replace (n400 * 400 + 1 + n100 * 100 + n4 * 4 + 4 - 1)
      with (n400 * 400 + 1 + n100 * 100 + n4 * 4 + 3) by lia.
    unfold date_valid, toordinal, ymd2ord, days_in_month, days_before_month.
    simpl year; simpl month; simpl day.
    rewrite Hd, Hl. unfold MINYEAR, MAXYEAR.
    assert (Hleap : (3 =? 3) && (negb (n4 =? 24) || (n100 =? 3)) = true).
    { destruct (Z.eqb_spec n4 24), (Z.eqb_spec n100 3); simpl; try reflexivity.
      exfalso. lia. }
    rewrite Hleap. simpl.
    split; [| lia].
    repeat (apply andb_true_iff; split); apply Z.leb_le; lia.
  - destruct (Z.eqb_spec n100 4) as [E100|E100].
    + (* last day of a 400-year cycle *)
      assert (r2 = 0 /\ n4 = 0 /\ r3 = 0 /\ n1 = 0 /\ r4 = 0) by lia.
      destruct H as (-> & -> & -> & -> & ->). subst n100.
      destruct (year_decomp n400 3 24 3 ltac:(lia) ltac:(lia) ltac:(lia)
                  ltac:(lia)) as [Hd Hl].
      cbv zeta in Hd, Hl.
      replace (n400 * 400 + 1 + 4 * 100 + 0 * 4 + 0 - 1)
        with (n400 * 400 + 1 + 3 * 100 + 24 * 4 + 3) by lia.
      unfold date_valid, toordinal, ymd2ord, days_in_month, days_before_month.
      simpl year; simpl month; simpl day.
      rewrite Hd, Hl. unfold MINYEAR, MAXYEAR. simpl.
      split; [| lia].
      repeat (apply andb_true_iff; split); apply Z.leb_le; lia.
    + assert (H100' : 0 <= n100 <= 3) by lia.
      assert (H1' : 0 <= n1 <= 3) by lia.
      destruct (year_decomp n400 n100 n4 n1 ltac:(lia) H100' H4 H1')
        as [Hd Hl].
      cbv zeta in Hd, Hl.
      set (leap := (n1 =? 3) && (negb (n4 =? 24) || (n100 =? 3))) in *.
      pose proof (yday_check_ok leap r4 ltac:(lia)) as Hc.
      unfold yday_check in Hc.
      destruct (month_day_of_yday leap r4) as [m d].
      repeat (apply andb_true_iff in Hc; destruct Hc as [Hc ?]).
      unfold date_valid, toordinal, ymd2ord, days_in_month, days_before_month.
      simpl year; simpl month; simpl day.
      rewrite Hd, Hl. unfold MINYEAR, MAXYEAR.
      split.
      * repeat (apply andb_true_iff; split); try assumption;
          apply Z.leb_le; lia.
      * apply Z.eqb_eq in H. lia.
Qed.

Lemma days_before_year_succ y :
  days_before_year (y + 1)
  = days_before_year y + 365 + (if is_leap y then 1 else 0).
Proof.
  unfold days_before_year, is_leap. cbv zeta.
  replace (y + 1 - 1) with y by lia.
  repeat match goal with
         | |- context [Z.eqb ?a ?b] => destruct (Z.eqb_spec a b)
         end; simpl; Z.div_mod_to_equations; lia.
Qed.

Lemma days_before_year_mono y1 y2 :
  y1 <= y2 -> days_before_year y1 <= days_before_year y2.
Proof.
  intros H. unfold days_before_year. cbv zeta.
  Z.div_mod_to_equations. lia.
Qed.

Lemma month_cases m :
  1 <= m <= 12 ->
  m = 1 \/ m = 2 \/ m = 3 \/ m = 4 \/ m = 5 \/ m = 6 \/ m = 7 \/ m = 8
  \/ m = 9 \/ m = 10 \/ m = 11 \/ m = 12.
Proof. lia. Qed.

Ltac month_split H :=
  apply month_cases in H;
  repeat (destruct H as [H | H]); subst.

Lemma days_in_month_bounds y m :
  1 <= m <= 12 -> 28 <= days_in_month y m <= 31.
Proof.
  intros H. unfold days_in_month.
  month_split H; destruct (is_leap y); simpl; lia.
Qed.

Lemma days_before_month_succ y m :
  1 <= m <= 11 ->
  days_before_month y (m + 1) = days_before_month y m + days_in_month y m.
Proof.
  intros H. unfold days_before_month, days_in_month.
  assert (H' : 1 <= m <= 12) by lia.
  month_split H'; try lia; destruct (is_leap y); reflexivity.
Qed.

Lemma days_before_month_last y :
  days_before_month y 12 + days_in_month y 12
  = 365 + (if is_leap y then 1 else 0).
Proof.
  unfold days_before_month, days_in_month. destruct (is_leap y); reflexivity.
Qed.

Lemma days_before_month_mono y m1 m2 :
  1 <= m1 -> m1 <= m2 -> m2 <= 12 ->
  days_before_month y m1 <= days_before_month y m2.
Proof.
  intros H1 H12 H2.
  assert (Hm1 : 1 <= m1 <= 12) by lia.
  assert (Hm2 : 1 <= m2 <= 12) by lia.
  unfold days_before_month.
  month_split Hm1; month_split Hm2; try lia;
    destruct (is_leap y); simpl; lia.
Qed.

Lemma date_valid_spec dv :
  date_valid dv = true <->
  1 <= year dv <= 9999 /\ 1 <= month dv <= 12
  /\ 1 <= day dv <= days_in_month (year dv) (month dv).
Proof.
  unfold date_valid, MINYEAR, MAXYEAR.
  rewrite !andb_true_iff, !Z.leb_le. lia.
Qed.

(** Within one year the ordinal stays between the year's first and last day. *)
Lemma toordinal_year_bounds dv :
  date_valid dv = true ->
  days_before_year (year dv) < toordinal dv <= days_before_year (year dv + 1).
Proof.
  rewrite date_valid_spec. intros (Hy & Hm & Hd).
  unfold toordinal, ymd2ord. rewrite days_before_year_succ.
  assert (0 <= days_before_month (year dv) (month dv)).
  { pose proof (days_before_month_mono (year dv) 1 (month dv)
                  ltac:(lia) ltac:(lia) ltac:(lia)) as Hmono.
    unfold days_before_month at 1 in Hmono. simpl in Hmono. lia. }
  assert (days_before_month (year dv) (month dv)
          + days_in_month (year dv) (month dv)
          <= 365 + (if is_leap (year dv) then 1 else 0)).
  { destruct (Z.eq_dec (month dv) 12) as [E|E].
    - rewrite E, days_before_month_last. lia.
    - rewrite <- days_before_month_succ by lia.
      rewrite <- days_before_month_last.
      pose proof (days_before_month_mono (year dv) (month dv + 1) 12
                    ltac:(lia) ltac:(lia) ltac:(lia)).
      pose proof (days_in_month_bounds (year dv) 12 ltac:(lia)). lia. }
  lia.
Qed.

Lemma toordinal_range dv :
  date_valid dv = true -> 1 <= toordinal dv <= MAXORDINAL.
Proof.
  intros Hv. pose proof (toordinal_year_bounds dv Hv) as Hb.
  apply date_valid_spec in Hv. destruct Hv as (Hy & _).
  pose proof (days_before_year_mono 1 (year dv) ltac:(lia)) as H1.
  pose proof (days_before_year_mono (year dv + 1) 10000 ltac:(lia)) as H2.
  change (days_before_year 1) with 0 in H1.
  change (days_before_year 10000) with 3652059 in H2.
  unfold MAXORDINAL. lia.
Qed.

Lemma toordinal_inj d1 d2 :
  date_valid d1 = true -> date_valid d2 = true ->
  toordinal d1 = toordinal d2 -> d1 = d2.
Proof.
  intros V1 V2 E.
  pose proof (toordinal_year_bounds d1 V1) as B1.
  pose proof (toordinal_year_bounds d2 V2) as B2.
  assert (Ey : year d1 = year d2).
  { destruct (Z.lt_trichotomy (year d1) (year d2)) as [Hlt | [Heq | Hgt]];
      [exfalso | exact Heq | exfalso].
    - pose proof (days_before_year_mono (year d1 + 1) (year d2) ltac:(lia)). lia.
    - pose proof (days_before_year_mono (year d2 + 1) (year d1) ltac:(lia)). lia. }
  apply date_valid_spec in V1, V2.
  destruct V1 as (Hy1 & Hm1 & Hd1), V2 as (Hy2 & Hm2 & Hd2).
  unfold toordinal, ymd2ord in E. rewrite <- Ey in *.
  assert (Em : month d1 = month d2).
  { destruct (Z.lt_trichotomy (month d1) (month d2)) as [Hlt | [Heq | Hgt]];
      [exfalso | exact Heq | exfalso].
    - pose proof (days_before_month_succ (year d1) (month d1) ltac:(lia)).
      pose proof (days_before_month_mono (year d1) (month d1 + 1) (month d2)
                    ltac:(lia) ltac:(lia) ltac:(lia)). lia.
    - pose proof (days_before_month_succ (year d1) (month d2) ltac:(lia)).
      pose proof (days_before_month_mono (year d1) (month d2 + 1) (month d1)
                    ltac:(lia) ltac:(lia) ltac:(lia)). lia. }
  rewrite <- Em in *.
  destruct d1, d2; simpl in *. f_equal; lia.
Qed.

Lemma ord2ymd_toordinal dv :
  date_valid dv = true -> ord2ymd (toordinal dv) = dv.
Proof.
  intros Hv.
  destruct (ord2ymd_spec (toordinal dv) (toordinal_range dv Hv)) as [V E].
  now apply toordinal_inj.
Qed.

(** The last day of a month is what [month_max_day] computes; the only
    month without a successor in the calendar is December 9999. *)
Lemma month_max_day_ok y m :
  1 <= y <= 9999 -> 1 <= m <= 12 -> (y, m) <> (9999, 12) ->
  month_max_day y m = Ok (days_in_month y m).
Proof.
  intros Hy Hm Hne. unfold month_max_day.
  assert (Hlast : date_valid (mk_date y m (days_in_month y m)) = true).
  { apply date_valid_spec. simpl.
    pose proof (days_in_month_bounds y m Hm). lia. }
  destruct (Z.eqb_spec m 12) as [E|E].
  - subst m. assert (y <> 9999) by congruence.
    unfold new_date.
    assert (Hv : date_valid (mk_date (y + 1) 1 1) = true).
    { apply date_valid_spec. simpl.
      pose proof (days_in_month_bounds (y + 1) 1 ltac:(lia)). lia. }
    rewrite Hv. simpl rbind. unfold date_add_days.
    assert (Eo : toordinal (mk_date (y + 1) 1 1) + -1
                 = toordinal (mk_date y 12 (days_in_month y 12))).
    { unfold toordinal, ymd2ord. simpl year; simpl month; simpl day.
      rewrite days_before_year_succ.
      pose proof (days_before_month_last y).
      change (days_before_month (y + 1) 1) with 0. lia. }
    rewrite Eo.
    pose proof (toordinal_range _ Hlast) as Hr.
    unfold ordinal_ok.
    destruct (Z.leb_spec 1 (toordinal (mk_date y 12 (days_in_month y 12))));
      [| lia].
    destruct (Z.leb_spec (toordinal (mk_date y 12 (days_in_month y 12)))
                MAXORDINAL); [| lia].
    simpl. now rewrite ord2ymd_toordinal.
  - unfold new_date.
    assert (Hv : date_valid (mk_date y (m + 1) 1) = true).
    { apply date_valid_spec. simpl.
      pose proof (days_in_month_bounds y (m + 1) ltac:(lia)). lia. }
    rewrite Hv. simpl rbind. unfold date_add_days.
    assert (Eo : toordinal (mk_date y (m + 1) 1) + -1
                 = toordinal (mk_date y m (days_in_month y m))).
    { unfold toordinal, ymd2ord. simpl year; simpl month; simpl day.
      rewrite days_before_month_succ by lia. lia. }
    rewrite Eo.
    pose proof (toordinal_range _ Hlast) as Hr.
    unfold ordinal_ok.
    destruct (Z.leb_spec 1 (toordinal (mk_date y m (days_in_month y m))));
      [| lia].
    destruct (Z.leb_spec (toordinal (mk_date y m (days_in_month y m)))
                MAXORDINAL); [| lia].
    simpl. now rewrite ord2ymd_toordinal.
Qed.

(** ** The scans *)

Lemma next_scan_ge tz nag hour minute reference_ms probe offsets due :
  next_scan tz nag hour minute reference_ms probe offsets = Ok (Some due) ->
  reference_ms <= due.
Proof.
  induction offsets as [| k rest IH]; cbn [next_scan]; [discriminate |].
  destruct (date_add_days probe k) as [cur |]; cbn [rbind]; [| discriminate].
  destruct (is_recurring_date_match tz nag cur) as [[] |]; cbn [rbind negb];
    [| exact IH | discriminate].
  destruct (new_datetime _ _ _ _ _) as [due_dt |]; cbn [rbind]; [| discriminate].
  destruct (Z.ltb_spec (local_to_ms tz due_dt) reference_ms); [exact IH |].
  destruct (is_monthly_due_skipped nag _); [exact IH |].
  intros [= <-]. assumption.
Qed.

Lemma previous_scan_le tz nag hour minute reference_ms probe offsets due :
  previous_scan tz nag hour minute reference_ms probe offsets = Ok (Some due) ->
  due <= reference_ms.
Proof.
  induction offsets as [| k rest IH]; cbn [previous_scan]; [discriminate |].
  destruct (date_add_days probe (- k)) as [cur |]; cbn [rbind]; [| discriminate].
  destruct (is_recurring_date_match tz nag cur) as [[] |]; cbn [rbind negb];
    [| exact IH | discriminate].
  destruct (new_datetime _ _ _ _ _) as [due_dt |]; cbn [rbind]; [| discriminate].
  destruct (Z.ltb_spec reference_ms (local_to_ms tz due_dt)); [exact IH |].
  intros [= <-]. assumption.
Qed.

Lemma resolve_next_ge tz nag reference_ms due :
  resolve_next_recurring_base_due_ms tz nag reference_ms = Ok (Some due) ->
  reference_ms <= due.
Proof.
  unfold resolve_next_recurring_base_due_ms.
  destruct (negb _); [discriminate |].
  destruct (monthly_hour nag) as [hour |]; [| discriminate].
  destruct (monthly_minute nag) as [minute |]; [| discriminate].
  destruct (ms_to_local tz reference_ms) as [probe |]; cbn [rbind];
    [| discriminate].
  apply next_scan_ge.
Qed.

Lemma resolve_previous_le tz nag reference_ms due :
  resolve_previous_recurring_base_due_ms tz nag reference_ms = Ok (Some due) ->
  due <= reference_ms.
Proof.
  unfold resolve_previous_recurring_base_due_ms.
  destruct (negb _); [discriminate |].
  destruct (monthly_hour nag) as [hour |]; [| discriminate].
  destruct (monthly_minute nag) as [minute |]; [| discriminate].
  destruct (ms_to_local tz reference_ms) as [probe |]; cbn [rbind];
    [| discriminate].
  apply previous_scan_le.
Qed.

Lemma scan_date_ok o :
  1 <= o <= MAXORDINAL - 31 ->
  date_valid (ord2ymd o) = true
  /\ (year (ord2ymd o), month (ord2ymd o)) <> (9999, 12).
Proof.
  unfold MAXORDINAL. intros Ho.
  destruct (ord2ymd_spec o ltac:(unfold MAXORDINAL; lia)) as [V E].
  split; [exact V |]. intros [= Ey Em].
  apply date_valid_spec in V. destruct V as (_ & _ & Hd).
  unfold toordinal, ymd2ord in E. rewrite Ey, Em in E.
  change (days_before_year 9999) with 3651694 in E.
  change (days_before_month 9999 12) with 334 in E. lia.
Qed.

Lemma is_recurring_date_match_ok tz nag dv :
  date_valid dv = true ->
  (year dv, month dv) <> (9999, 12) ->
  is_ok (ms_to_local tz (created_at_epoch_ms nag)) = true ->
  exists b, is_recurring_date_match tz nag dv = Ok b.
Proof.
  intros V Hne Hc. unfold is_recurring_date_match.
  destruct (negb _); [eauto |].
  apply date_valid_spec in V. destruct V as (Hy & Hm & Hd).
  rewrite (month_max_day_ok _ _ Hy Hm Hne). cbn [rbind].
  repeat match goal with
         | |- context [if String.eqb ?a ?b then _ else _] =>
           destruct (String.eqb a b)
         end; try (eexists; reflexivity).
  - unfold nth_weekday_day_of_month.
    rewrite (month_max_day_ok _ _ Hy Hm Hne). cbn [rbind].
    destruct (weekday_matches _ _ _ _); cbn [rbind]; [eauto |].
    destruct (5 <=? _); cbn [rbind]; [eauto |].
    destruct (_ <? _); cbn [rbind]; eauto.
  - destruct (ms_to_local tz (created_at_epoch_ms nag)); [| discriminate].
    cbn [rbind]. eauto.
Qed.

Lemma new_datetime_ok dv hour minute :
  date_valid dv = true ->
  0 <= hour <= 23 -> 0 <= minute <= 59 ->
  new_datetime (year dv) (month dv) (day dv) hour minute
  = Ok (mk_datetime dv hour minute).
Proof.
  intros V Hh Hm. unfold new_datetime.
  destruct dv as [y m d]. cbn [year month day]. rewrite V.
  destruct (Z.leb_spec 0 hour), (Z.leb_spec hour 23),
    (Z.leb_spec 0 minute), (Z.leb_spec minute 59); try lia.
  reflexivity.
Qed.

Lemma next_scan_is_ok tz nag hour minute reference_ms probe offsets :
  date_valid probe = true ->
  (forall k, k ∈ offsets -> 1 <= toordinal probe + k <= MAXORDINAL - 31) ->
  0 <= hour <= 23 -> 0 <= minute <= 59 ->
  is_ok (ms_to_local tz (created_at_epoch_ms nag)) = true ->
  is_ok (next_scan tz nag hour minute reference_ms probe offsets) = true.
Proof.
  intros V Hoff Hh Hm Hc.
  induction offsets as [| k rest IH]; cbn [next_scan]; [reflexivity |].
  assert (Hk : 1 <= toordinal probe + k <= MAXORDINAL - 31)
    by (apply Hoff; left).
  assert (IH' : is_ok (next_scan tz nag hour minute reference_ms probe rest)
                = true).
  { apply IH. intros k' Hk'. apply Hoff. now right. }
  unfold date_add_days, ordinal_ok.
  destruct (Z.leb_spec 1 (toordinal probe + k)); [| lia].
  destruct (Z.leb_spec (toordinal probe + k) MAXORDINAL); [| lia].
  cbn [andb rbind].
  destruct (scan_date_ok _ Hk) as [Vc Hne].
  destruct (is_recurring_date_match_ok tz nag _ Vc Hne Hc) as [b ->].
  cbn [rbind]. destruct b; cbn [negb]; [| exact IH'].
  rewrite (new_datetime_ok _ _ _ Vc Hh Hm). cbn [rbind].
  destruct (_ <? _); [exact IH' |].
  destruct (is_monthly_due_skipped _ _); [exact IH' | reflexivity].
Qed.

Lemma previous_scan_is_ok tz nag hour minute reference_ms probe offsets :
  date_valid probe = true ->
  (forall k, k ∈ offsets -> 1 <= toordinal probe - k <= MAXORDINAL - 31) ->
  0 <= hour <= 23 -> 0 <= minute <= 59 ->
  is_ok (ms_to_local tz (created_at_epoch_ms nag)) = true ->
  is_ok (previous_scan tz nag hour minute reference_ms probe offsets) = true.
Proof.
  intros V Hoff Hh Hm Hc.
  induction offsets as [| k rest IH]; cbn [previous_scan]; [reflexivity |].
  assert (Hk : 1 <= toordinal probe - k <= MAXORDINAL - 31)
    by (apply Hoff; left).
  assert (IH' : is_ok (previous_scan tz nag hour minute reference_ms probe rest)
                = true).
  { apply IH. intros k' Hk'. apply Hoff. now right. }
  unfold date_add_days, ordinal_ok.
  replace (toordinal probe + - k) with (toordinal probe - k) by lia.
  destruct (Z.leb_spec 1 (toordinal probe - k)); [| lia].
  destruct (Z.leb_spec (toordinal probe - k) MAXORDINAL); [| lia].
  cbn [andb rbind].
  destruct (scan_date_ok _ Hk) as [Vc Hne].
  destruct (is_recurring_date_match_ok tz nag _ Vc Hne Hc) as [b ->].
  cbn [rbind]. destruct b; cbn [negb]; [| exact IH'].
  rewrite (new_datetime_ok _ _ _ Vc Hh Hm). cbn [rbind].
  destruct (_ <? _); [exact IH' | reflexivity].
Qed.

Lemma scan_in_range_spec tz ms :
  scan_in_range tz ms = true ->
  ms_to_local tz ms = Ok (ord2ymd (local_ordinal tz ms))
  /\ date_valid (ord2ymd (local_ordinal tz ms)) = true
  /\ toordinal (ord2ymd (local_ordinal tz ms)) = local_ordinal tz ms
  /\ 366 * 6 + 1 <= local_ordinal tz ms <= LAST_SCAN_START.
Proof.
  unfold scan_in_range. rewrite !andb_true_iff, !Z.leb_le.
  intros [[Hu Hlo] Hhi].
  assert (Hr : 1 <= local_ordinal tz ms <= MAXORDINAL)
    by (unfold LAST_SCAN_START, MAXORDINAL in *; lia).
  destruct (ord2ymd_spec _ Hr) as [V E].
  repeat split; try assumption; try lia.
  unfold ms_to_local. rewrite Hu. cbn [negb].
  unfold ordinal_ok.
  destruct (Z.leb_spec 1 (local_ordinal tz ms)); [| lia].
  destruct (Z.leb_spec (local_ordinal tz ms) MAXORDINAL); [| lia].
  reflexivity.
Qed.

Lemma time_of_day_ok_spec nag hour minute :
  time_of_day_ok nag = true ->
  monthly_hour nag = Some hour -> monthly_minute nag = Some minute ->
  0 <= hour <= 23 /\ 0 <= minute <= 59.
Proof.
  unfold time_of_day_ok. intros H Eh Em. rewrite Eh, Em in H.
  rewrite !andb_true_iff, !Z.leb_le in H. lia.
Qed.

Lemma resolve_next_is_ok tz nag reference_ms :
  resolvable tz nag reference_ms = true ->
  is_ok (resolve_next_recurring_base_due_ms tz nag reference_ms) = true.
Proof.
  unfold resolvable. rewrite !andb_true_iff. intros [[Ht Hs] Hc].
  unfold resolve_next_recurring_base_due_ms.
  destruct (negb _); [reflexivity |].
  destruct (monthly_hour nag) as [hour |] eqn:Eh; [| reflexivity].
  destruct (monthly_minute nag) as [minute |] eqn:Em; [| reflexivity].
  destruct (time_of_day_ok_spec nag hour minute Ht Eh Em) as [Hh Hm].
  destruct (scan_in_range_spec tz reference_ms Hs) as (-> & V & E & Hr).
  cbn [rbind]. apply next_scan_is_ok; try assumption.
  intros k Hk. apply elem_of_seqZ in Hk. rewrite E.
  unfold LAST_SCAN_START in Hr. lia.
Qed.

Lemma resolve_previous_is_ok tz nag reference_ms :
  resolvable tz nag reference_ms = true ->
  is_ok (resolve_previous_recurring_base_due_ms tz nag reference_ms) = true.
Proof.
  unfold resolvable. rewrite !andb_true_iff. intros [[Ht Hs] Hc].
  unfold resolve_previous_recurring_base_due_ms.
  destruct (negb _); [reflexivity |].
  destruct (monthly_hour nag) as [hour |] eqn:Eh; [| reflexivity].
  destruct (monthly_minute nag) as [minute |] eqn:Em; [| reflexivity].
  destruct (time_of_day_ok_spec nag hour minute Ht Eh Em) as [Hh Hm].
  destruct (scan_in_range_spec tz reference_ms Hs) as (-> & V & E & Hr).
  cbn [rbind]. apply previous_scan_is_ok; try assumption.
  intros k Hk. apply elem_of_seqZ in Hk. rewrite E.
  unfold LAST_SCAN_START, MAXORDINAL in *. lia.
Qed.

(** The backward scan does not read the skipped list. *)
Lemma resolve_previous_ignores_skipped tz nag skipped reference_ms :
  resolve_previous_recurring_base_due_ms tz (with_skipped nag skipped)
                                         reference_ms
  = resolve_previous_recurring_base_due_ms tz nag reference_ms.
Proof.
  unfold resolve_previous_recurring_base_due_ms. cbn [with_skipped mode
    monthly_hour monthly_minute].
  destruct (negb _); [reflexivity |].
  destruct (monthly_hour nag) as [hour |]; [| reflexivity].
  destruct (monthly_minute nag) as [minute |]; [| reflexivity].
  destruct (ms_to_local tz reference_ms) as [probe |]; cbn [rbind];
    [| reflexivity].
  generalize SCAN_OFFSETS as offsets.
  induction offsets as [| k rest IH]; [reflexivity |].
  cbn [previous_scan]. rewrite IH. reflexivity.
Qed.

(** ** C1: bounds of the forward and backward resolution *)

(** C1. For every reminder and reference instant, [resolve_next] returns no
    result or a base due instant at or after the reference, [resolve_previous]
    returns no result or a base due instant at or before the reference, and
    the backward scan does not depend on the skipped-occurrence list.  Both
    functions return (do not raise) on every resolvable input: a time of day
    that is a valid hour and minute, and instants for which the scanned days
    are inside the calendar. *)
Theorem C1_resolve_next_previous_bounds (tz : Z) (nag : Nag) (reference_ms : Z) :
  match resolve_next_recurring_base_due_ms tz nag reference_ms with
  | Ok (Some due) => reference_ms <= due
  | Ok None => True
  | Raise _ => resolvable tz nag reference_ms = false
  end
  /\ match resolve_previous_recurring_base_due_ms tz nag reference_ms with
     | Ok (Some due) => due <= reference_ms
     | Ok None => True
     | Raise _ => resolvable tz nag reference_ms = false
     end
  /\ forall skipped : list Z,
       resolve_previous_recurring_base_due_ms tz (with_skipped nag skipped)
                                              reference_ms
       = resolve_previous_recurring_base_due_ms tz nag reference_ms.
Proof.
  split; [| split].
  - pose proof (resolve_next_ge tz nag reference_ms) as Hge.
    pose proof (resolve_next_is_ok tz nag reference_ms) as Hok.
    destruct (resolve_next_recurring_base_due_ms tz nag reference_ms)
      as [[due |] | e]; [now apply Hge | exact I |].
    destruct (resolvable tz nag reference_ms); [| reflexivity].
    now specialize (Hok eq_refl).
  - pose proof (resolve_previous_le tz nag reference_ms) as Hle.
    pose proof (resolve_previous_is_ok tz nag reference_ms) as Hok.
    destruct (resolve_previous_recurring_base_due_ms tz nag reference_ms)
      as [[due |] | e]; [now apply Hle | exact I |].
    destruct (resolvable tz nag reference_ms); [| reflexivity].
    now specialize (Hok eq_refl).
  - intros skipped. apply resolve_previous_ignores_skipped.
Qed.

(** The 15th of the month at 09:00, seen from 14 November 2023: the next
    occurrence is the following morning, and the previous one is found even
    though it is in the skipped list. *)
Example resolve_next_example :
  resolvable 0 monthly_15th T_2023_11_14 = true
  /\ resolve_next_recurring_base_due_ms 0 monthly_15th T_2023_11_14
     = Ok (Some T_2023_11_15_0900).
Proof. split; vm_compute; reflexivity. Qed.

Example resolve_previous_returns_skipped :
  resolve_previous_recurring_base_due_ms 0
    (with_skipped monthly_15th [T_2023_10_15_0900]) T_2023_11_14
  = Ok (Some T_2023_10_15_0900)
  /\ resolve_next_recurring_base_due_ms 0
       (with_skipped monthly_15th [T_2023_11_15_0900]) T_2023_11_14
     = Ok (Some 1702630800000).
Proof. split; vm_compute; reflexivity. Qed.

(** An hour outside [0 .. 23] makes the datetime constructor raise. *)
Example resolve_next_invalid_hour :
  resolve_next_recurring_base_due_ms 0
    (mk_Nag "w" "t" "Work" None 7 NAG_MODE_MONTHLY 60 None true 50 None
       (Some 15) (Some 25) (Some 0) 0 [] None None None PATTERN_DAY_OF_MONTH
       None None None None None 0 0 0) T_2023_11_14
  = Raise ValueError.
Proof. vm_compute. reflexivity. Qed.

(** ** C2: the shape of a due window *)

Lemma or_int_cases x default :
  or_int x default = default \/ x = Some (or_int x default).
Proof.
  destruct x as [v |]; cbn [or_int]; [| now left].
  destruct (v =? 0); [now left | now right].
Qed.

Lemma current_display_window_ordered tz nag reference_ms w :
  resolve_current_display_monthly_due_window tz nag reference_ms = Ok (Some w) ->
  reference_ms <= source_due_ms w
  /\ due_ms w = source_due_ms w + Z.max 0 (pushed_offset_ms nag)
  /\ (created_at_epoch_ms nag <= source_due_ms w ->
      start_ms w <= source_due_ms w).
Proof.
  unfold resolve_current_display_monthly_due_window.
  destruct (resolve_next_recurring_base_due_ms tz nag reference_ms)
    as [[base_due |] |] eqn:Enext; cbn [rbind]; try discriminate.
  destruct (resolve_previous_recurring_base_due_ms tz nag (base_due - 1))
    as [previous |] eqn:Eprev; cbn [rbind]; try discriminate.
  intros [= <-]. cbn [start_ms due_ms source_due_ms].
  apply resolve_next_ge in Enext.
  repeat split; [assumption |].
  intros Hc.
  destruct (or_int_cases previous (created_at_epoch_ms nag)) as [-> | E].
  - lia.
  - rewrite E in Eprev. apply resolve_previous_le in Eprev. lia.
Qed.

(** C2, as the code has it.  A due window produced by [resolve_due_window]
    or by [resolve_current_display_monthly_due_window] has
    [source_due <= due], with [due] the source due plus the non-negative push
    offset; and [start <= source_due] holds exactly for a one-time reminder
    and for a monthly reminder whose creation instant is not after the
    source due. *)
Theorem C2_due_window_ordered (tz : Z) (nag : Nag) (now_ms_value : Z)
    (w : DueWindow) :
  resolve_due_window tz nag now_ms_value = Ok (Some w)
  \/ resolve_current_display_monthly_due_window tz nag now_ms_value
     = Ok (Some w) ->
  source_due_ms w <= due_ms w
  /\ due_ms w = source_due_ms w + Z.max 0 (pushed_offset_ms nag)
  /\ (start_ms w <= source_due_ms w
      <-> mode nag = NAG_MODE_ONE_TIME
          \/ created_at_epoch_ms nag <= source_due_ms w).
Proof.
  intros Hw.
  assert (Hcases :
    (mode nag = NAG_MODE_ONE_TIME
     /\ exists base_due,
          w = {| start_ms := Z.min (created_at_epoch_ms nag) base_due;
                 due_ms := apply_push_offset nag base_due;
                 source_due_ms := base_due |})
    \/ (mode nag <> NAG_MODE_ONE_TIME
        /\ resolve_current_display_monthly_due_window tz nag now_ms_value
           = Ok (Some w))).
  { destruct (String.eqb_spec (mode nag) NAG_MODE_ONE_TIME) as [E | E].
    - left. split; [exact E |].
      destruct Hw as [Hw | Hw].
      + unfold resolve_due_window in Hw. rewrite E in Hw.
        change ((NAG_MODE_ONE_TIME =? NAG_MODE_ONE_TIME)%string) with true
          in Hw. cbv iota in Hw.
        destruct (one_time_epoch_ms nag) as [base_due |]; [| discriminate].
        injection Hw as <-. now exists base_due.
      + exfalso. unfold resolve_current_display_monthly_due_window,
          resolve_next_recurring_base_due_ms in Hw.
        rewrite E in Hw. cbn in Hw. discriminate.
    - right. split; [exact E |].
      destruct Hw as [Hw | Hw]; [| exact Hw].
      unfold resolve_due_window in Hw.
      apply String.eqb_neq in E. now rewrite E in Hw. }
  destruct Hcases as [[Hone [base_due ->]] | [Hmode Hm]].
  - cbn [start_ms due_ms source_due_ms]. unfold apply_push_offset.
    split; [lia |]. split; [reflexivity |]. split; [now left | lia].
  - destruct (current_display_window_ordered _ _ _ _ Hm) as (_ & Hdue & Hstart).
    split; [lia |]. split; [exact Hdue |]. split.
    + intros Hs. right.
      unfold resolve_current_display_monthly_due_window in Hm.
      destruct (resolve_next_recurring_base_due_ms tz nag now_ms_value)
        as [[base_due |] |]; cbn [rbind] in Hm; try discriminate.
      destruct (resolve_previous_recurring_base_due_ms tz nag (base_due - 1))
        as [previous |]; cbn [rbind] in Hm; try discriminate.
      injection Hm as <-. cbn [start_ms source_due_ms] in *. lia.
    + intros [Hone | Hc]; [contradiction | now apply Hstart].
Qed.

Lemma C2_due_window_ordered_witness :
  let w := {| start_ms := T_2023_10_15_0900;
              due_ms := T_2023_11_15_0900;
              source_due_ms := T_2023_11_15_0900 |} in
  source_due_ms w <= due_ms w
  /\ due_ms w = source_due_ms w + Z.max 0 (pushed_offset_ms monthly_15th)
  /\ (start_ms w <= source_due_ms w
      <-> mode monthly_15th = NAG_MODE_ONE_TIME
          \/ created_at_epoch_ms monthly_15th <= source_due_ms w).
Proof.
  intros w.
  apply (C2_due_window_ordered 0 monthly_15th T_2023_11_14 w).
  left. vm_compute. reflexivity.
Defined.

(** A monthly reminder whose creation instant lies after its next
    occurrence gets a window that starts after its source due. *)
Lemma C2_counterexample :
  exists w,
    resolve_due_window 0 (with_created_at monthly_15th 1800000000000)
                       T_2023_11_14 = Ok (Some w)
    /\ ~ (start_ms w <= source_due_ms w <= due_ms w).
Proof.
  exists {| start_ms := 1800000000000;
            due_ms := T_2023_11_15_0900;
            source_due_ms := T_2023_11_15_0900 |}.
  split; [vm_compute; reflexivity |].
  cbn [start_ms source_due_ms due_ms]. unfold T_2023_11_15_0900. lia.
Qed.

(** A reminder created at or before the reference instant always has an
    ordered window. *)
Lemma due_window_ordered_when_created_before tz nag now_ms_value w :
  resolve_due_window tz nag now_ms_value = Ok (Some w) ->
  created_at_epoch_ms nag <= now_ms_value ->
  start_ms w <= source_due_ms w <= due_ms w.
Proof.
  intros Hw Hc. unfold resolve_due_window in Hw.
  destruct (String.eqb_spec (mode nag) NAG_MODE_ONE_TIME) as [E | E].
  - destruct (one_time_epoch_ms nag) as [base_due |]; [| discriminate].
    injection Hw as <-. cbn [start_ms due_ms source_due_ms].
    unfold apply_push_offset. lia.
  - destruct (current_display_window_ordered _ _ _ _ Hw) as (Hge & Hdue & Hs).
    specialize (Hs ltac:(lia)). lia.
Qed.

(** ** C3: the percent label *)

(** C3 at a failing input: one day of lateness, two days after the due
    instant.  The overdue branch has no upper clamp and the label reads
    200 percent. *)
Theorem C3_overdue_percent_exceeds_100 :
  progress_percent 172800000 (-86400000) 0 1 = Ok 200
  /\ progress_percent_label 172800000 (-86400000) 0 1 = Ok "200%".
Proof. split; vm_compute; reflexivity. Qed.

(** Before the due instant the elapsed part is clamped to the window. *)
Example percent_before_due :
  progress_percent_label 43200000 0 86400000 7 = Ok "50%"
  /\ progress_percent_label (-5) 0 86400000 7 = Ok "0%"
  /\ progress_percent_label 86400000 0 86400000 7 = Ok "100%".
Proof. repeat split; vm_compute; reflexivity. Qed.

(** One hour into a seven-day lateness window. *)
Example percent_one_hour_overdue :
  progress_percent_label 90000000 0 86400000 7 = Ok "1%".
Proof. vm_compute. reflexivity. Qed.

(** ** Stable sorting *)

Section PySorted.
Context {A : Type} (leb : A -> A -> bool).
Let R (x y : A) : Prop := leb x y = true.

Lemma insert_by_perm x l : insert_by leb x l ≡ₚ x :: l.
Proof.
  induction l as [| y l IH]; cbn [insert_by]; [reflexivity |].
  destruct (leb x y); [reflexivity |].
  rewrite IH. apply Permutation_swap.
Qed.

Lemma py_sorted_perm l : py_sorted leb l ≡ₚ l.
Proof.
  induction l as [| x l IH]; [reflexivity |].
  cbn [py_sorted foldr]. rewrite insert_by_perm.
  now apply Permutation_cons.
Qed.

Hypothesis leb_total : forall x y, leb x y = true \/ leb y x = true.

Lemma insert_by_Sorted x l : Sorted R l -> Sorted R (insert_by leb x l).
Proof.
  induction 1 as [| y l Hl IH Hhd]; cbn [insert_by].
  - repeat constructor.
  - destruct (leb x y) eqn:E.
    + constructor; [now constructor |]. now constructor.
    + constructor; [exact IH |].
      assert (Ryx : R y x) by (destruct (leb_total x y); congruence).
      destruct Hhd as [| z l' Hz]; cbn [insert_by].
      * now constructor.
      * destruct (leb x z); now constructor.
Qed.

Lemma py_sorted_Sorted l : Sorted R (py_sorted leb l).
Proof.
  induction l as [| x l IH]; [constructor |].
  cbn [py_sorted foldr]. now apply insert_by_Sorted.
Qed.
End PySorted.

(** ** C4: the skipped-occurrence list *)

Lemma Zleb_total x y : (x <=? y) = true \/ (y <=? x) = true.
Proof. rewrite !Z.leb_le. lia. Qed.

(** [sorted(set(xs))] is strictly ascending and holds the members of [xs]. *)
Lemma sorted_set_spec xs :
  StronglySorted Z.lt (sorted_set xs)
  /\ forall x, x ∈ sorted_set xs <-> x ∈ xs.
Proof.
  unfold sorted_set.
  set (es := elements (list_to_set xs : gset Z)).
  assert (Hperm : py_sorted Z.leb es ≡ₚ es) by apply py_sorted_perm.
  assert (Hnd : NoDup (py_sorted Z.leb es)).
  { rewrite Hperm. apply NoDup_elements. }
  pose proof (py_sorted_Sorted Z.leb Zleb_total es) as Hs.
  split.
  - assert (Hss : StronglySorted (fun x y => (x <=? y) = true)
                    (py_sorted Z.leb es)).
    { apply Sorted_StronglySorted; [| exact Hs].
      intros x y z. rewrite !Z.leb_le. lia. }
    clear Hs Hperm. induction Hss as [| x l Hl IH Hx]; [constructor |].
    apply NoDup_cons in Hnd. destruct Hnd as [Hnin Hnd].
    constructor; [now apply IH |].
    rewrite Forall_forall in Hx |- *. intros y Hy.
    specialize (Hx y Hy). apply Z.leb_le in Hx.
    assert (x <> y) by (intros ->; contradiction). lia.
  - intros x. rewrite Hperm. subst es.
    rewrite elem_of_elements, elem_of_list_to_set. reflexivity.
Qed.

Lemma StronglySorted_drop {A} (R : relation A) n l :
  StronglySorted R l -> StronglySorted R (drop n l).
Proof.
  intros H. rewrite <- (take_drop n l) in H.
  now apply StronglySorted_app_1_r in H.
Qed.

(** The complete-occurrence update keeps the list strictly ascending and
    caps it: it is the last 200 entries of the sorted set. *)
Lemma complete_occurrence_skipped_capped nag source_due :
  let l := skipped_monthly_due_epoch_ms
             (complete_selected_occurrence_updated nag source_due) in
  StronglySorted Z.lt l /\ (length l <= 200)%nat
  /\ (forall x, x ∈ l ->
        x ∈ skipped_monthly_due_epoch_ms nag \/ x = source_due).
Proof.
  cbn [complete_selected_occurrence_updated with_skipped
       skipped_monthly_due_epoch_ms].
  destruct (sorted_set_spec (skipped_monthly_due_epoch_ms nag ++ [source_due]))
    as [Hs Hin].
  unfold last_n. repeat split.
  - now apply StronglySorted_drop.
  - rewrite length_drop. lia.
  - intros x Hx. apply subseteq_drop, Hin, elem_of_app in Hx.
    destruct Hx as [Hi | Hi]; [now left |].
    right. now apply list_elem_of_singleton in Hi.
Qed.

(** Validated construction sorts and deduplicates the skipped list. *)
Lemma from_payload_skipped_sorted ops now payload nag :
  from_payload ops now payload = Some nag ->
  StronglySorted Z.lt (skipped_monthly_due_epoch_ms nag).
Proof.
  unfold from_payload. intros H.
  destruct (_ || _); [discriminate |].
  repeat match type of H with
         | mbind _ _ = Some _ =>
           apply bind_Some in H; destruct H as (? & _ & H)
         end.
  injection H as <-. cbn [skipped_monthly_due_epoch_ms].
  apply sorted_set_spec.
Qed.

(** C4 at a failing input: validated construction from a payload that lists
    201 distinct skipped instants keeps all 201; only the
    complete-occurrence update cuts the list to its last 200 entries. *)
Theorem C4_from_payload_keeps_201_skipped :
  exists nag,
    from_payload example_ops 0 payload_201 = Some nag
    /\ length (skipped_monthly_due_epoch_ms nag) = 201%nat
    /\ length (skipped_monthly_due_epoch_ms
                 (complete_selected_occurrence_updated nag 500)) = 200%nat.
Proof.
  eexists. split; [vm_compute; reflexivity |].
  split; vm_compute; reflexivity.
Qed.

(** ** C5: replaying the event log *)

Lemma string_leb_trans (s1 s2 s3 : string) :
  (s1 <=? s2)%string = true -> (s2 <=? s3)%string = true ->
  (s1 <=? s3)%string = true.
Proof.
  unfold String.leb. revert s2 s3.
  induction s1 as [| a s1 IH]; intros [| b s2] [| c s3]; cbn [String.compare];
    try reflexivity; try discriminate.
  unfold Ascii.compare.
  set (na := Ascii.N_of_ascii a). set (nb := Ascii.N_of_ascii b).
  set (nc := Ascii.N_of_ascii c).
  destruct (N.compare_spec na nb), (N.compare_spec nb nc),
    (N.compare_spec na nc);
    try discriminate; try reflexivity; try lia.
  apply IH.
Qed.

Ltac from_payload_inv H :=
  unfold from_payload in H;
  match type of H with
  | (if ?c then None else _) = Some _ =>
    let E := fresh "Enames" in
    destruct c eqn:E; [discriminate H |]
  end;
  repeat match type of H with
         | mbind _ _ = Some _ =>
           apply bind_Some in H; destruct H as (? & ? & H)
         end;
  injection H as <-.

Lemma from_payload_work_name_eq ops now payload nag :
  from_payload ops now payload = Some nag ->
  work_name nag
  = str_strip ops (py_str ops (dict_get payload "workName" (VStr EmptyString))).
Proof. intros H. from_payload_inv H. reflexivity. Qed.

Lemma replay_row_effect ops now st row :
  replay_row ops now st row = apply_effect (effect_of_row ops now row) st.
Proof.
  unfold replay_row, effect_of_row.
  destruct (_parse_payload ops (dict_get row "payload" VNone))
    as [[| f fs] |]; try reflexivity.
  destruct (from_payload ops now (f :: fs)) as [nag |]; [| reflexivity].
  cbv zeta. now destruct (String.eqb _ "delete").
Qed.

(** The name that an effect touches. *)
Lemma effect_of_row_name ops now row name :
  (effect_of_row ops now row = DeleteName name
   \/ exists nag, effect_of_row ops now row = StoreNag name nag) ->
  row_name ops row = Some name.
Proof.
  unfold effect_of_row, row_name.
  destruct (_parse_payload ops (dict_get row "payload" VNone))
    as [[| f fs] |]; try (intros [H | [nag H]]; discriminate H).
  destruct (from_payload ops now (f :: fs)) as [nag |] eqn:Enag;
    [| intros [H | [nag H]]; discriminate H].
  apply from_payload_work_name_eq in Enag. cbv zeta.
  set (nag' := if truthy _ then with_icon_png_base64 nag _ else nag).
  assert (Ew : work_name nag' = work_name nag).
  { unfold nag'. now destruct (truthy _). }
  clearbody nag'. rewrite <- Enag, <- Ew.
  destruct (String.eqb _ "delete"); intros [H | [other H]];
    try discriminate H; now injection H as ->.
Qed.

Lemma effect_of_same_event ops now r1 r2 :
  same_event r1 r2 -> effect_of_row ops now r1 = effect_of_row ops now r2.
Proof. intros [Ep Ei]. unfold effect_of_row. now rewrite Ep, Ei. Qed.

Lemma dict_get_present d k v default :
  dict_find id d k = Some v -> dict_get d k default = v.
Proof. intros H. unfold dict_get. now rewrite H. Qed.

Lemma from_payload_ignores_clock ops now now' payload :
  is_Some (dict_find id payload "createdAtEpochMillis") ->
  from_payload ops now payload = from_payload ops now' payload.
Proof.
  intros [v Hv]. unfold from_payload.
  now rewrite !(dict_get_present payload "createdAtEpochMillis" v _ Hv).
Qed.

Lemma effect_ignores_clock ops now now' row :
  carries_creation_time ops row ->
  effect_of_row ops now row = effect_of_row ops now' row.
Proof.
  unfold carries_creation_time, effect_of_row.
  destruct (_parse_payload ops (dict_get row "payload" VNone))
    as [[| f fs] |]; try reflexivity.
  intros [H | H]; [discriminate H |].
  now rewrite (from_payload_ignores_clock ops now now' _ H).
Qed.

Lemma apply_effect_commute e1 e2 st :
  (forall name nag1 nag2,
     (e1 = DeleteName name \/ e1 = StoreNag name nag1) ->
     (e2 = DeleteName name \/ e2 = StoreNag name nag2) -> False) ->
  apply_effect e2 (apply_effect e1 st) = apply_effect e1 (apply_effect e2 st).
Proof.
  intros Hne.
  destruct e1 as [| | n1 | n1 g1], e2 as [| | n2 | n2 g2];
    cbn [apply_effect nags_by_work last_parseable_payload_rows
         last_valid_nag_rows]; try reflexivity.
  - f_equal. apply delete_delete.
  - assert (n2 <> n1).
    { intros ->. apply (Hne n1 g2 g2); [now left | now right]. }
    f_equal. now apply insert_delete_ne.
  - assert (n2 <> n1).
    { intros ->. apply (Hne n1 g1 g1); [now right | now left]. }
    f_equal. now apply delete_insert_ne.
  - assert (n2 <> n1).
    { intros ->. apply (Hne n1 g1 g2); now right. }
    f_equal. now apply insert_insert_ne.
Qed.

(** Two rows whose order does not matter can be exchanged in the loop,
    whatever the clock reads at the two iterations. *)
Lemma replay_row_swap ops r1 r2 now1 now2 st :
  order_free ops r1 r2 ->
  replay_row ops now2 (replay_row ops now1 st r1) r2
  = replay_row ops now2 (replay_row ops now1 st r2) r1.
Proof.
  intros [Hsame | (Hc1 & Hc2 & Hname)]; rewrite !replay_row_effect.
  - now rewrite (effect_of_same_event ops now1 r1 r2 Hsame),
      (effect_of_same_event ops now2 r1 r2 Hsame).
  - rewrite (effect_ignores_clock ops now2 now1 r2 Hc2),
      (effect_ignores_clock ops now2 now1 r1 Hc1).
    apply apply_effect_commute.
    intros name nag1 nag2 H1 H2.
    apply (Hname name).
    + apply (effect_of_row_name ops now1). destruct H1; eauto.
    + apply (effect_of_row_name ops now1). destruct H2; eauto.
Qed.

Lemma replay_move_front ops clock x (before after : list pydict) :
  (forall y, y ∈ before -> order_free ops y x) ->
  forall i st,
    replay ops clock i (before ++ x :: after) st
    = replay ops clock i (x :: before ++ after) st.
Proof.
  induction before as [| y before IH]; intros Hfree i st; [reflexivity |].
  cbn [app replay].
  rewrite IH by (intros z Hz; apply Hfree; now right).
  cbn [replay]. f_equal.
  apply replay_row_swap, Hfree. left.
Qed.

Lemma StronglySorted_remove_middle {A} (R : relation A) (a : list A) x b :
  StronglySorted R (a ++ x :: b) -> StronglySorted R (a ++ b).
Proof.
  induction a as [| y a IH]; cbn [app]; intros H.
  - now apply StronglySorted_inv in H.
  - apply StronglySorted_inv in H. destruct H as [Hs Hall].
    constructor; [now apply IH |].
    rewrite Forall_app in Hall |- *. destruct Hall as [Ha Hb].
    split; [exact Ha |]. now apply Forall_inv_tail in Hb.
Qed.

(** Two ascending arrangements of the same rows replay to the same state
    when rows with equal keys can be exchanged. *)
Lemma replay_sorted_arrangements ops clock (sorted1 : list pydict) :
  forall sorted2 i st,
    sorted1 ≡ₚ sorted2 ->
    StronglySorted
      (fun a b => (created_at_key ops a <=? created_at_key ops b)%string = true)
      sorted1 ->
    StronglySorted
      (fun a b => (created_at_key ops a <=? created_at_key ops b)%string = true)
      sorted2 ->
    (forall r1 r2, r1 ∈ sorted1 -> r2 ∈ sorted1 ->
       created_at_key ops r1 = created_at_key ops r2 -> order_free ops r1 r2) ->
    replay ops clock i sorted1 st = replay ops clock i sorted2 st.
Proof.
  induction sorted1 as [| x rest IH]; intros sorted2 i st Hp Hs1 Hs2 Hfree.
  { apply Permutation_nil_l in Hp. now subst. }
  assert (Hx : x ∈ sorted2) by (rewrite <- Hp; left).
  apply list_elem_of_split in Hx. destruct Hx as (before & after & ->).
  apply StronglySorted_inv in Hs1. destruct Hs1 as [Hs1 Hle1].
  rewrite replay_move_front.
  - cbn [replay]. apply IH.
    + apply (Permutation_cons_inv (a := x)).
      rewrite Hp. symmetry. apply Permutation_middle.
    + exact Hs1.
    + now apply StronglySorted_remove_middle in Hs2.
    + intros r1 r2 H1 H2. apply Hfree; now right.
  - intros y Hy.
    assert (Hy1 : y ∈ x :: rest).
    { rewrite Hp. apply elem_of_app. now left. }
    apply Hfree; [exact Hy1 | left |].
    apply String.leb_antisym.
    + clear -Hs2 Hy. induction before as [| z before IHb]; [inversion Hy |].
      cbn [app] in Hs2. apply StronglySorted_inv in Hs2.
      destruct Hs2 as [Hs2 Hall].
      apply elem_of_cons in Hy as [-> | Hy]; [| now apply IHb].
      rewrite Forall_forall in Hall. apply Hall.
      apply elem_of_app. right. left.
    + apply elem_of_cons in Hy1 as [-> | Hy1].
      * destruct (String.leb_total (created_at_key ops x)
                    (created_at_key ops x)); assumption.
      * rewrite Forall_forall in Hle1. now apply Hle1.
Qed.

(** C5, as the code has it.  Any two input orders of the same event rows
    produce the same result (reminder map and counters), given the same
    clock readings, provided that any two rows with equal [created_at] keys
    are either the same event or rows that carry their creation time and do
    not carry the same work name. *)
Theorem C5_replay_order_independent (ops : PyOps) (clock : nat -> Z)
    (events1 events2 : list pydict) :
  events1 ≡ₚ events2 ->
  (forall r1 r2, r1 ∈ events1 -> r2 ∈ events1 ->
     created_at_key ops r1 = created_at_key ops r2 -> order_free ops r1 r2) ->
  _rebuild_current_nags_from_events ops clock events1
  = _rebuild_current_nags_from_events ops clock events2.
Proof.
  intros Hp Hfree. unfold _rebuild_current_nags_from_events. cbv zeta.
  set (leb := fun a b : pydict =>
                (created_at_key ops a <=? created_at_key ops b)%string).
  assert (Htot : forall x y, leb x y = true \/ leb y x = true)
    by (intros; apply String.leb_total).
  assert (Htrans : Transitive (fun x y => leb x y = true))
    by (intros x y z; apply string_leb_trans).
  apply replay_sorted_arrangements.
  - now rewrite !py_sorted_perm.
  - apply Sorted_StronglySorted; [exact Htrans |]. now apply py_sorted_Sorted.
  - apply Sorted_StronglySorted; [exact Htrans |]. now apply py_sorted_Sorted.
  - intros r1 r2 H1 H2. rewrite py_sorted_perm in H1, H2. now apply Hfree.
Qed.

Lemma C5_replay_order_independent_witness :
  _rebuild_current_nags_from_events example_ops clock_zero
    [row_first; row_tied]
  = _rebuild_current_nags_from_events example_ops clock_zero
      [row_tied; row_first].
Proof.
  apply C5_replay_order_independent.
  - apply Permutation_swap.
  - intros r1 r2 H1 H2 _.
    apply elem_of_cons in H1 as [-> | H1];
      [| apply list_elem_of_singleton in H1; subst r1];
      (apply elem_of_cons in H2 as [-> | H2];
       [| apply list_elem_of_singleton in H2; subst r2]);
      try (left; split; reflexivity);
      (right; split; [vm_compute; right; eauto |];
       split; [vm_compute; right; eauto |];
       vm_compute; congruence).
Defined.

(** Two rows with the same [created_at] and the same key: each input order
    is ascending, the stable sort keeps it, and the row processed last wins. *)
Lemma C5_counterexample :
  [row_first; row_second] ≡ₚ [row_second; row_first]
  /\ created_at_key example_ops row_first = created_at_key example_ops row_second
  /\ nags_by_work (_rebuild_current_nags_from_events example_ops clock_zero
                     [row_first; row_second])
     <> nags_by_work (_rebuild_current_nags_from_events example_ops clock_zero
                        [row_second; row_first]).
Proof.
  split; [apply Permutation_swap |]. split; [reflexivity |].
  intros H.
  apply (f_equal (fun m : gmap string Nag => nag_text <$> m !! "rent")) in H.
  vm_compute in H. discriminate H.
Qed.

(** Rows that do not carry their creation time take it from the clock
    reading of their iteration, which depends on their place among the rows
    with the same key. *)
Example tied_rows_without_creation_time :
  let row (name : string) : pydict :=
    [("created_at", VStr "2024-01-01T00:00:00+00:00");
     ("payload", VDict [("workName", VStr name); ("nagText", VStr name)])] in
  let clock (i : nat) : Z := Z.of_nat i in
  (created_at_epoch_ms <$>
     nags_by_work (_rebuild_current_nags_from_events example_ops clock
                     [row "rent"; row "dentist"]) !! "rent") = Some 0
  /\ (created_at_epoch_ms <$>
        nags_by_work (_rebuild_current_nags_from_events example_ops clock
                        [row "dentist"; row "rent"]) !! "rent") = Some 1.
Proof. split; vm_compute; reflexivity. Qed.

Example replay_last_write_wins :
  nag_text <$>
    nags_by_work (_rebuild_current_nags_from_events example_ops clock_zero
                    [row_later; row_second; row_first]) !! "rent"
  = Some "Pay rent in February".
Proof. vm_compute. reflexivity. Qed.

(** ** C6: the Smart sort *)

Lemma tuple_leb_total a b : tuple_leb a b = true \/ tuple_leb b a = true.
Proof.
  revert b. induction a as [| x a IH]; intros [| y b]; cbn [tuple_leb]; auto.
  destruct (Z.ltb_spec x y), (Z.ltb_spec y x); auto; lia.
Qed.

Lemma tuple_leb_trans a b c :
  tuple_leb a b = true -> tuple_leb b c = true -> tuple_leb a c = true.
Proof.
  revert b c.
  induction a as [| x a IH]; intros [| y b] [| z c]; cbn [tuple_leb];
    try reflexivity; try discriminate.
  destruct (Z.ltb_spec x y), (Z.ltb_spec y x), (Z.ltb_spec y z),
    (Z.ltb_spec z y), (Z.ltb_spec x z), (Z.ltb_spec z x);
    try reflexivity; try discriminate; try lia.
  apply IH.
Qed.


Lemma keyed_spec {A K} (f : A -> result K) (l : list A) decorated :
  keyed f l = Ok decorated ->
  snd <$> decorated = l /\ Forall (fun p => f (snd p) = Ok (fst p)) decorated.
Proof.
  revert decorated.
  induction l as [| x l IH]; cbn [keyed]; intros decorated.
  - intros [= <-]. split; [reflexivity | constructor].
  - destruct (f x) as [k |] eqn:Ek; cbn [rbind]; [| discriminate].
    destruct (keyed f l) as [rest |]; cbn [rbind]; [| discriminate].
    intros [= <-]. destruct (IH rest eq_refl) as [E F].
    split; [cbn; now rewrite E | now constructor].
Qed.

Lemma StronglySorted_fmap {A B} (R : relation A) (S : relation B)
    (g : A -> B) (l : list A) :
  (forall x y, x ∈ l -> y ∈ l -> R x y -> S (g x) (g y)) ->
  StronglySorted R l -> StronglySorted S (g <$> l).
Proof.
  intros Himp Hs. induction Hs as [| x l Hl IH Hx]; cbn; [constructor |].
  constructor.
  - apply IH. intros a b Ha Hb. apply Himp; now right.
  - rewrite Forall_fmap. rewrite Forall_forall in Hx |- *.
    intros y Hy. cbn. apply Himp; [left | now right | now apply Hx].
Qed.



(** Four one-time reminders seen at 14 November 2023: one without a due
    instant, one due in a year, one due at the reference instant and one
    due the day before.  The overdue one comes first, then the one due now. *)
Example smart_sort_example :
  (fun r => match r with
            | Ok sorted => Some (work_name <$> (entry_nag <$> sorted))
            | Raise _ => None
            end)
    (sort_entries 0
       [entry_of (one_time "undated" None 90);
        entry_of (one_time "next year" (Some (T_2023_11_14 + 365 * MS_PER_DAY)) 80);
        entry_of (one_time "due now" (Some T_2023_11_14) 10);
        entry_of (one_time "yesterday" (Some (T_2023_11_14 - MS_PER_DAY)) 10)]
       SORT_SMART T_2023_11_14)
  = Some ["yesterday"; "due now"; "next year"; "undated"].
Proof. vm_compute. reflexivity. Qed.


(** ** C7: the Nth weekday of the month *)

Section Occurrences.
Context (P : Z -> Prop) `{!forall d, Decision (P d)}.

Let upto (n : Z) : list Z := filter P (seqZ 1 n).

Lemma upto_split d n :
  0 <= d <= n -> upto n = upto d ++ filter P (seqZ (1 + d) (n - d)).
Proof.
  intros Hd. unfold upto.
  replace n with (d + (n - d)) at 1 by lia.
  rewrite seqZ_app by lia. now rewrite filter_app.
Qed.

Lemma upto_snoc d :
  1 <= d -> upto d = upto (d - 1) ++ (if decide (P d) then [d] else []).
Proof.
  intros Hd. rewrite (upto_split (d - 1) d) by lia. f_equal.
  replace (1 + (d - 1)) with d by lia.
  replace (d - (d - 1)) with 1 by lia.
  assert (E : seqZ d 1 = [d]) by (unfold seqZ; cbn; f_equal; lia).
  rewrite E, filter_cons, filter_nil. reflexivity.
Qed.

Lemma upto_elem n x : x ∈ upto n <-> P x /\ 1 <= x <= n.
Proof.
  unfold upto. rewrite list_elem_of_filter, elem_of_seqZ. intuition lia.
Qed.

Lemma upto_NoDup n : NoDup (upto n).
Proof. apply NoDup_filter, NoDup_seqZ. Qed.

Lemma upto_length_step d :
  1 <= d -> P d -> length (upto d) = S (length (upto (d - 1))).
Proof.
  intros Hd Hp. rewrite (upto_snoc d Hd), decide_True by assumption.
  rewrite length_app. cbn. lia.
Qed.

Lemma upto_lookup d n :
  1 <= d <= n -> P d -> upto n !! length (upto (d - 1)) = Some d.
Proof.
  intros Hd Hp. rewrite (upto_split d n) by lia.
  rewrite (upto_snoc d) by lia. rewrite decide_True by assumption.
  rewrite <- app_assoc. rewrite lookup_app_r by lia.
  now rewrite Nat.sub_diag.
Qed.

Lemma upto_lookup_iff n i d :
  upto n !! i = Some d <-> (P d /\ 1 <= d <= n) /\ length (upto d) = S i.
Proof.
  split.
  - intros Hi.
    assert (Hin : d ∈ upto n) by (eapply list_elem_of_lookup_2; eauto).
    apply upto_elem in Hin. destruct Hin as [Hp Hd]. split; [tauto |].
    pose proof (upto_lookup d n Hd Hp) as Hj.
    rewrite (upto_length_step d) by tauto.
    f_equal. eapply NoDup_lookup; eauto using upto_NoDup.
  - intros [[Hp Hd] Hl].
    rewrite (upto_length_step d) in Hl by tauto.
    injection Hl as <-. now apply upto_lookup.
Qed.

Lemma upto_last_iff n d :
  last (upto n) = Some d
  <-> (P d /\ 1 <= d <= n) /\ length (upto d) = length (upto n).
Proof.
  rewrite last_lookup. split.
  - intros Hi. pose proof Hi as Hi'.
    apply upto_lookup_iff in Hi. destruct Hi as [Hpd Hl].
    split; [exact Hpd |].
    apply lookup_lt_Some in Hi'. lia.
  - intros [Hpd Hl]. apply upto_lookup_iff. split; [exact Hpd |].
    rewrite Hl.
    assert (length (upto n) <> 0%nat); [| lia].
    rewrite <- Hl. rewrite (upto_length_step d) by tauto. lia.
Qed.
End Occurrences.

(** Every weekday occurs among the first seven days of a month. *)
Lemma weekday_in_first_week y m dow :
  1 <= dow <= 7 ->
  exists d, 1 <= d <= 7 /\ java_day_of_week (mk_date y m d) = dow.
Proof.
  intros Hdow. unfold java_day_of_week, weekday, toordinal, ymd2ord.
  cbn [year month day].
  set (c := days_before_year y + days_before_month y m).
  exists ((dow - 1 - c - 1) mod 7 + 1).
  split; Z.div_mod_to_equations; lia.
Qed.

Lemma nth_weekday_day_of_month_spec y m dow n :
  1 <= y <= 9999 -> 1 <= m <= 12 -> (y, m) <> (9999, 12) ->
  1 <= dow <= 7 -> 1 <= n ->
  exists t,
    nth_weekday_day_of_month y m dow n = Ok t
    /\ forall d, 1 <= d <= days_in_month y m ->
         (d = t <->
          if (5 <=? n) || (occurrences_in_month y m dow <? n)
          then is_last_occurrence y m dow d
          else is_nth_occurrence y m dow n d).
Proof.
  intros Hy Hm Hne Hdow Hn. unfold nth_weekday_day_of_month.
  rewrite (month_max_day_ok y m Hy Hm Hne). cbn [rbind].
  unfold is_last_occurrence, is_nth_occurrence, occurrences_in_month,
    occurrences_through, weekday_matches.
  set (P := fun d' : Z => java_day_of_week (mk_date y m d') = dow).
  set (dim := days_in_month y m).
  assert (Hdim : 28 <= dim <= 31) by (apply days_in_month_bounds; lia).
  destruct (weekday_in_first_week y m dow Hdow) as (d0 & Hd0 & Hp0).
  assert (Hin0 : d0 ∈ filter P (seqZ 1 dim)).
  { apply (upto_elem P). split; [exact Hp0 | lia]. }
  destruct (filter P (seqZ 1 dim)) as [| x0 rest] eqn:Ematches.
  { inversion Hin0. }
  rewrite <- Ematches. clear Hin0.
  assert (Hlast : exists t, last (filter P (seqZ 1 dim)) = Some t).
  { rewrite Ematches. destruct (last (x0 :: rest)) eqn:El; [eauto |].
    apply last_None in El. discriminate. }
  destruct Hlast as [tl Htl].
  assert (Hlast_iff : forall d, 1 <= d <= dim ->
            d = tl <->
            P d /\ Z.of_nat (length (filter P (seqZ 1 d)))
                   = Z.of_nat (length (filter P (seqZ 1 dim)))).
  { intros d Hd. split.
    - intros ->. apply (upto_last_iff P) in Htl. split; [tauto | lia].
    - intros [Hp Hl].
      assert (Hd' : last (filter P (seqZ 1 dim)) = Some d).
      { apply (upto_last_iff P). split; [tauto | lia]. }
      congruence. }
  destruct (Z.leb_spec 5 n) as [H5 | H5]; cbn [orb].
  - exists tl. rewrite Htl. split; [reflexivity |]. exact Hlast_iff.
  - replace (Z.max 0 (n - 1)) with (n - 1) by lia.
    destruct (Z.ltb_spec (n - 1) (Z.of_nat (length (filter P (seqZ 1 dim)))))
      as [Hlt | Hge].
    + destruct (Z.ltb_spec (Z.of_nat (length (filter P (seqZ 1 dim)))) n);
        [lia |].
      destruct (filter P (seqZ 1 dim) !! Z.to_nat (n - 1)) as [t |] eqn:Et.
      2:{ apply lookup_ge_None in Et. lia. }
      exists t. split; [reflexivity |].
      intros d Hd. split.
      * intros ->. apply (upto_lookup_iff P) in Et. split; [tauto | lia].
      * intros [Hp Hl].
        assert (Hd' : filter P (seqZ 1 dim) !! Z.to_nat (n - 1) = Some d).
        { apply (upto_lookup_iff P). split; [tauto | lia]. }
        congruence.
    + destruct (Z.ltb_spec (Z.of_nat (length (filter P (seqZ 1 dim)))) n);
        [| lia].
      exists tl. rewrite Htl. split; [reflexivity |]. exact Hlast_iff.
Qed.

Lemma java_day_of_week_range dv : 1 <= java_day_of_week dv <= 7.
Proof.
  unfold java_day_of_week, weekday. Z.div_mod_to_equations. lia.
Qed.

Lemma occurrences_in_month_pos y m dow :
  1 <= y <= 9999 -> 1 <= m <= 12 -> 1 <= dow <= 7 ->
  1 <= occurrences_in_month y m dow.
Proof.
  intros Hy Hm Hdow. unfold occurrences_in_month, occurrences_through.
  set (P := fun d' : Z => java_day_of_week (mk_date y m d') = dow).
  assert (Hdim : 28 <= days_in_month y m <= 31)
    by (apply days_in_month_bounds; lia).
  destruct (weekday_in_first_week y m dow Hdow) as (d0 & Hd0 & Hp0).
  assert (Hin : d0 ∈ filter P (seqZ 1 (days_in_month y m))).
  { apply (upto_elem P). split; [exact Hp0 | lia]. }
  destruct (filter P (seqZ 1 (days_in_month y m))); [inversion Hin |].
  cbn [length]. lia.
Qed.

(** Outside the domain of the data model [nth_weekday_day_of_month] falls
    back: an occurrence number below 1 counts as 1, and a weekday number
    that no day has gives day 1. *)
Lemma nth_weekday_day_of_month_total y m dow n :
  1 <= y <= 9999 -> 1 <= m <= 12 -> (y, m) <> (9999, 12) ->
  exists t,
    nth_weekday_day_of_month y m dow n = Ok t
    /\ forall d, 1 <= d <= days_in_month y m ->
         (d = t <->
          if (1 <=? dow) && (dow <=? 7) then
            if (5 <=? n) || (occurrences_in_month y m dow <? n)
            then is_last_occurrence y m dow d
            else is_nth_occurrence y m dow (Z.max 1 n) d
          else d = 1).
Proof.
  intros Hy Hm Hne.
  destruct (Z.leb_spec 1 dow) as [Hlo | Hlo];
    [destruct (Z.leb_spec dow 7) as [Hhi | Hhi] |]; cbn [andb].
  - destruct (Z.le_gt_cases 1 n) as [Hn | Hn].
    + replace (Z.max 1 n) with n by lia.
      now apply nth_weekday_day_of_month_spec.
    + destruct (nth_weekday_day_of_month_spec y m dow 1 Hy Hm Hne
                  ltac:(lia) ltac:(lia)) as (t & Et & Hspec).
      pose proof (occurrences_in_month_pos y m dow Hy Hm ltac:(lia)) as Hocc.
      exists t. split.
      * rewrite <- Et. unfold nth_weekday_day_of_month.
        destruct (month_max_day y m); cbn [rbind]; [| reflexivity].
        destruct (weekday_matches y m dow a); [reflexivity |].
        destruct (Z.leb_spec 5 n); [lia |].
        change (5 <=? 1) with false. cbv iota.
        now replace (Z.max 0 (n - 1)) with (Z.max 0 (1 - 1)) by lia.
      * intros d Hd. rewrite (Hspec d Hd).
        destruct (Z.leb_spec 5 n); [lia |].
        destruct (Z.ltb_spec (occurrences_in_month y m dow) n); [lia |].
        destruct (Z.ltb_spec (occurrences_in_month y m dow) 1); [lia |].
        cbn [orb]. change (5 <=? 1) with false. cbn [orb].
        now replace (Z.max 1 n) with 1 by lia.
  - exists 1. split; [| tauto].
    unfold nth_weekday_day_of_month.
    rewrite (month_max_day_ok y m Hy Hm Hne). cbn [rbind].
    unfold weekday_matches.
    replace (filter _ (seqZ 1 (days_in_month y m))) with (@nil Z);
      [reflexivity |].
    symmetry. induction (seqZ 1 (days_in_month y m)) as [| x l IH];
      [reflexivity |].
    rewrite filter_cons, decide_False; [exact IH |].
    pose proof (java_day_of_week_range (mk_date y m x)). lia.
  - exists 1. split; [| tauto].
    unfold nth_weekday_day_of_month.
    rewrite (month_max_day_ok y m Hy Hm Hne). cbn [rbind].
    unfold weekday_matches.
    replace (filter _ (seqZ 1 (days_in_month y m))) with (@nil Z);
      [reflexivity |].
    symmetry. induction (seqZ 1 (days_in_month y m)) as [| x l IH];
      [reflexivity |].
    rewrite filter_cons, decide_False; [exact IH |].
    pose proof (java_day_of_week_range (mk_date y m x)). lia.
Qed.

(** C7, as the code has it.  For a monthly reminder with the
    NTH_WEEKDAY_OF_MONTH pattern and a weekday in [1 .. 7] (Monday when the
    value is missing or 0), a date matches exactly when its day is the Nth
    occurrence of the weekday in its month, except that when N is 5 or
    more, or the month has fewer than N occurrences, it matches exactly when
    its day is the last occurrence.  N is the configured number, 1 when it
    is missing, 0 or negative.  For a weekday number outside [1 .. 7] the
    first day of every month matches. *)
Theorem C7_nth_weekday_match (tz : Z) (nag : Nag) (dv : date) :
  mode nag = NAG_MODE_MONTHLY ->
  recurring_pattern_type nag = PATTERN_NTH_WEEKDAY ->
  date_valid dv = true ->
  (year dv, month dv) <> (9999, 12) ->
  let dow := or_int (recurring_day_of_week nag) JAVA_MONDAY in
  let n := or_int (recurring_nth_week nag) 1 in
  exists matched,
    is_recurring_date_match tz nag dv = Ok matched
    /\ (matched = true <->
        if (1 <=? dow) && (dow <=? 7) then
          if (5 <=? n) || (occurrences_in_month (year dv) (month dv) dow <? n)
          then is_last_occurrence (year dv) (month dv) dow (day dv)
          else is_nth_occurrence (year dv) (month dv) dow (Z.max 1 n) (day dv)
        else day dv = 1).
Proof.
  intros Hmode Hpat V Hne dow n.
  apply date_valid_spec in V. destruct V as (Hy & Hm & Hd).
  destruct (nth_weekday_day_of_month_total (year dv) (month dv) dow n
              Hy Hm Hne) as (t & Et & Hspec).
  exists (day dv =? t). split.
  - unfold is_recurring_date_match. rewrite Hmode, Hpat. cbn [negb].
    rewrite (month_max_day_ok _ _ Hy Hm Hne). cbn [rbind].
    change ((NAG_MODE_MONTHLY =? NAG_MODE_MONTHLY)%string) with true.
    cbv iota. cbn [negb].
    change ((PATTERN_NTH_WEEKDAY =? EmptyString)%string) with false. cbv iota.
    change ((PATTERN_NTH_WEEKDAY =? PATTERN_DAY_OF_MONTH)%string) with false.
    change ((PATTERN_NTH_WEEKDAY =? PATTERN_DAY_OF_WEEK)%string) with false.
    change ((PATTERN_NTH_WEEKDAY =? PATTERN_NTH_WEEKDAY)%string) with true.
    cbv iota. fold dow. fold n. rewrite Et. reflexivity.
  - rewrite Z.eqb_eq. apply Hspec. exact Hd.
Qed.

Lemma C7_nth_weekday_match_witness :
  exists matched,
    is_recurring_date_match 0 fifth_monday (mk_date 2021 2 22) = Ok matched
    /\ (matched = true <->
        if (1 <=? 2) && (2 <=? 7) then
          if (5 <=? 5) || (occurrences_in_month 2021 2 2 <? 5)
          then is_last_occurrence 2021 2 2 22
          else is_nth_occurrence 2021 2 2 (Z.max 1 5) 22
        else 22 = 1).
Proof.
  apply (C7_nth_weekday_match 0 fifth_monday (mk_date 2021 2 22)).
  - reflexivity.
  - reflexivity.
  - reflexivity.
  - cbn. congruence.
Defined.

(** The claim fails outside the domain of the data model, where the code
    falls back: with the weekday number 9, which no day has, the first of
    February 2021 matches although it is no occurrence of that weekday; with
    the occurrence number -2 the first Monday of the month matches although
    it is neither the (-2)-th occurrence nor the last one. *)
Lemma C7_counterexample :
  ~ (forall (nag : Nag) (dv : date),
       mode nag = NAG_MODE_MONTHLY ->
       recurring_pattern_type nag = PATTERN_NTH_WEEKDAY ->
       date_valid dv = true ->
       (year dv, month dv) <> (9999, 12) ->
       let dow := or_int (recurring_day_of_week nag) JAVA_MONDAY in
       let n := or_int (recurring_nth_week nag) 1 in
       exists matched,
         is_recurring_date_match 0 nag dv = Ok matched
         /\ (matched = true <->
             if (5 <=? n)
                || (occurrences_in_month (year dv) (month dv) dow <? n)
             then is_last_occurrence (year dv) (month dv) dow (day dv)
             else is_nth_occurrence (year dv) (month dv) dow n (day dv)))
  /\ is_recurring_date_match 0 ninth_weekday (mk_date 2021 2 1) = Ok true
  /\ occurrences_in_month 2021 2 9 = 0
  /\ is_recurring_date_match 0 minus_second_monday (mk_date 2021 2 1) = Ok true
  /\ occurrences_through 2021 2 2 1 = 1.
Proof.
  split; [| repeat split; vm_compute; reflexivity].
  intros H.
  destruct (H ninth_weekday (mk_date 2021 2 1) eq_refl eq_refl eq_refl
              ltac:(cbn; congruence)) as (matched & Em & Hiff).
  assert (E : matched = true) by (vm_compute in Em; congruence).
  apply Hiff in E. cbv zeta in E.
  change (or_int (recurring_day_of_week ninth_weekday) JAVA_MONDAY) with 9
    in E.
  change (or_int (recurring_nth_week ninth_weekday) 1) with 1 in E.
  assert (Hday : java_day_of_week (mk_date 2021 2 1) = 9).
  { destruct ((5 <=? 1) || (occurrences_in_month 2021 2 9 <? 1));
      now destruct E. }
  vm_compute in Hday. discriminate Hday.
Qed.

(** February 2021 has four Mondays (1, 8, 15, 22): the fifth Monday
    resolves to the 22nd.  March 2021 has five: it resolves to the 29th. *)
Example fifth_monday_of_four :
  occurrences_in_month 2021 2 2 = 4
  /\ nth_weekday_day_of_month 2021 2 2 5 = Ok 22
  /\ is_recurring_date_match 0 fifth_monday (mk_date 2021 2 22) = Ok true
  /\ is_recurring_date_match 0 fifth_monday (mk_date 2021 2 15) = Ok false
  /\ nth_weekday_day_of_month 2021 3 2 5 = Ok 29
  /\ nth_weekday_day_of_month 2021 3 2 2 = Ok 8.
Proof. repeat split; vm_compute; reflexivity. Qed.

(** ** C8: all windows within a range *)

Lemma windows_loop_props tz nag range_end_ms fuel :
  forall search_cursor windows,
    windows_loop tz nag range_end_ms fuel search_cursor = Ok windows ->
    (length windows <= fuel)%nat
    /\ Forall (fun w => search_cursor <= source_due_ms w
                        /\ source_due_ms w <= due_ms w <= range_end_ms)
              windows
    /\ StronglySorted window_gap windows.
Proof.
  induction fuel as [| fuel IH]; intros cursor windows; cbn [windows_loop].
  { intros [= <-]. repeat split; [cbn; lia | constructor | constructor]. }
  destruct (resolve_next_recurring_base_due_ms tz nag cursor)
    as [[base |] |] eqn:Enext; cbn [rbind];
    [| intros [= <-]; repeat split; [cbn; lia | constructor | constructor]
     | discriminate].
  destruct (Z.ltb_spec range_end_ms (apply_push_offset nag base)) as [Hgt | Hle].
  { intros [= <-]. repeat split; [cbn; lia | constructor | constructor]. }
  destruct (resolve_previous_recurring_base_due_ms tz nag (base - 1))
    as [previous |]; cbn [rbind]; [| discriminate].
  destruct (windows_loop tz nag range_end_ms fuel (base + 60000))
    as [rest |] eqn:Erest; cbn [rbind]; [| discriminate].
  intros [= <-]. apply resolve_next_ge in Enext.
  destruct (IH _ _ Erest) as (Hlen & Hall & Hsorted).
  unfold apply_push_offset in *.
  repeat split.
  - cbn. lia.
  - constructor; [cbn; lia |].
    eapply Forall_impl; [exact Hall |]. cbn. intros w Hw. lia.
  - constructor; [exact Hsorted |].
    eapply Forall_impl; [exact Hall |]. unfold window_gap. cbn. intros w Hw. lia.
Qed.

Lemma ordinal_ok_spec n : ordinal_ok n = true <-> 1 <= n <= MAXORDINAL.
Proof. unfold ordinal_ok. rewrite andb_true_iff, !Z.leb_le. reflexivity. Qed.

Lemma scan_in_range_between tz a b x :
  scan_in_range tz a = true -> scan_in_range tz b = true ->
  a <= x <= b -> scan_in_range tz x = true.
Proof.
  unfold scan_in_range. rewrite !andb_true_iff, !Z.leb_le, !ordinal_ok_spec.
  unfold utc_ordinal, local_ordinal, MS_PER_DAY.
  intros [[Hua Hla] Hha] [[Hub Hlb] Hhb] Hx.
  pose proof (Z.div_le_mono a x 86400000 ltac:(lia) ltac:(lia)).
  pose proof (Z.div_le_mono x b 86400000 ltac:(lia) ltac:(lia)).
  pose proof (Z.div_le_mono (a + tz * 1000) (x + tz * 1000) 86400000
                ltac:(lia) ltac:(lia)).
  pose proof (Z.div_le_mono (x + tz * 1000) (b + tz * 1000) 86400000
                ltac:(lia) ltac:(lia)).
  lia.
Qed.

Lemma resolvable_between tz nag a b x :
  resolvable tz nag a = true -> resolvable tz nag b = true ->
  a <= x <= b -> resolvable tz nag x = true.
Proof.
  unfold resolvable. rewrite !andb_true_iff.
  intros [[Ht Ha] Hc] [[_ Hb] _] Hx.
  repeat split; try assumption.
  exact (scan_in_range_between tz a b x Ha Hb Hx).
Qed.

Lemma windows_loop_is_ok tz nag range_start_ms range_end_ms fuel :
  resolvable tz nag (range_start_ms - 1) = true ->
  resolvable tz nag (range_end_ms + 60000) = true ->
  forall search_cursor,
    range_start_ms <= search_cursor <= range_end_ms + 60000 ->
    is_ok (windows_loop tz nag range_end_ms fuel search_cursor) = true.
Proof.
  intros Hlo Hhi.
  induction fuel as [| fuel IH]; intros cursor Hc; cbn [windows_loop];
    [reflexivity |].
  pose proof (resolve_next_is_ok tz nag cursor
                (resolvable_between _ _ _ _ cursor Hlo Hhi ltac:(lia))) as Hn.
  destruct (resolve_next_recurring_base_due_ms tz nag cursor)
    as [[base |] |] eqn:Enext; cbn [rbind]; [| reflexivity | discriminate].
  apply resolve_next_ge in Enext.
  destruct (Z.ltb_spec range_end_ms (apply_push_offset nag base));
    [reflexivity |].
  unfold apply_push_offset in *.
  pose proof (resolve_previous_is_ok tz nag (base - 1)
                (resolvable_between _ _ _ _ (base - 1) Hlo Hhi ltac:(lia)))
    as Hp.
  destruct (resolve_previous_recurring_base_due_ms tz nag (base - 1))
    as [previous |]; cbn [rbind]; [| discriminate].
  specialize (IH (base + 60000) ltac:(lia)).
  destruct (windows_loop tz nag range_end_ms fuel (base + 60000));
    [reflexivity | discriminate].
Qed.

(** C8. The range query is a bounded loop (at most 600 rounds of two scans
    of at most [366 * 6 + 1] days).  When it returns, it returns at most 600
    windows, the pushed due of each lies in the range, and the source due
    instants increase strictly, by at least 60 seconds from one window to
    the next.  It returns (does not raise) whenever the reminder is
    resolvable at both ends of the range. *)
Theorem C8_windows_in_range (tz : Z) (nag : Nag)
    (range_start_ms range_end_ms : Z) :
  match resolve_monthly_due_windows_in_range tz nag range_start_ms
                                             range_end_ms with
  | Ok windows =>
    (length windows <= 600)%nat
    /\ Forall (fun w => range_start_ms <= due_ms w <= range_end_ms) windows
    /\ StronglySorted
         (fun a b => source_due_ms a + 60000 <= source_due_ms b) windows
  | Raise _ =>
    resolvable tz nag (range_start_ms - 1)
    && resolvable tz nag (range_end_ms + 60000) = false
  end.
Proof.
  unfold resolve_monthly_due_windows_in_range.
  destruct (Z.ltb_spec range_end_ms range_start_ms) as [Hlt | Hle].
  { repeat split; [cbn; lia | constructor | constructor]. }
  pose proof (windows_loop_props tz nag range_end_ms 600 range_start_ms) as Hp.
  assert (Hok : resolvable tz nag (range_start_ms - 1) = true ->
                resolvable tz nag (range_end_ms + 60000) = true ->
                is_ok (windows_loop tz nag range_end_ms 600 range_start_ms)
                = true).
  { intros Hlo Hhi.
    apply (windows_loop_is_ok tz nag range_start_ms range_end_ms 600 Hlo Hhi).
    lia. }
  destruct (windows_loop tz nag range_end_ms 600 range_start_ms)
    as [windows |].
  - destruct (Hp windows eq_refl) as (Hlen & Hall & Hsorted).
    repeat split; [exact Hlen | | exact Hsorted].
    eapply Forall_impl; [exact Hall |]. cbn. intros w Hw. lia.
  - destruct (resolvable tz nag (range_start_ms - 1)); [| reflexivity].
    destruct (resolvable tz nag (range_end_ms + 60000)); [| reflexivity].
    specialize (Hok eq_refl eq_refl). discriminate Hok.
Qed.

(** One year of the reminder due on the 15th: twelve windows. *)
Example windows_in_one_year :
  (fun r => match r with
            | Ok windows => Some (length windows, source_due_ms <$> head windows)
            | Raise _ => None
            end)
    (resolve_monthly_due_windows_in_range 0 monthly_15th T_2023_11_14
       (T_2023_11_14 + 365 * MS_PER_DAY))
  = Some (12%nat, Some T_2023_11_15_0900).
Proof. vm_compute. reflexivity. Qed.

(** ** C9: pushing a due date *)

Lemma match_with_push tz nag offset count total dv :
  is_recurring_date_match tz (with_push nag offset count total) dv
  = is_recurring_date_match tz nag dv.
Proof. unfold is_recurring_date_match. reflexivity. Qed.

Lemma next_scan_with_push tz nag offset count total hour minute reference_ms
    probe offsets :
  next_scan tz (with_push nag offset count total) hour minute reference_ms
            probe offsets
  = next_scan tz nag hour minute reference_ms probe offsets.
Proof.
  induction offsets as [| k rest IH]; [reflexivity |].
  cbn [next_scan].
  destruct (date_add_days probe k) as [cur |]; cbn [rbind]; [| reflexivity].
  rewrite match_with_push.
  destruct (is_recurring_date_match tz nag cur) as [[] |]; cbn [rbind negb];
    [| exact IH | reflexivity].
  destruct (new_datetime _ _ _ _ _) as [due_dt |]; cbn [rbind];
    [| reflexivity].
  rewrite IH. reflexivity.
Qed.

Lemma previous_scan_with_push tz nag offset count total hour minute
    reference_ms probe offsets :
  previous_scan tz (with_push nag offset count total) hour minute reference_ms
                probe offsets
  = previous_scan tz nag hour minute reference_ms probe offsets.
Proof.
  induction offsets as [| k rest IH]; [reflexivity |].
  cbn [previous_scan].
  destruct (date_add_days probe (- k)) as [cur |]; cbn [rbind];
    [| reflexivity].
  rewrite match_with_push.
  destruct (is_recurring_date_match tz nag cur) as [[] |]; cbn [rbind negb];
    [| exact IH | reflexivity].
  destruct (new_datetime _ _ _ _ _) as [due_dt |]; cbn [rbind];
    [| reflexivity].
  rewrite IH. reflexivity.
Qed.

Lemma resolve_next_with_push tz nag offset count total reference_ms :
  resolve_next_recurring_base_due_ms tz (with_push nag offset count total)
                                     reference_ms
  = resolve_next_recurring_base_due_ms tz nag reference_ms.
Proof.
  unfold resolve_next_recurring_base_due_ms.
  cbn [with_push mode monthly_hour monthly_minute].
  destruct (negb _); [reflexivity |].
  destruct (monthly_hour nag); [| reflexivity].
  destruct (monthly_minute nag); [| reflexivity].
  destruct (ms_to_local tz reference_ms); cbn [rbind]; [| reflexivity].
  apply next_scan_with_push.
Qed.

Lemma resolve_previous_with_push tz nag offset count total reference_ms :
  resolve_previous_recurring_base_due_ms tz (with_push nag offset count total)
                                         reference_ms
  = resolve_previous_recurring_base_due_ms tz nag reference_ms.
Proof.
  unfold resolve_previous_recurring_base_due_ms.
  cbn [with_push mode monthly_hour monthly_minute].
  destruct (negb _); [reflexivity |].
  destruct (monthly_hour nag); [| reflexivity].
  destruct (monthly_minute nag); [| reflexivity].
  destruct (ms_to_local tz reference_ms); cbn [rbind]; [| reflexivity].
  apply previous_scan_with_push.
Qed.

Lemma push_due_not_earlier tz nag push_ms reference_ms :
  0 < push_ms ->
  due_not_earlier
    (resolve_next_due_ms tz nag reference_ms)
    (resolve_next_due_ms tz (push_selected_updated nag push_ms) reference_ms).
Proof.
  intros Hp. unfold resolve_next_due_ms, push_selected_updated.
  rewrite resolve_next_with_push.
  cbn [with_push mode one_time_epoch_ms].
  unfold apply_push_offset. cbn [with_push pushed_offset_ms].
  destruct (String.eqb (mode nag) NAG_MODE_ONE_TIME).
  - destruct (one_time_epoch_ms nag); cbn; [lia | exact I].
  - destruct (resolve_next_recurring_base_due_ms tz nag reference_ms)
      as [[base |] |]; cbn; [lia | exact I | reflexivity].
Qed.

Lemma push_window_not_earlier tz nag push_ms now_ms_value :
  0 < push_ms ->
  window_not_earlier
    (resolve_due_window tz nag now_ms_value)
    (resolve_due_window tz (push_selected_updated nag push_ms) now_ms_value).
Proof.
  intros Hp.
  unfold resolve_due_window, resolve_current_display_monthly_due_window,
    push_selected_updated.
  rewrite resolve_next_with_push.
  cbn [with_push mode one_time_epoch_ms created_at_epoch_ms].
  unfold apply_push_offset. cbn [with_push pushed_offset_ms].
  destruct (String.eqb (mode nag) NAG_MODE_ONE_TIME).
  - destruct (one_time_epoch_ms nag); cbn; [| exact I].
    repeat split; lia.
  - destruct (resolve_next_recurring_base_due_ms tz nag now_ms_value)
      as [[base |] |]; cbn [rbind]; [| exact I | reflexivity].
    rewrite resolve_previous_with_push.
    destruct (resolve_previous_recurring_base_due_ms tz nag (base - 1));
      cbn; [| reflexivity].
    repeat split; lia.
Qed.

(** C9. Applying a push with a positive duration produces a reminder whose
    [pushed_offset_ms], [push_count] and [pushed_total_ms] are each strictly
    greater than before, whose other fields are unchanged, and whose
    resolved due instant (the next due instant and the due of the due
    window) is, for every reference instant, not earlier than that of the
    original. *)
Theorem C9_push_increases (nag : Nag) (push_ms : Z) :
  0 < push_ms ->
  let updated := push_selected_updated nag push_ms in
  pushed_offset_ms nag < pushed_offset_ms updated
  /\ push_count nag < push_count updated
  /\ pushed_total_ms nag < pushed_total_ms updated
  /\ same_except_push nag updated
  /\ forall tz reference_ms,
       due_not_earlier (resolve_next_due_ms tz nag reference_ms)
                       (resolve_next_due_ms tz updated reference_ms)
       /\ window_not_earlier (resolve_due_window tz nag reference_ms)
                             (resolve_due_window tz updated reference_ms).
Proof.
  intros Hp updated. subst updated.
  split; [cbn; lia |]. split; [cbn; lia |]. split; [cbn; lia |].
  split; [repeat split |].
  intros tz reference_ms. split.
  - now apply push_due_not_earlier.
  - now apply push_window_not_earlier.
Qed.

Lemma C9_push_increases_witness :
  let updated := push_selected_updated monthly_15th 3600000 in
  pushed_offset_ms monthly_15th < pushed_offset_ms updated
  /\ push_count monthly_15th < push_count updated
  /\ pushed_total_ms monthly_15th < pushed_total_ms updated
  /\ same_except_push monthly_15th updated
  /\ forall tz reference_ms,
       due_not_earlier (resolve_next_due_ms tz monthly_15th reference_ms)
                       (resolve_next_due_ms tz updated reference_ms)
       /\ window_not_earlier (resolve_due_window tz monthly_15th reference_ms)
                             (resolve_due_window tz updated reference_ms).
Proof. apply (C9_push_increases monthly_15th 3600000). lia. Defined.

Example push_one_hour :
  resolve_next_due_ms 0 (push_selected_updated monthly_15th 3600000)
                      T_2023_11_14
  = Ok (Some (T_2023_11_15_0900 + 3600000)).
Proof. vm_compute. reflexivity. Qed.

(** ** C10: unrecognized patterns *)

Lemma unrecognized_no_match tz nag dv :
  mode nag = NAG_MODE_MONTHLY ->
  recurring_pattern_type nag <> EmptyString ->
  recurring_pattern_type nag ∉ PATTERN_OPTIONS ->
  date_valid dv = true ->
  (year dv, month dv) <> (9999, 12) ->
  is_recurring_date_match tz nag dv = Ok false.
Proof.
  intros Hmode Hne Hnin V Hdec. unfold is_recurring_date_match.
  rewrite Hmode. change ((NAG_MODE_MONTHLY =? NAG_MODE_MONTHLY)%string) with true.
  cbn [negb].
  apply date_valid_spec in V. destruct V as (Hy & Hm & Hd).
  rewrite (month_max_day_ok _ _ Hy Hm Hdec). cbn [rbind].
  destruct (String.eqb_spec (recurring_pattern_type nag) EmptyString) as [E | _];
    [contradiction |].
  unfold PATTERN_OPTIONS in Hnin.
  repeat match goal with
         | |- context [String.eqb (recurring_pattern_type nag) ?p] =>
           destruct (String.eqb_spec (recurring_pattern_type nag) p) as [E | _];
             [exfalso; apply Hnin; rewrite E;
              repeat (first [left; reflexivity | right]) |]
         end.
  reflexivity.
Qed.

Lemma next_scan_no_match tz nag hour minute reference_ms probe offsets :
  (forall dv, date_valid dv = true -> (year dv, month dv) <> (9999, 12) ->
     is_recurring_date_match tz nag dv = Ok false) ->
  (forall k, k ∈ offsets -> 1 <= toordinal probe + k <= MAXORDINAL - 31) ->
  next_scan tz nag hour minute reference_ms probe offsets = Ok None.
Proof.
  intros Hno Hoff.
  induction offsets as [| k rest IH]; cbn [next_scan]; [reflexivity |].
  assert (Hk : 1 <= toordinal probe + k <= MAXORDINAL - 31)
    by (apply Hoff; left).
  unfold date_add_days, ordinal_ok.
  destruct (Z.leb_spec 1 (toordinal probe + k)); [| lia].
  destruct (Z.leb_spec (toordinal probe + k) MAXORDINAL); [| lia].
  cbn [andb rbind].
  destruct (scan_date_ok _ Hk) as [Vc Hne].
  rewrite (Hno _ Vc Hne). cbn [rbind negb].
  apply IH. intros k' Hk'. apply Hoff. now right.
Qed.

Lemma previous_scan_no_match tz nag hour minute reference_ms probe offsets :
  (forall dv, date_valid dv = true -> (year dv, month dv) <> (9999, 12) ->
     is_recurring_date_match tz nag dv = Ok false) ->
  (forall k, k ∈ offsets -> 1 <= toordinal probe - k <= MAXORDINAL - 31) ->
  previous_scan tz nag hour minute reference_ms probe offsets = Ok None.
Proof.
  intros Hno Hoff.
  induction offsets as [| k rest IH]; cbn [previous_scan]; [reflexivity |].
  assert (Hk : 1 <= toordinal probe - k <= MAXORDINAL - 31)
    by (apply Hoff; left).
  unfold date_add_days, ordinal_ok.
  replace (toordinal probe + - k) with (toordinal probe - k) by lia.
  destruct (Z.leb_spec 1 (toordinal probe - k)); [| lia].
  destruct (Z.leb_spec (toordinal probe - k) MAXORDINAL); [| lia].
  cbn [andb rbind].
  destruct (scan_date_ok _ Hk) as [Vc Hne].
  rewrite (Hno _ Vc Hne). cbn [rbind negb].
  apply IH. intros k' Hk'. apply Hoff. now right.
Qed.

(** C10, as the code has it.  For a monthly reminder whose pattern is not
    empty and is none of the six recognized patterns, the date-match
    predicate returns false for every date it can be asked about (every
    date except those of December 9999, whose length the code cannot
    compute); hence, for every reference instant whose scans stay inside the
    calendar, next and previous resolution return no result and due-window
    resolution returns an absent window, without an exception.  An empty
    pattern is not covered: it falls back to DAY_OF_MONTH. *)
Theorem C10_unrecognized_pattern (tz : Z) (nag : Nag) :
  mode nag = NAG_MODE_MONTHLY ->
  recurring_pattern_type nag <> EmptyString ->
  recurring_pattern_type nag ∉ PATTERN_OPTIONS ->
  (forall dv, date_valid dv = true -> (year dv, month dv) <> (9999, 12) ->
     is_recurring_date_match tz nag dv = Ok false)
  /\ forall reference_ms,
       scan_in_range tz reference_ms = true ->
       resolve_next_recurring_base_due_ms tz nag reference_ms = Ok None
       /\ resolve_previous_recurring_base_due_ms tz nag reference_ms = Ok None
       /\ resolve_current_display_monthly_due_window tz nag reference_ms
          = Ok None
       /\ resolve_due_window tz nag reference_ms = Ok None.
Proof.
  intros Hmode Hne Hnin.
  assert (Hno : forall dv, date_valid dv = true ->
                  (year dv, month dv) <> (9999, 12) ->
                  is_recurring_date_match tz nag dv = Ok false).
  { intros dv. now apply unrecognized_no_match. }
  split; [exact Hno |].
  intros reference_ms Hs.
  destruct (scan_in_range_spec tz reference_ms Hs) as (Eloc & V & E & Hr).
  assert (Hnext : resolve_next_recurring_base_due_ms tz nag reference_ms
                  = Ok None).
  { unfold resolve_next_recurring_base_due_ms.
    destruct (negb _); [reflexivity |].
    destruct (monthly_hour nag) as [hour |]; [| reflexivity].
    destruct (monthly_minute nag) as [minute |]; [| reflexivity].
    rewrite Eloc. cbn [rbind].
    apply next_scan_no_match; [exact Hno |].
    intros k Hk. apply elem_of_seqZ in Hk. rewrite E.
    unfold LAST_SCAN_START in Hr. lia. }
  assert (Hprev : resolve_previous_recurring_base_due_ms tz nag reference_ms
                  = Ok None).
  { unfold resolve_previous_recurring_base_due_ms.
    destruct (negb _); [reflexivity |].
    destruct (monthly_hour nag) as [hour |]; [| reflexivity].
    destruct (monthly_minute nag) as [minute |]; [| reflexivity].
    rewrite Eloc. cbn [rbind].
    apply previous_scan_no_match; [exact Hno |].
    intros k Hk. apply elem_of_seqZ in Hk. rewrite E.
    unfold LAST_SCAN_START, MAXORDINAL in *. lia. }
  assert (Hcur : resolve_current_display_monthly_due_window tz nag reference_ms
                 = Ok None).
  { unfold resolve_current_display_monthly_due_window.
    rewrite Hnext. reflexivity. }
  repeat split; try assumption.
  unfold resolve_due_window. rewrite Hmode.
  change ((NAG_MODE_MONTHLY =? NAG_MODE_ONE_TIME)%string) with false.
  exact Hcur.
Qed.

Lemma C10_unrecognized_pattern_witness :
  (forall dv, date_valid dv = true -> (year dv, month dv) <> (9999, 12) ->
     is_recurring_date_match 0 (with_pattern monthly_15th "WEEKLY") dv
     = Ok false)
  /\ forall reference_ms,
       scan_in_range 0 reference_ms = true ->
       resolve_next_recurring_base_due_ms 0
         (with_pattern monthly_15th "WEEKLY") reference_ms = Ok None
       /\ resolve_previous_recurring_base_due_ms 0
            (with_pattern monthly_15th "WEEKLY") reference_ms = Ok None
       /\ resolve_current_display_monthly_due_window 0
            (with_pattern monthly_15th "WEEKLY") reference_ms = Ok None
       /\ resolve_due_window 0 (with_pattern monthly_15th "WEEKLY")
            reference_ms = Ok None.
Proof.
  apply (C10_unrecognized_pattern 0 (with_pattern monthly_15th "WEEKLY")).
  - reflexivity.
  - cbn. discriminate.
  - cbn. apply (bool_decide_unpack _). vm_compute. exact I.
Defined.

(** The empty pattern is none of the six, and the reminder still matches:
    it is treated as DAY_OF_MONTH. *)
Lemma C10_counterexample :
  mode (with_pattern monthly_15th EmptyString) = NAG_MODE_MONTHLY
  /\ (recurring_pattern_type (with_pattern monthly_15th EmptyString)
      ∉ PATTERN_OPTIONS)
  /\ is_recurring_date_match 0 (with_pattern monthly_15th EmptyString)
       (mk_date 2023 11 15) = Ok true
  /\ resolve_next_recurring_base_due_ms 0 (with_pattern monthly_15th EmptyString)
       T_2023_11_14 = Ok (Some T_2023_11_15_0900).
Proof.
  split; [reflexivity |].
  split; [apply (bool_decide_unpack _); vm_compute; exact I |].
  split; vm_compute; reflexivity.
Qed.

Example unrecognized_pattern_example :
  scan_in_range 0 T_2023_11_14 = true
  /\ resolve_due_window 0 (with_pattern monthly_15th "WEEKLY") T_2023_11_14
     = Ok None.
Proof. split; vm_compute; reflexivity. Qed.

(** * Further properties of the code *)

(** ** Calendar helpers *)

(** [month_max_day] is the length of the month; the one month of the
    calendar for which it raises is December 9999, whose successor
    [dt.date(10000, 1, 1)] does not exist. *)
Theorem month_max_day_is_month_length (y m : Z) :
  1 <= y <= 9999 -> 1 <= m <= 12 ->
  month_max_day y m
  = if (y =? 9999) && (m =? 12) then Raise ValueError
    else Ok (days_in_month y m).
Proof.
  intros Hy Hm.
  destruct (Z.eqb_spec y 9999) as [-> | Ey];
    [destruct (Z.eqb_spec m 12) as [-> | Em] |]; cbn [andb].
  - vm_compute. reflexivity.
  - apply month_max_day_ok; [lia | lia | congruence].
  - apply month_max_day_ok; [lia | lia | congruence].
Qed.

Lemma month_max_day_is_month_length_witness :
  month_max_day 2024 2
  = if (2024 =? 9999) && (2 =? 12) then Raise ValueError
    else Ok (days_in_month 2024 2).
Proof. apply (month_max_day_is_month_length 2024 2); lia. Defined.

Lemma java_day_of_week_ordinal dv :
  java_day_of_week dv = toordinal dv mod 7 + 1.
Proof.
  unfold java_day_of_week, weekday. Z.div_mod_to_equations. lia.
Qed.

(** The Java-style weekday is always a number from 1 to 7: 1 on Python's
    weekday 6 (Sunday) and Python's weekday plus 2 on the other days, so 1
    is Sunday (12 November 2023) and 7 is Saturday (18 November 2023); and
    the day after a date, when the calendar has one, has the next weekday,
    7 being followed by 1. *)
Theorem java_day_of_week_cycle (dv : date) :
  1 <= java_day_of_week dv <= 7
  /\ java_day_of_week dv = (if weekday dv =? 6 then 1 else weekday dv + 2)
  /\ java_day_of_week (mk_date 2023 11 12) = 1
  /\ java_day_of_week (mk_date 2023 11 18) = 7
  /\ forall next,
       date_valid dv = true ->
       date_add_days dv 1 = Ok next ->
       java_day_of_week next = java_day_of_week dv mod 7 + 1.
Proof.
  split.
  { rewrite java_day_of_week_ordinal. Z.div_mod_to_equations. lia. }
  split.
  { unfold java_day_of_week, weekday.
    destruct (Z.eqb_spec ((toordinal dv + 6) mod 7) 6);
      Z.div_mod_to_equations; lia. }
  split; [vm_compute; reflexivity |].
  split; [vm_compute; reflexivity |].
  intros next V Hadd. unfold date_add_days in Hadd.
  destruct (ordinal_ok (toordinal dv + 1)) eqn:Eo; [| discriminate].
  injection Hadd as <-. apply ordinal_ok_spec in Eo.
  destruct (ord2ymd_spec _ Eo) as [_ E].
  rewrite !java_day_of_week_ordinal, E.
  Z.div_mod_to_equations. lia.
Qed.

(** From Saturday 27 February 2021 to Sunday 28 February: 7 is followed
    by 1. *)
Example saturday_to_sunday :
  date_add_days (mk_date 2021 2 27) 1 = Ok (mk_date 2021 2 28)
  /\ java_day_of_week (mk_date 2021 2 27) = 7
  /\ java_day_of_week (mk_date 2021 2 28) = 1.
Proof. repeat split; vm_compute; reflexivity. Qed.

(** [nth_weekday_day_of_month] always returns a day of the month: a day
    that falls on the target weekday when the target is a weekday
    ([1 .. 7]), and day 1 when it is not, whatever the occurrence number. *)
Theorem nth_weekday_day_in_month (y m target_java_dow nth_week : Z) :
  1 <= y <= 9999 -> 1 <= m <= 12 -> (y, m) <> (9999, 12) ->
  exists t,
    nth_weekday_day_of_month y m target_java_dow nth_week = Ok t
    /\ 1 <= t <= days_in_month y m
    /\ (1 <= target_java_dow <= 7 ->
        java_day_of_week (mk_date y m t) = target_java_dow)
    /\ (~ 1 <= target_java_dow <= 7 -> t = 1).
Proof.
  intros Hy Hm Hne. unfold nth_weekday_day_of_month.
  rewrite (month_max_day_ok y m Hy Hm Hne). cbn [rbind].
  unfold weekday_matches.
  set (P := fun d : Z => java_day_of_week (mk_date y m d) = target_java_dow).
  set (dim := days_in_month y m).
  assert (Hdim : 28 <= dim <= 31) by (apply days_in_month_bounds; lia).
  assert (Hrange : forall d, P d -> 1 <= target_java_dow <= 7).
  { intros d Hd. unfold P in Hd. rewrite <- Hd, java_day_of_week_ordinal.
    Z.div_mod_to_equations. lia. }
  assert (Helem : forall t, t ∈ filter P (seqZ 1 dim) ->
            1 <= t <= dim
            /\ (1 <= target_java_dow <= 7 ->
                java_day_of_week (mk_date y m t) = target_java_dow)
            /\ (~ 1 <= target_java_dow <= 7 -> t = 1)).
  { intros t Ht. apply (upto_elem P) in Ht. destruct Ht as [Hp Ht].
    repeat split; try lia; [intros _; exact Hp |].
    intros Hn. exfalso. apply Hn. now apply (Hrange t). }
  destruct (filter P (seqZ 1 dim)) as [| x0 rest] eqn:Ematches.
  { exists 1. repeat split; try lia.
    intros Hdow. exfalso.
    destruct (weekday_in_first_week y m target_java_dow Hdow) as (d & Hd & Hp).
    assert (Hin : d ∈ filter P (seqZ 1 dim))
      by (apply (upto_elem P); split; [exact Hp | lia]).
    rewrite Ematches in Hin. inversion Hin. }
  assert (Hlast : exists t, last (x0 :: rest) = Some t /\ t ∈ x0 :: rest).
  { destruct (last (x0 :: rest)) as [t |] eqn:El.
    - exists t. split; [reflexivity |].
      rewrite last_lookup in El. eapply list_elem_of_lookup_2; eauto.
    - apply last_None in El. discriminate. }
  destruct Hlast as (tl & Etl & Htl).
  destruct (5 <=? nth_week).
  { exists tl. rewrite Etl. split; [reflexivity | now apply Helem]. }
  destruct (Z.ltb_spec (Z.max 0 (nth_week - 1))
                       (Z.of_nat (length (x0 :: rest)))) as [Hlt | Hge].
  - destruct ((x0 :: rest) !! Z.to_nat (Z.max 0 (nth_week - 1)))
      as [t |] eqn:Et.
    + exists t. split; [reflexivity |].
      apply Helem. eapply list_elem_of_lookup_2; eauto.
    + apply lookup_ge_None in Et. lia.
  - exists tl. rewrite Etl. split; [reflexivity | now apply Helem].
Qed.

Lemma nth_weekday_day_in_month_witness :
  exists t,
    nth_weekday_day_of_month 2021 2 9 3 = Ok t
    /\ 1 <= t <= days_in_month 2021 2
    /\ (1 <= 9 <= 7 -> java_day_of_week (mk_date 2021 2 t) = 9)
    /\ (~ 1 <= 9 <= 7 -> t = 1).
Proof.
  apply (nth_weekday_day_in_month 2021 2 9 3); [lia | lia | congruence].
Defined.

(** ** Pattern rules *)

Lemma day_rule_eqb nag dv :
  1 <= day dv <= days_in_month (year dv) (month dv) ->
  (day dv =? Z.min (or_int (monthly_day nag) (day dv))
                   (days_in_month (year dv) (month dv))) = true
  <-> day_rule nag dv.
Proof.
  intros Hd. rewrite Z.eqb_eq. unfold day_rule, or_int.
  destruct (monthly_day nag) as [k |]; [| split; [trivial | lia]].
  destruct (Z.eqb_spec k 0); split; intros H; lia.
Qed.

Lemma monthly_match_unfold tz nag dv :
  mode nag = NAG_MODE_MONTHLY ->
  date_valid dv = true ->
  (year dv, month dv) <> (9999, 12) ->
  1 <= day dv <= days_in_month (year dv) (month dv)
  /\ 1 <= month dv <= 12
  /\ is_recurring_date_match tz nag dv
     = rbind (Ok (days_in_month (year dv) (month dv)))
         (fun max_day =>
            let y := year dv in
            let m := month dv in
            let day_of_month := day dv in
            let java_dow := java_day_of_week dv in
            let pattern :=
              if (recurring_pattern_type nag =? EmptyString)%string
              then PATTERN_DAY_OF_MONTH
              else recurring_pattern_type nag in
            if (pattern =? PATTERN_DAY_OF_MONTH)%string then
              Ok (day_of_month
                  =? Z.min (or_int (monthly_day nag) day_of_month) max_day)
            else if (pattern =? PATTERN_DAY_OF_WEEK)%string then
              Ok (java_dow =? or_int (recurring_day_of_week nag) JAVA_MONDAY)
            else if (pattern =? PATTERN_NTH_WEEKDAY)%string then
              let? target_day :=
                nth_weekday_day_of_month y m
                  (or_int (recurring_day_of_week nag) JAVA_MONDAY)
                  (or_int (recurring_nth_week nag) 1) in
              Ok (day_of_month =? target_day)
            else if (pattern =? PATTERN_END_OF_MONTH)%string then
              Ok (day_of_month =? max_day)
            else if (pattern =? PATTERN_QUARTERLY)%string then
              let? created := ms_to_local tz (created_at_epoch_ms nag) in
              let created_month := month created in
              let anchor_month :=
                Z.max 1 (Z.min 12
                  (or_int (recurring_quarter_anchor_month nag) created_month)) in
              let month_delta := ((m - anchor_month) mod 12 + 12) mod 12 in
              let in_cycle := month_delta mod 3 =? 0 in
              let target_day :=
                Z.min (or_int (monthly_day nag) day_of_month) max_day in
              Ok (in_cycle && (day_of_month =? target_day))
            else if (pattern =? PATTERN_ANNUAL)%string then
              let target_month :=
                Z.max 1 (Z.min 12 (or_int (recurring_month_of_year nag) m)) in
              let target_day :=
                Z.min (or_int (monthly_day nag) day_of_month) max_day in
              Ok ((m =? target_month) && (day_of_month =? target_day))
            else Ok false).
Proof.
  intros Hmode V Hne.
  apply date_valid_spec in V. destruct V as (Hy & Hm & Hd).
  repeat split; try lia.
  unfold is_recurring_date_match. rewrite Hmode.
  change ((NAG_MODE_MONTHLY =? NAG_MODE_MONTHLY)%string) with true.
  cbn [negb]. now rewrite (month_max_day_ok _ _ Hy Hm Hne).
Qed.

(** DAY_OF_MONTH (also the rule of an empty pattern): the one matching day
    of a month is the configured day clamped to the month's last day, so the
    31st matches the 30th of a 30-day month; with no day configured (or 0)
    every day matches. *)
Theorem day_of_month_match_rule (tz : Z) (nag : Nag) (dv : date) :
  mode nag = NAG_MODE_MONTHLY ->
  recurring_pattern_type nag = PATTERN_DAY_OF_MONTH
  \/ recurring_pattern_type nag = EmptyString ->
  date_valid dv = true ->
  (year dv, month dv) <> (9999, 12) ->
  exists matched,
    is_recurring_date_match tz nag dv = Ok matched
    /\ (matched = true <-> day_rule nag dv).
Proof.
  intros Hmode Hpat V Hne.
  destruct (monthly_match_unfold tz nag dv Hmode V Hne) as (Hd & Hm & ->).
  cbn [rbind]. cbv zeta.
  eexists. split.
  - destruct Hpat as [-> | ->]; reflexivity.
  - now apply day_rule_eqb.
Qed.

Lemma day_of_month_match_rule_witness :
  exists matched,
    is_recurring_date_match 0 monthly_31st (mk_date 2023 11 30) = Ok matched
    /\ (matched = true <-> day_rule monthly_31st (mk_date 2023 11 30)).
Proof.
  apply (day_of_month_match_rule 0 monthly_31st (mk_date 2023 11 30)).
  - reflexivity.
  - left. reflexivity.
  - reflexivity.
  - cbn. congruence.
Defined.

(** The clamp law on an example: the 31st matches 30 November and not 29
    November, and 29 February of a leap year. *)
Example day_31_in_short_months :
  is_recurring_date_match 0 monthly_31st (mk_date 2023 11 30) = Ok true
  /\ is_recurring_date_match 0 monthly_31st (mk_date 2023 11 29) = Ok false
  /\ is_recurring_date_match 0 monthly_31st (mk_date 2024 2 29) = Ok true
  /\ is_recurring_date_match 0 monthly_31st (mk_date 2023 12 31) = Ok true.
Proof. repeat split; vm_compute; reflexivity. Qed.

(** QUARTERLY: a date matches exactly when its month is a whole number of
    quarters away from the anchor month and its day is the configured day
    clamped to the month; the anchor is the configured month forced into
    [1 .. 12], or the month of creation when none is configured. *)
Theorem quarterly_match_rule (tz : Z) (nag : Nag) (dv created : date) :
  mode nag = NAG_MODE_MONTHLY ->
  recurring_pattern_type nag = PATTERN_QUARTERLY ->
  date_valid dv = true ->
  (year dv, month dv) <> (9999, 12) ->
  ms_to_local tz (created_at_epoch_ms nag) = Ok created ->
  let anchor :=
    Z.max 1 (Z.min 12 (or_int (recurring_quarter_anchor_month nag)
                              (month created))) in
  exists matched,
    is_recurring_date_match tz nag dv = Ok matched
    /\ (matched = true
        <-> (month dv - anchor) mod 3 = 0 /\ day_rule nag dv).
Proof.
  intros Hmode Hpat V Hne Hc anchor.
  destruct (monthly_match_unfold tz nag dv Hmode V Hne) as (Hd & Hm & ->).
  cbn [rbind]. cbv zeta. rewrite Hpat, Hc.
  change ((PATTERN_QUARTERLY =? EmptyString)%string) with false. cbv iota.
  change ((PATTERN_QUARTERLY =? PATTERN_DAY_OF_MONTH)%string) with false.
  change ((PATTERN_QUARTERLY =? PATTERN_DAY_OF_WEEK)%string) with false.
  change ((PATTERN_QUARTERLY =? PATTERN_NTH_WEEKDAY)%string) with false.
  change ((PATTERN_QUARTERLY =? PATTERN_END_OF_MONTH)%string) with false.
  change ((PATTERN_QUARTERLY =? PATTERN_QUARTERLY)%string) with true.
  cbv iota. cbn [rbind]. fold anchor.
  eexists. split; [reflexivity |].
  rewrite andb_true_iff, day_rule_eqb by exact Hd. rewrite Z.eqb_eq.
  assert (((month dv - anchor) mod 12 + 12) mod 12 mod 3 = 0
          <-> (month dv - anchor) mod 3 = 0)
    by (Z.div_mod_to_equations; lia).
  tauto.
Qed.

Lemma quarterly_match_rule_witness :
  let nag := with_pattern monthly_15th PATTERN_QUARTERLY in
  let anchor :=
    Z.max 1 (Z.min 12 (or_int (recurring_quarter_anchor_month nag)
                              (month (mk_date 1970 1 1)))) in
  exists matched,
    is_recurring_date_match 0 nag (mk_date 2023 10 15) = Ok matched
    /\ (matched = true
        <-> (month (mk_date 2023 10 15) - anchor) mod 3 = 0
            /\ day_rule nag (mk_date 2023 10 15)).
Proof.
  intros nag.
  apply (quarterly_match_rule 0 nag (mk_date 2023 10 15) (mk_date 1970 1 1)).
  - reflexivity.
  - reflexivity.
  - reflexivity.
  - cbn. congruence.
  - vm_compute. reflexivity.
Defined.

(** ANNUAL: a date matches exactly when its month is the configured month
    forced into [1 .. 12] and its day is the configured day clamped to the
    month; with no month configured (or 0) every month qualifies. *)
Theorem annual_match_rule (tz : Z) (nag : Nag) (dv : date) :
  mode nag = NAG_MODE_MONTHLY ->
  recurring_pattern_type nag = PATTERN_ANNUAL ->
  date_valid dv = true ->
  (year dv, month dv) <> (9999, 12) ->
  exists matched,
    is_recurring_date_match tz nag dv = Ok matched
    /\ (matched = true
        <-> match recurring_month_of_year nag with
            | Some t => t = 0 \/ month dv = Z.max 1 (Z.min 12 t)
            | None => True
            end
            /\ day_rule nag dv).
Proof.
  intros Hmode Hpat V Hne.
  destruct (monthly_match_unfold tz nag dv Hmode V Hne) as (Hd & Hm & ->).
  cbn [rbind]. cbv zeta. rewrite Hpat.
  change ((PATTERN_ANNUAL =? EmptyString)%string) with false. cbv iota.
  change ((PATTERN_ANNUAL =? PATTERN_DAY_OF_MONTH)%string) with false.
  change ((PATTERN_ANNUAL =? PATTERN_DAY_OF_WEEK)%string) with false.
  change ((PATTERN_ANNUAL =? PATTERN_NTH_WEEKDAY)%string) with false.
  change ((PATTERN_ANNUAL =? PATTERN_END_OF_MONTH)%string) with false.
  change ((PATTERN_ANNUAL =? PATTERN_QUARTERLY)%string) with false.
  change ((PATTERN_ANNUAL =? PATTERN_ANNUAL)%string) with true.
  cbv iota.
  eexists. split; [reflexivity |].
  rewrite andb_true_iff, day_rule_eqb by exact Hd. rewrite Z.eqb_eq.
  unfold or_int. destruct (recurring_month_of_year nag) as [t |].
  - destruct (Z.eqb_spec t 0); split; intros [H1 H2]; split;
      first [assumption | lia].
  - split; intros [H1 H2]; split; first [assumption | exact I | lia].
Qed.

Lemma annual_match_rule_witness :
  let nag := with_pattern monthly_31st PATTERN_ANNUAL in
  exists matched,
    is_recurring_date_match 0 nag (mk_date 2023 2 28) = Ok matched
    /\ (matched = true
        <-> match recurring_month_of_year nag with
            | Some t => t = 0 \/ month (mk_date 2023 2 28) = Z.max 1 (Z.min 12 t)
            | None => True
            end
            /\ day_rule nag (mk_date 2023 2 28)).
Proof.
  intros nag.
  apply (annual_match_rule 0 nag (mk_date 2023 2 28)).
  - reflexivity.
  - reflexivity.
  - reflexivity.
  - cbn. congruence.
Defined.

(** ** What the forward scan returns *)

Lemma is_monthly_due_skipped_spec nag due :
  is_monthly_due_skipped nag due = true
  <-> due ∈ skipped_monthly_due_epoch_ms nag.
Proof.
  unfold is_monthly_due_skipped. cbv zeta.
  rewrite bool_decide_eq_true, elem_of_list_to_set. reflexivity.
Qed.

Lemma is_monthly_due_skipped_false nag due :
  is_monthly_due_skipped nag due = false
  <-> due ∉ skipped_monthly_due_epoch_ms nag.
Proof.
  rewrite <- is_monthly_due_skipped_spec.
  destruct (is_monthly_due_skipped nag due); split; intros H;
    first [congruence | exfalso; now apply H].
Qed.

Lemma new_datetime_inv c hour minute dt :
  new_datetime (year c) (month c) (day c) hour minute = Ok dt ->
  dt = mk_datetime c hour minute
  /\ date_valid c = true /\ 0 <= hour <= 23 /\ 0 <= minute <= 59.
Proof.
  unfold new_datetime. destruct c as [y m d]. cbn [year month day].
  destruct (date_valid (mk_date y m d)); [| discriminate].
  destruct (Z.leb_spec 0 hour), (Z.leb_spec hour 23),
    (Z.leb_spec 0 minute), (Z.leb_spec minute 59);
    cbn [andb]; try discriminate.
  intros [= <-]. repeat split; lia.
Qed.

Lemma next_scan_found tz nag hour minute reference_ms probe offsets due :
  next_scan tz nag hour minute reference_ms probe offsets = Ok (Some due) ->
  exists pre k post cur,
    offsets = pre ++ k :: post
    /\ date_add_days probe k = Ok cur
    /\ date_valid cur = true
    /\ 0 <= hour <= 23 /\ 0 <= minute <= 59
    /\ acceptable tz nag hour minute reference_ms cur
    /\ due = occurrence_ms tz cur hour minute
    /\ Forall (day_rejected tz nag hour minute reference_ms probe) pre.
Proof.
  induction offsets as [| k rest IH]; cbn [next_scan]; [discriminate |].
  destruct (date_add_days probe k) as [cur |] eqn:Eadd; cbn [rbind];
    [| discriminate].
  assert (Hcons : forall pre k' post,
            rest = pre ++ k' :: post ->
            day_rejected tz nag hour minute reference_ms probe k ->
            Forall (day_rejected tz nag hour minute reference_ms probe) pre ->
            k :: rest = (k :: pre) ++ k' :: post
            /\ Forall (day_rejected tz nag hour minute reference_ms probe)
                      (k :: pre)).
  { intros pre k' post -> Hk Hpre. split; [reflexivity | now constructor]. }
  destruct (is_recurring_date_match tz nag cur) as [[] |] eqn:Em;
    cbn [rbind negb]; [| | discriminate].
  - destruct (new_datetime _ _ _ _ _) as [due_dt |] eqn:Edt; cbn [rbind];
      [| discriminate].
    apply new_datetime_inv in Edt. destruct Edt as (-> & V & Hh & Hm).
    fold (occurrence_ms tz cur hour minute).
    destruct (Z.ltb_spec (occurrence_ms tz cur hour minute) reference_ms)
      as [Hlt | Hge].
    { intros H. destruct (IH H) as (pre & k' & post & cur' & E & Hrest).
      destruct Hrest as (A & B & C & D & F & G & Hpre).
      exists (k :: pre), k', post, cur'.
      destruct (Hcons pre k' post E) as [E' Hall]; [| exact Hpre |].
      - intros c Hc _. rewrite Eadd in Hc. injection Hc as <-. now left.
      - repeat split; try assumption; try apply F; try lia. }
    destruct (is_monthly_due_skipped nag (occurrence_ms tz cur hour minute))
      eqn:Es.
    { intros H. destruct (IH H) as (pre & k' & post & cur' & E & Hrest).
      destruct Hrest as (A & B & C & D & F & G & Hpre).
      exists (k :: pre), k', post, cur'.
      destruct (Hcons pre k' post E) as [E' Hall]; [| exact Hpre |].
      - intros c Hc _. rewrite Eadd in Hc. injection Hc as <-. right.
        now apply is_monthly_due_skipped_spec.
      - repeat split; try assumption; try apply F; try lia. }
    intros [= <-]. exists [], k, rest, cur.
    apply is_monthly_due_skipped_false in Es.
    repeat split; try assumption; try lia. constructor.
  - intros H. destruct (IH H) as (pre & k' & post & cur' & E & Hrest).
    destruct Hrest as (A & B & C & D & F & G & Hpre).
    exists (k :: pre), k', post, cur'.
    destruct (Hcons pre k' post E) as [E' Hall]; [| exact Hpre |].
    + intros c Hc Hm. rewrite Eadd in Hc. injection Hc as <-. congruence.
    + repeat split; try assumption; try apply F; try lia.
Qed.

Lemma next_scan_none tz nag hour minute reference_ms probe offsets :
  next_scan tz nag hour minute reference_ms probe offsets = Ok None ->
  0 <= hour <= 23 -> 0 <= minute <= 59 ->
  Forall (day_rejected tz nag hour minute reference_ms probe) offsets.
Proof.
  intros H Hh Hm. revert H.
  induction offsets as [| k rest IH]; cbn [next_scan]; [constructor |].
  destruct (date_add_days probe k) as [cur |] eqn:Eadd; cbn [rbind];
    [| discriminate].
  destruct (is_recurring_date_match tz nag cur) as [[] |] eqn:Em;
    cbn [rbind negb]; [| | discriminate].
  - destruct (new_datetime _ _ _ _ _) as [due_dt |] eqn:Edt; cbn [rbind];
      [| discriminate].
    apply new_datetime_inv in Edt. destruct Edt as (-> & V & _ & _).
    fold (occurrence_ms tz cur hour minute).
    destruct (Z.ltb_spec (occurrence_ms tz cur hour minute) reference_ms)
      as [Hlt | Hge].
    { intros H. constructor; [| now apply IH].
      intros c Hc _. rewrite Eadd in Hc. injection Hc as <-. now left. }
    destruct (is_monthly_due_skipped nag (occurrence_ms tz cur hour minute))
      eqn:Es; [| discriminate].
    intros H. constructor; [| now apply IH].
    intros c Hc _. rewrite Eadd in Hc. injection Hc as <-. right.
    now apply is_monthly_due_skipped_spec.
  - intros H. constructor; [| now apply IH].
    intros c Hc Hm'. rewrite Eadd in Hc. injection Hc as <-. congruence.
Qed.

Lemma resolve_next_unfold tz nag reference_ms r :
  resolve_next_recurring_base_due_ms tz nag reference_ms = Ok (Some r) ->
  exists hour minute,
    monthly_hour nag = Some hour /\ monthly_minute nag = Some minute
    /\ mode nag = NAG_MODE_MONTHLY
    /\ ms_to_local tz reference_ms = Ok (ord2ymd (local_ordinal tz reference_ms))
    /\ ordinal_ok (local_ordinal tz reference_ms) = true
    /\ next_scan tz nag hour minute reference_ms
         (ord2ymd (local_ordinal tz reference_ms)) SCAN_OFFSETS = Ok (Some r).
Proof.
  unfold resolve_next_recurring_base_due_ms.
  destruct (String.eqb_spec (mode nag) NAG_MODE_MONTHLY) as [Hmode | _];
    cbn [negb]; [| discriminate].
  destruct (monthly_hour nag) as [hour |]; [| discriminate].
  destruct (monthly_minute nag) as [minute |]; [| discriminate].
  unfold ms_to_local.
  destruct (ordinal_ok (utc_ordinal reference_ms)); cbn [negb rbind];
    [| discriminate].
  destruct (ordinal_ok (local_ordinal tz reference_ms)) eqn:El;
    cbn [negb rbind]; [| discriminate].
  intros H. exists hour, minute. repeat split; assumption.
Qed.

Lemma next_result_is_occurrence (tz : Z) (nag : Nag)
    (reference_ms due : Z) :
  resolve_next_recurring_base_due_ms tz nag reference_ms = Ok (Some due) ->
  (due ∉ skipped_monthly_due_epoch_ms nag)
  /\ exists hour minute dv,
       monthly_hour nag = Some hour /\ monthly_minute nag = Some minute
       /\ 0 <= hour <= 23 /\ 0 <= minute <= 59
       /\ date_valid dv = true
       /\ is_recurring_date_match tz nag dv = Ok true
       /\ due = occurrence_ms tz dv hour minute.
Proof.
  intros H. apply resolve_next_unfold in H.
  destruct H as (hour & minute & Eh & Emi & _ & _ & _ & Hscan).
  apply next_scan_found in Hscan.
  destruct Hscan as (pre & k & post & cur & _ & _ & V & Hh & Hm & Hacc & -> & _).
  destruct Hacc as (Hmatch & Hge & Hns).
  split; [exact Hns |].
  exists hour, minute, cur. repeat split; try assumption; lia.
Qed.

(** What [resolve_next] returns is a real occurrence: the configured time
    of day on a date that matches the pattern, at or after the reference,
    and never an instant of the skipped list. *)
Theorem resolve_next_is_unskipped_occurrence (tz : Z) (nag : Nag)
    (reference_ms due : Z) :
  resolve_next_recurring_base_due_ms tz nag reference_ms = Ok (Some due) ->
  (due ∉ skipped_monthly_due_epoch_ms nag)
  /\ exists hour minute dv,
       monthly_hour nag = Some hour /\ monthly_minute nag = Some minute
       /\ 0 <= hour <= 23 /\ 0 <= minute <= 59
       /\ date_valid dv = true
       /\ is_recurring_date_match tz nag dv = Ok true
       /\ due = occurrence_ms tz dv hour minute.
Proof. apply next_result_is_occurrence. Qed.

Lemma resolve_next_is_unskipped_occurrence_witness :
  (T_2023_11_15_0900 ∉ skipped_monthly_due_epoch_ms monthly_15th)
  /\ exists hour minute dv,
       monthly_hour monthly_15th = Some hour
       /\ monthly_minute monthly_15th = Some minute
       /\ 0 <= hour <= 23 /\ 0 <= minute <= 59
       /\ date_valid dv = true
       /\ is_recurring_date_match 0 monthly_15th dv = Ok true
       /\ T_2023_11_15_0900 = occurrence_ms 0 dv hour minute.
Proof.
  apply (resolve_next_is_unskipped_occurrence 0 monthly_15th T_2023_11_14).
  vm_compute. reflexivity.
Defined.

Lemma seqZ_prefix_mem m n pre k post j :
  seqZ m n = pre ++ k :: post -> m <= j < k -> j ∈ pre.
Proof.
  intros E Hj.
  assert (Hk : seqZ m n !! length pre = Some k).
  { rewrite E. rewrite lookup_app_r by lia. now rewrite Nat.sub_diag. }
  apply lookup_seqZ in Hk. destruct Hk as [Hk _].
  assert (Hi : seqZ m n !! Z.to_nat (j - m) = Some j).
  { apply lookup_seqZ. split; [lia |].
    assert (Hlen : (length pre < length (seqZ m n))%nat).
    { rewrite E, length_app. cbn. lia. }
    rewrite length_seqZ in Hlen. lia. }
  rewrite E, lookup_app_l in Hi by lia.
  eapply list_elem_of_lookup_2; eauto.
Qed.

Lemma occurrence_ms_ordinal tz dv hour minute :
  occurrence_ms tz dv hour minute
  = ((toordinal dv - EPOCH_ORDINAL) * 86400 + hour * 3600 + minute * 60 - tz)
    * 1000.
Proof. reflexivity. Qed.

Lemma date_add_days_inv probe k cur :
  date_add_days probe k = Ok cur ->
  cur = ord2ymd (toordinal probe + k)
  /\ toordinal cur = toordinal probe + k /\ date_valid cur = true.
Proof.
  unfold date_add_days.
  destruct (ordinal_ok (toordinal probe + k)) eqn:Eo; [| discriminate].
  intros [= <-]. apply ordinal_ok_spec in Eo.
  destruct (ord2ymd_spec _ Eo) as [V E]. now repeat split.
Qed.

(** An occurrence on a day before the local date of the reference is
    before the reference. *)
Lemma occurrence_before_reference tz reference_ms dv hour minute :
  0 <= hour <= 23 -> 0 <= minute <= 59 ->
  toordinal dv < local_ordinal tz reference_ms ->
  occurrence_ms tz dv hour minute < reference_ms.
Proof.
  intros Hh Hm. rewrite occurrence_ms_ordinal.
  unfold local_ordinal, MS_PER_DAY, EPOCH_ORDINAL.
  intros Ho. Z.div_mod_to_equations. lia.
Qed.

Lemma next_result_is_earliest (tz : Z) (nag : Nag)
    (reference_ms due hour minute : Z) (dv : date) :
  resolve_next_recurring_base_due_ms tz nag reference_ms = Ok (Some due) ->
  monthly_hour nag = Some hour ->
  monthly_minute nag = Some minute ->
  date_valid dv = true ->
  acceptable tz nag hour minute reference_ms dv ->
  due <= occurrence_ms tz dv hour minute.
Proof.
  intros H Eh Emi V Hacc. apply resolve_next_unfold in H.
  destruct H as (hour' & minute' & Eh' & Emi' & _ & _ & Hl & Hscan).
  assert (hour' = hour) by congruence. assert (minute' = minute) by congruence.
  subst hour' minute'.
  apply next_scan_found in Hscan.
  destruct Hscan
    as (pre & k & post & cur & Eoff & Eadd & Vc & Hh & Hm & _ & -> & Hpre).
  apply ordinal_ok_spec in Hl.
  destruct (ord2ymd_spec _ Hl) as [Vp Ep].
  apply date_add_days_inv in Eadd. destruct Eadd as (_ & Ec & _).
  rewrite Ep in Ec.
  destruct (Z.lt_ge_cases (toordinal dv)
              (local_ordinal tz reference_ms + k)) as [Hlt | Hge].
  - exfalso. destruct Hacc as (Hmatch & Href & Hns).
    destruct (Z.lt_ge_cases (toordinal dv) (local_ordinal tz reference_ms))
      as [Hbefore | Hin].
    + pose proof (occurrence_before_reference tz reference_ms dv hour minute
                    Hh Hm Hbefore). lia.
    + set (j := toordinal dv - local_ordinal tz reference_ms).
      assert (Hj : j ∈ pre).
      { apply (seqZ_prefix_mem 0 (366 * 6 + 1) pre k post); [exact Eoff |].
        unfold j. lia. }
      rewrite Forall_forall in Hpre. specialize (Hpre j Hj dv).
      destruct Hpre as [Hb | Hs]; [| exact Hmatch | lia | contradiction].
      unfold date_add_days. rewrite Ep.
      replace (local_ordinal tz reference_ms + j) with (toordinal dv)
        by (unfold j; lia).
      pose proof (toordinal_range dv V) as Hr.
      apply ordinal_ok_spec in Hr. rewrite Hr.
      now rewrite ord2ymd_toordinal.
  - rewrite !occurrence_ms_ordinal. lia.
Qed.

(** [resolve_next] returns the earliest acceptable occurrence: no date
    that matches the pattern has an occurrence at or after the reference,
    not skipped, and before the returned instant. *)
Theorem resolve_next_is_earliest (tz : Z) (nag : Nag)
    (reference_ms due hour minute : Z) (dv : date) :
  resolve_next_recurring_base_due_ms tz nag reference_ms = Ok (Some due) ->
  monthly_hour nag = Some hour ->
  monthly_minute nag = Some minute ->
  date_valid dv = true ->
  acceptable tz nag hour minute reference_ms dv ->
  due <= occurrence_ms tz dv hour minute.
Proof. apply next_result_is_earliest. Qed.

Lemma resolve_next_is_earliest_witness :
  T_2023_11_15_0900 <= occurrence_ms 0 (mk_date 2023 12 15) 9 0.
Proof.
  apply (resolve_next_is_earliest 0 monthly_15th T_2023_11_14
           T_2023_11_15_0900 9 0 (mk_date 2023 12 15)).
  - vm_compute. reflexivity.
  - reflexivity.
  - reflexivity.
  - reflexivity.
  - split; [vm_compute; reflexivity |].
    split; [vm_compute; discriminate |].
    cbn. apply not_elem_of_nil.
Defined.

(** When [resolve_next] returns no result for a reminder with a valid time
    of day, none of the [366 * 6 + 1] days from the local date of the
    reference offers an acceptable occurrence. *)
Theorem resolve_next_none_is_exhaustive (tz : Z) (nag : Nag)
    (reference_ms hour minute : Z) (dv : date) :
  resolve_next_recurring_base_due_ms tz nag reference_ms = Ok None ->
  mode nag = NAG_MODE_MONTHLY ->
  monthly_hour nag = Some hour ->
  monthly_minute nag = Some minute ->
  0 <= hour <= 23 -> 0 <= minute <= 59 ->
  date_valid dv = true ->
  local_ordinal tz reference_ms <= toordinal dv
    <= local_ordinal tz reference_ms + 366 * 6 ->
  ~ acceptable tz nag hour minute reference_ms dv.
Proof.
  intros H Hmode Eh Emi Hh Hm V Hr [Hmatch [Href Hns]].
  unfold resolve_next_recurring_base_due_ms in H.
  rewrite Hmode, Eh, Emi in H.
  change ((NAG_MODE_MONTHLY =? NAG_MODE_MONTHLY)%string) with true in H.
  cbn [negb] in H. unfold ms_to_local in H.
  destruct (ordinal_ok (utc_ordinal reference_ms)); cbn [negb rbind] in H;
    [| discriminate].
  destruct (ordinal_ok (local_ordinal tz reference_ms)) eqn:El;
    cbn [negb rbind] in H; [| discriminate].
  apply ordinal_ok_spec in El. destruct (ord2ymd_spec _ El) as [Vp Ep].
  apply next_scan_none in H; [| exact Hh | exact Hm].
  rewrite Forall_forall in H.
  set (j := toordinal dv - local_ordinal tz reference_ms).
  assert (Hj : j ∈ SCAN_OFFSETS).
  { apply elem_of_seqZ. unfold j. lia. }
  specialize (H j Hj dv).
  destruct H as [Hb | Hs]; [| exact Hmatch | lia | contradiction].
  unfold date_add_days. rewrite Ep.
  replace (local_ordinal tz reference_ms + j) with (toordinal dv)
    by (unfold j; lia).
  pose proof (toordinal_range dv V) as Hrange.
  apply ordinal_ok_spec in Hrange. rewrite Hrange.
  now rewrite ord2ymd_toordinal.
Qed.

Lemma resolve_next_none_is_exhaustive_witness :
  ~ acceptable 0 (with_pattern monthly_15th "WEEKLY") 9 0 T_2023_11_14
      (mk_date 2023 11 15).
Proof.
  apply (resolve_next_none_is_exhaustive 0 (with_pattern monthly_15th "WEEKLY")
           T_2023_11_14 9 0 (mk_date 2023 11 15)).
  - vm_compute. reflexivity.
  - reflexivity.
  - reflexivity.
  - reflexivity.
  - lia.
  - lia.
  - reflexivity.
  - vm_compute. split; discriminate.
Defined.

(** ** Completing an occurrence *)

Lemma sorted_set_length xs : (length (sorted_set xs) <= length xs)%nat.
Proof.
  unfold sorted_set. rewrite py_sorted_perm.
  apply submseteq_length, NoDup_submseteq; [apply NoDup_elements |].
  intros x. rewrite elem_of_elements, elem_of_list_to_set. trivial.
Qed.

Lemma StronglySorted_lt_NoDup l : StronglySorted Z.lt l -> NoDup l.
Proof.
  induction 1 as [| x l Hl IH Hx]; constructor; [| exact IH].
  intros Hin. rewrite Forall_forall in Hx. specialize (Hx x Hin). lia.
Qed.

(** A strictly ascending list is left as it is by [sorted(set(...))]. *)
Lemma sorted_set_fixed l : StronglySorted Z.lt l -> sorted_set l = l.
Proof.
  intros Hs. destruct (sorted_set_spec l) as [Hss Hin].
  apply (StronglySorted_unique_strong Z.lt); try assumption.
  - intros x y _ _ Hxy Hyx. lia.
  - apply NoDup_Permutation; [now apply StronglySorted_lt_NoDup | | exact Hin].
    now apply StronglySorted_lt_NoDup.
Qed.

Lemma completed_list_members (nag : Nag) (source_due : Z) :
  (length (skipped_monthly_due_epoch_ms nag) < 200)%nat ->
  let l := skipped_monthly_due_epoch_ms
             (complete_selected_occurrence_updated nag source_due) in
  StronglySorted Z.lt l
  /\ forall x, x ∈ l <-> x ∈ skipped_monthly_due_epoch_ms nag \/ x = source_due.
Proof.
  intros Hlen.
  cbn [complete_selected_occurrence_updated with_skipped
       skipped_monthly_due_epoch_ms].
  destruct (sorted_set_spec (skipped_monthly_due_epoch_ms nag ++ [source_due]))
    as [Hs Hin].
  pose proof (sorted_set_length
                (skipped_monthly_due_epoch_ms nag ++ [source_due])) as Hl.
  rewrite length_app in Hl. cbn [length] in Hl.
  unfold last_n.
  replace (length (sorted_set (skipped_monthly_due_epoch_ms nag ++ [source_due]))
           - 200)%nat with 0%nat by lia.
  rewrite drop_0. split; [exact Hs |].
  intros x. rewrite Hin, elem_of_app, list_elem_of_singleton. reflexivity.
Qed.

(** While the list holds fewer than 200 entries, completing an occurrence
    adds exactly that instant: the new list is strictly ascending and its
    members are the old members and the completed instant. *)
Theorem complete_occurrence_adds (nag : Nag) (source_due : Z) :
  (length (skipped_monthly_due_epoch_ms nag) < 200)%nat ->
  let l := skipped_monthly_due_epoch_ms
             (complete_selected_occurrence_updated nag source_due) in
  StronglySorted Z.lt l
  /\ forall x, x ∈ l <-> x ∈ skipped_monthly_due_epoch_ms nag \/ x = source_due.
Proof. apply completed_list_members. Qed.

Lemma complete_occurrence_adds_witness :
  let l := skipped_monthly_due_epoch_ms
             (complete_selected_occurrence_updated monthly_15th
                T_2023_11_15_0900) in
  StronglySorted Z.lt l
  /\ forall x, x ∈ l <-> x ∈ skipped_monthly_due_epoch_ms monthly_15th
                         \/ x = T_2023_11_15_0900.
Proof.
  apply (complete_occurrence_adds monthly_15th T_2023_11_15_0900).
  cbn. lia.
Defined.

(** Whatever the length of the list, the list after completion is strictly
    ascending, holds at most 200 entries, and each entry is an old entry or
    the completed instant. *)
Theorem complete_occurrence_list_capped (nag : Nag) (source_due : Z) :
  let l := skipped_monthly_due_epoch_ms
             (complete_selected_occurrence_updated nag source_due) in
  StronglySorted Z.lt l /\ (length l <= 200)%nat
  /\ (forall x, x ∈ l ->
        x ∈ skipped_monthly_due_epoch_ms nag \/ x = source_due).
Proof. apply complete_occurrence_skipped_capped. Qed.

Lemma match_with_skipped tz nag skipped dv :
  is_recurring_date_match tz (with_skipped nag skipped) dv
  = is_recurring_date_match tz nag dv.
Proof. unfold is_recurring_date_match. reflexivity. Qed.

(** Completing the occurrence that [resolve_next] returns moves the next
    resolution strictly forward (the list holding fewer than 200 entries). *)
Theorem complete_moves_next_forward (tz : Z) (nag : Nag)
    (reference_ms due due' : Z) :
  resolve_next_recurring_base_due_ms tz nag reference_ms = Ok (Some due) ->
  (length (skipped_monthly_due_epoch_ms nag) < 200)%nat ->
  resolve_next_recurring_base_due_ms tz
    (complete_selected_occurrence_updated nag due) reference_ms
  = Ok (Some due') ->
  due < due'.
Proof.
  intros Hnext Hlen Hnext'.
  pose proof (resolve_next_ge _ _ _ _ Hnext') as Hge.
  destruct (next_result_is_occurrence _ _ _ _ Hnext')
    as (Hns & hour & minute & dv & Eh & Emi & _ & _ & V & Hmatch & ->).
  destruct (completed_list_members nag due Hlen) as [_ Hin].
  cbv zeta in Hin.
  assert (Hne : occurrence_ms tz dv hour minute <> due).
  { intros E. apply Hns, Hin. now right. }
  assert (Hold : occurrence_ms tz dv hour minute
                 ∉ skipped_monthly_due_epoch_ms nag).
  { intros Hx. apply Hns, Hin. now left. }
  unfold complete_selected_occurrence_updated in Eh, Emi, Hmatch.
  cbn [with_skipped monthly_hour monthly_minute] in Eh, Emi.
  rewrite match_with_skipped in Hmatch.
  pose proof (next_result_is_earliest tz nag reference_ms due hour minute dv
                Hnext Eh Emi V ltac:(repeat split; assumption)).
  lia.
Qed.

Lemma complete_moves_next_forward_witness :
  T_2023_11_15_0900 < 1702630800000.
Proof.
  apply (complete_moves_next_forward 0 monthly_15th T_2023_11_14
           T_2023_11_15_0900 1702630800000).
  - vm_compute. reflexivity.
  - cbn. lia.
  - vm_compute. reflexivity.
Defined.

(** ** Validated construction *)

Lemma truthy_Some x :
  truthy x = true -> exists s, x = Some s /\ s <> EmptyString.
Proof.
  destruct x as [s |]; cbn; [| discriminate].
  destruct (String.eqb_spec s EmptyString); [discriminate | eauto].
Qed.

(** Whatever the payload holds, a reminder built by [from_payload] has a
    non-empty work name, text, bucket and mode, a lateness and a repeat
    interval of at least 1, a weight from 0 to 100, non-negative push
    fields, a visibility threshold of at least 1 day when it has one, and a
    project name exactly when its bucket is the project bucket. *)
Theorem from_payload_invariants (ops : PyOps) (now : Z) (payload : pydict)
    (nag : Nag) :
  from_payload ops now payload = Some nag ->
  work_name nag <> EmptyString
  /\ nag_text nag <> EmptyString
  /\ bucket nag <> EmptyString
  /\ mode nag <> EmptyString
  /\ 1 <= lateness_days nag
  /\ 1 <= repeat_minutes nag
  /\ 0 <= weight nag <= 100
  /\ 0 <= pushed_offset_ms nag
  /\ 0 <= push_count nag
  /\ 0 <= pushed_total_ms nag
  /\ (forall days, recurring_visible_days_before_due nag = Some days ->
        1 <= days)
  /\ (is_Some (project_name nag)
      <-> str_lower ops (bucket nag) = str_lower ops PROJECT_BUCKET)
  /\ project_name nag <> Some EmptyString.
Proof.
  intros H. from_payload_inv H.
  cbn [work_name nag_text bucket mode lateness_days repeat_minutes weight
       pushed_offset_ms push_count pushed_total_ms project_name
       recurring_visible_days_before_due].
  apply orb_false_iff in Enames. destruct Enames as [Ew Et].
  apply String.eqb_neq in Ew, Et.
  assert (Hor : forall s d, d <> EmptyString -> str_or s d <> EmptyString).
  { intros s d Hd. unfold str_or.
    destruct (String.eqb_spec s EmptyString); assumption. }
  repeat split; try assumption; try lia.
  - apply Hor. discriminate.
  - apply Hor. discriminate.
  - intros days.
    match goal with
    | |- Z.max 1 <$> ?v = _ -> _ => destruct v as [v' |]
    end; cbn; [| discriminate].
    intros [= <-]. lia.
  - intros [p Hp].
    destruct (String.eqb_spec
                (str_lower ops
                   (str_or (py_str ops
                              (dict_get payload "bucket" (VStr DEFAULT_BUCKET)))
                           DEFAULT_BUCKET))
                (str_lower ops PROJECT_BUCKET)); [assumption | discriminate].
  - intros E. rewrite E. rewrite String.eqb_refl.
    destruct (truthy _) eqn:Etr; [| eauto].
    destruct (truthy_Some _ Etr) as (s & Es & _). rewrite Es. eauto.
  - destruct (String.eqb _ _); [| discriminate].
    destruct (truthy _) eqn:Etr; [| discriminate].
    intros E. rewrite E in Etr. discriminate.
Qed.

Lemma from_payload_invariants_witness :
  let nag := with_skipped monthly_15th [3; 5] in
  work_name nag <> EmptyString
  /\ nag_text nag <> EmptyString
  /\ bucket nag <> EmptyString
  /\ mode nag <> EmptyString
  /\ 1 <= lateness_days nag
  /\ 1 <= repeat_minutes nag
  /\ 0 <= weight nag <= 100
  /\ 0 <= pushed_offset_ms nag
  /\ 0 <= push_count nag
  /\ 0 <= pushed_total_ms nag
  /\ (forall days, recurring_visible_days_before_due nag = Some days ->
        1 <= days)
  /\ (is_Some (project_name nag)
      <-> str_lower example_ops (bucket nag)
          = str_lower example_ops PROJECT_BUCKET)
  /\ project_name nag <> Some EmptyString.
Proof.
  apply (from_payload_invariants example_ops 0
           (to_payload (with_skipped monthly_15th [5; 3; 5]) "update" 0)).
  vm_compute. reflexivity.
Defined.

(** The skipped list of a reminder built by [from_payload] is strictly
    ascending (sorted, no duplicates), and its members are exactly the
    integers that [int] makes of the items of the payload's list; items that
    [int] rejects are dropped, and a value that is not a list gives the
    empty list. *)
Theorem from_payload_skipped_spec (ops : PyOps) (now : Z) (payload : pydict)
    (nag : Nag) :
  from_payload ops now payload = Some nag ->
  StronglySorted Z.lt (skipped_monthly_due_epoch_ms nag)
  /\ forall x,
       x ∈ skipped_monthly_due_epoch_ms nag
       <-> exists items item,
             dict_get payload "skippedMonthlyDueEpochMillis" (VList [])
             = VList items
             /\ item ∈ items /\ py_int ops item = Some x.
Proof.
  intros H. from_payload_inv H. cbn [skipped_monthly_due_epoch_ms].
  split; [apply sorted_set_spec |].
  intros z. destruct (sorted_set_spec
    match dict_get payload "skippedMonthlyDueEpochMillis" (VList []) with
    | VList items => omap (py_int ops) items
    | _ => []
    end) as [_ Hin].
  rewrite Hin.
  destruct (dict_get payload "skippedMonthlyDueEpochMillis" (VList []))
    as [| | | | | items |];
    try (split; [intros Hz; inversion Hz
                | intros (items' & item & Eitems & _); discriminate Eitems]).
  rewrite list_elem_of_omap. split.
  - intros (item & Hi & Hz). now exists items, item.
  - intros (items' & item & [= <-] & Hi & Hz). now exists item.
Qed.

Lemma from_payload_skipped_spec_witness :
  let payload := to_payload (with_skipped monthly_15th [5; 3; 5]) "update" 0 in
  let nag := with_skipped monthly_15th [3; 5] in
  StronglySorted Z.lt (skipped_monthly_due_epoch_ms nag)
  /\ forall x,
       x ∈ skipped_monthly_due_epoch_ms nag
       <-> exists items item,
             dict_get payload "skippedMonthlyDueEpochMillis" (VList [])
             = VList items
             /\ item ∈ items /\ py_int example_ops item = Some x.
Proof.
  apply (from_payload_skipped_spec example_ops 0
           (to_payload (with_skipped monthly_15th [5; 3; 5]) "update" 0)).
  vm_compute. reflexivity.
Defined.

(** ** Serialization round trip *)

Lemma opt_int_of_value ops payload name x :
  (forall z, py_int ops (VInt z) = Some z) ->
  dict_get payload name VNone = value_of_opt_int x ->
  opt_int ops payload name = Some x.
Proof.
  intros Hint E. unfold opt_int. rewrite E.
  destruct x as [z |]; cbn; [| reflexivity].
  now rewrite Hint.
Qed.

Lemma probe_keys_none f payload keys :
  f VNone = None ->
  Forall (fun k => dict_get payload k VNone = VNone) keys ->
  probe_keys f payload keys None = None.
Proof.
  intros Hf. induction 1 as [| k keys Hk _ IH]; cbn [probe_keys];
    [reflexivity |].
  rewrite Hk, Hf. cbn [truthy]. exact IH.
Qed.

Lemma probe_keys_first f payload k rest x :
  kept_by f x ->
  f VNone = None ->
  dict_get payload k VNone = value_of_opt_str x ->
  Forall (fun k' => dict_get payload k' VNone = VNone) rest ->
  probe_keys f payload (k :: rest) None = x.
Proof.
  intros Hk Hf E Hrest. cbn [probe_keys]. rewrite E.
  destruct x as [s |]; cbn [value_of_opt_str kept_by] in *.
  - destruct Hk as [-> Hs]. cbn [truthy].
    destruct (String.eqb_spec s EmptyString); [contradiction | reflexivity].
  - rewrite Hf. cbn [truthy]. now apply probe_keys_none.
Qed.

Lemma omap_VInt ops (l : list Z) :
  (forall z, py_int ops (VInt z) = Some z) ->
  omap (py_int ops) (VInt <$> l) = l.
Proof.
  intros Hint. induction l as [| z l IH]; [reflexivity |].
  cbn. rewrite Hint. cbn. now rewrite IH.
Qed.

(** A reminder in canonical form survives serialization: building a
    reminder from the payload that [to_payload] wrote gives the reminder
    back, whatever the action tag and the two clock readings. *)
Theorem to_payload_round_trip (ops : PyOps) (nag : Nag) (action : string)
    (synced_at now : Z) :
  scalar_faithful ops ->
  canonical ops nag ->
  from_payload ops now (to_payload nag action synced_at) = Some nag.
Proof.
  intros (Hstr & Hint & Hbool) Hc.
  destruct Hc as (Hw & Hwne & Ht & Htne & Hb & Hm & Hl & Hr & Hwt & Ho & Hpc
                  & Hpt & Hs & Hv & Hg & Hu & Hp & Hpn & Hproj).
  unfold from_payload.
  set (payload := to_payload nag action synced_at).
  change (dict_get payload "workName" (VStr EmptyString))
    with (VStr (work_name nag)).
  change (dict_get payload "nagText" (VStr EmptyString))
    with (VStr (nag_text nag)).
  rewrite !Hstr, Hw, Ht.
  destruct (String.eqb_spec (work_name nag) EmptyString); [contradiction |].
  destruct (String.eqb_spec (nag_text nag) EmptyString); [contradiction |].
  cbn [orb].
  change (dict_get payload "skippedMonthlyDueEpochMillis" (VList []))
    with (VList (VInt <$> skipped_monthly_due_epoch_ms nag)).
  cbv beta iota.
  rewrite (omap_VInt ops _ Hint), (sorted_set_fixed _ Hs).
  change (dict_get payload "continueMinutes" VNone)
    with (value_of_opt_int (continue_minutes nag)).
  assert (Ec : forall x,
             match value_of_opt_int x with
             | VNone => Some None
             | raw => z ← py_int ops raw; Some (Some z)
             end = Some x).
  { intros [z |]; cbn; [now rewrite Hint | reflexivity]. }
  rewrite Ec.
  rewrite (probe_keys_first (normalize_icon_glyph ops) payload "iconGlyph" _
             (icon_glyph nag) Hg eq_refl eq_refl)
    by (repeat constructor).
  rewrite (probe_keys_first (normalize_image_url ops) payload "imageUrl" _
             (image_url nag) Hu eq_refl eq_refl)
    by (repeat constructor).
  rewrite (probe_keys_first (normalize_project_name ops) payload "projectName" _
             (project_name nag) Hpn eq_refl eq_refl)
    by (repeat constructor).
  rewrite (probe_keys_first (normalize_icon_png_base64 ops) payload
             "iconPngBase64" _ (icon_png_base64 nag) Hp eq_refl eq_refl)
    by (repeat constructor).
  rewrite (opt_int_of_value ops payload "recurringVisibleDaysBeforeDue"
             (recurring_visible_days_before_due nag) Hint eq_refl).
  rewrite (opt_int_of_value ops payload "oneTimeEpochMillis"
             (one_time_epoch_ms nag) Hint eq_refl).
  rewrite (opt_int_of_value ops payload "monthlyDay"
             (monthly_day nag) Hint eq_refl).
  rewrite (opt_int_of_value ops payload "monthlyHour"
             (monthly_hour nag) Hint eq_refl).
  rewrite (opt_int_of_value ops payload "monthlyMinute"
             (monthly_minute nag) Hint eq_refl).
  rewrite (opt_int_of_value ops payload "recurringDayOfWeek"
             (recurring_day_of_week nag) Hint eq_refl).
  rewrite (opt_int_of_value ops payload "recurringNthWeek"
             (recurring_nth_week nag) Hint eq_refl).
  rewrite (opt_int_of_value ops payload "recurringMonthOfYear"
             (recurring_month_of_year nag) Hint eq_refl).
  rewrite (opt_int_of_value ops payload "recurringQuarterAnchorMonth"
             (recurring_quarter_anchor_month nag) Hint eq_refl).
  change (dict_get payload "bucket" (VStr DEFAULT_BUCKET))
    with (VStr (bucket nag)).
  change (dict_get payload "latenessDays" (VInt 7))
    with (VInt (lateness_days nag)).
  change (dict_get payload "mode" (VStr NAG_MODE_ONE_TIME))
    with (VStr (mode nag)).
  change (dict_get payload "repeatMinutes" (VInt 60))
    with (VInt (repeat_minutes nag)).
  change (dict_get payload "notificationsEnabled" (VBool true))
    with (VBool (notifications_enabled nag)).
  change (dict_get payload "weight" (VInt 50)) with (VInt (weight nag)).
  change (dict_get payload "createdAtEpochMillis" (VInt now))
    with (VInt (created_at_epoch_ms nag)).
  change (dict_get payload "recurringPatternType" (VStr PATTERN_DAY_OF_MONTH))
    with (VStr (recurring_pattern_type nag)).
  change (dict_get payload "pushedOffsetMillis" (VInt 0))
    with (VInt (pushed_offset_ms nag)).
  change (dict_get payload "pushCount" (VInt 0)) with (VInt (push_count nag)).
  change (dict_get payload "pushedTotalMillis" (VInt 0))
    with (VInt (pushed_total_ms nag)).
  rewrite !Hstr, !Hint, Hbool. cbn [mbind option_bind].
  unfold str_or.
  destruct (String.eqb_spec (bucket nag) EmptyString); [contradiction |].
  destruct (String.eqb_spec (mode nag) EmptyString); [contradiction |].
  assert (Eproj : (if (str_lower ops (bucket nag)
                       =? str_lower ops PROJECT_BUCKET)%string
                   then if truthy (project_name nag) then project_name nag
                        else Some DEFAULT_PROJECT_NAME
                   else None) = project_name nag).
  { destruct (String.eqb_spec (str_lower ops (bucket nag))
                              (str_lower ops PROJECT_BUCKET)) as [E | E].
    - apply Hproj in E. destruct E as [p Ep]. rewrite Ep in Hpn |- *.
      destruct Hpn as [_ Hpne]. cbn [truthy].
      destruct (String.eqb_spec p EmptyString); [contradiction | reflexivity].
    - destruct (project_name nag) as [p |] eqn:Ep; [| reflexivity].
      exfalso. apply E, Hproj. eauto. }
  rewrite Eproj.
  assert (Ev : Z.max 1 <$> recurring_visible_days_before_due nag
               = recurring_visible_days_before_due nag).
  { destruct (recurring_visible_days_before_due nag) as [d |] eqn:Ed;
      [| reflexivity].
    cbn. f_equal. specialize (Hv d eq_refl). lia. }
  rewrite Ev.
  replace (Z.max 1 (lateness_days nag)) with (lateness_days nag) by lia.
  replace (Z.max 1 (repeat_minutes nag)) with (repeat_minutes nag) by lia.
  replace (Z.max 0 (Z.min 100 (weight nag))) with (weight nag) by lia.
  replace (Z.max 0 (pushed_offset_ms nag)) with (pushed_offset_ms nag) by lia.
  replace (Z.max 0 (push_count nag)) with (push_count nag) by lia.
  replace (Z.max 0 (pushed_total_ms nag)) with (pushed_total_ms nag) by lia.
  destruct nag. reflexivity.
Qed.

Lemma to_payload_round_trip_witness :
  from_payload example_ops T_2023_11_14
    (to_payload (with_skipped monthly_15th [3; 5]) "update" T_2023_11_14)
  = Some (with_skipped monthly_15th [3; 5]).
Proof.
  apply (to_payload_round_trip example_ops (with_skipped monthly_15th [3; 5])
           "update" T_2023_11_14 T_2023_11_14).
  - repeat split; intros; reflexivity.
  - repeat apply conj;
      first [ reflexivity
            | exact I
            | cbn; lia
            | cbn; discriminate
            | intros days; cbn; discriminate
            | repeat constructor; lia
            | intros [p Hp]; discriminate Hp
            | vm_compute; discriminate ].
Defined.

(** ** The reconciler's result *)

Lemma from_payload_work_name (ops : PyOps) (now : Z) (payload : pydict)
    (nag : Nag) :
  from_payload ops now payload = Some nag -> work_name nag <> EmptyString.
Proof.
  intros H. from_payload_inv H. cbn [work_name].
  apply orb_false_iff in Enames. destruct Enames as [Ew _].
  now apply String.eqb_neq in Ew.
Qed.

(** What one iteration of the replay loop keeps: the counters are ordered
    and bounded by the number of rows seen, the map holds no more reminders
    than valid rows were seen, and every reminder sits under its own,
    non-empty, work name. *)
Lemma replay_row_invariant (ops : PyOps) (now : Z) (st : Rebuilt)
    (row : pydict) (seen : Z) :
  (0 <= last_valid_nag_rows st <= last_parseable_payload_rows st
   /\ last_parseable_payload_rows st <= seen
   /\ Z.of_nat (size (nags_by_work st)) <= last_valid_nag_rows st
   /\ forall name nag, nags_by_work st !! name = Some nag ->
        work_name nag = name /\ name <> EmptyString) ->
  let st' := replay_row ops now st row in
  0 <= last_valid_nag_rows st' <= last_parseable_payload_rows st'
  /\ last_parseable_payload_rows st' <= seen + 1
  /\ Z.of_nat (size (nags_by_work st')) <= last_valid_nag_rows st'
  /\ forall name nag, nags_by_work st' !! name = Some nag ->
       work_name nag = name /\ name <> EmptyString.
Proof.
  intros (Hc & Hs & Hsz & Hk). unfold replay_row.
  destruct (_parse_payload ops (dict_get row "payload" VNone))
    as [[| f fs] |]; cbn zeta;
    [repeat split; first [lia | eapply Hk; eassumption] | |
     repeat split; first [lia | eapply Hk; eassumption]].
  destruct (from_payload ops now (f :: fs)) as [nag |] eqn:Enag;
    cbn [nags_by_work last_parseable_payload_rows last_valid_nag_rows];
    [| repeat split; first [lia | eapply Hk; eassumption]].
  apply from_payload_work_name in Enag.
  set (nag' := if truthy _ then with_icon_png_base64 nag _ else nag).
  assert (Ew : work_name nag' = work_name nag).
  { unfold nag'. now destruct (truthy _). }
  clearbody nag'.
  destruct (String.eqb _ "delete").
  - split; [lia |]. split; [lia |]. split.
    + pose proof (map_size_delete (work_name nag') (nags_by_work st)) as Hd.
      destruct (nags_by_work st !! work_name nag'); unfold id in *; lia.
    + intros name other Hl. apply lookup_delete_Some in Hl as [_ Hl].
      now apply Hk.
  - split; [lia |]. split; [lia |]. split.
    + pose proof (map_size_insert (work_name nag') nag' (nags_by_work st))
        as Hi.
      destruct (nags_by_work st !! work_name nag'); unfold id in *; lia.
    + intros name other Hl.
      apply lookup_insert_Some in Hl as [[<- <-] | [_ Hl]];
        [split; congruence | now apply Hk].
Qed.

Lemma replay_invariant (ops : PyOps) (clock : nat -> Z) (rows : list pydict) :
  forall (i : nat) (st : Rebuilt) (seen : Z),
    (0 <= last_valid_nag_rows st <= last_parseable_payload_rows st
     /\ last_parseable_payload_rows st <= seen
     /\ Z.of_nat (size (nags_by_work st)) <= last_valid_nag_rows st
     /\ forall name nag, nags_by_work st !! name = Some nag ->
          work_name nag = name /\ name <> EmptyString) ->
    let st' := replay ops clock i rows st in
    0 <= last_valid_nag_rows st' <= last_parseable_payload_rows st'
    /\ last_parseable_payload_rows st' <= seen + Z.of_nat (length rows)
    /\ Z.of_nat (size (nags_by_work st')) <= last_valid_nag_rows st'
    /\ forall name nag, nags_by_work st' !! name = Some nag ->
         work_name nag = name /\ name <> EmptyString.
Proof.
  induction rows as [| row rows IH]; intros i st seen Hinv.
  - cbn [replay length]. replace (seen + Z.of_nat 0) with seen by lia.
    exact Hinv.
  - cbn [replay].
    pose proof (replay_row_invariant ops (clock i) st row seen Hinv) as Hrow.
    specialize (IH (S i) _ (seen + 1) Hrow). cbn zeta in IH.
    replace (seen + Z.of_nat (length (row :: rows)))
      with (seen + 1 + Z.of_nat (length rows)) by (cbn [length]; lia).
    exact IH.
Qed.

Lemma replay_app ops clock rows1 rows2 :
  forall i st,
    replay ops clock i (rows1 ++ rows2) st
    = replay ops clock (i + length rows1) rows2 (replay ops clock i rows1 st).
Proof.
  induction rows1 as [| row rows1 IH]; intros i st; cbn [app replay length].
  - now rewrite Nat.add_0_r.
  - rewrite IH. f_equal. lia.
Qed.

Lemma replay_row_other ops now st row name :
  row_name ops row <> Some name ->
  nags_by_work (replay_row ops now st row) !! name = nags_by_work st !! name.
Proof.
  unfold row_name, replay_row.
  destruct (_parse_payload ops (dict_get row "payload" VNone))
    as [[| f fs] |]; try reflexivity.
  intros Hne.
  destruct (from_payload ops now (f :: fs)) as [nag |] eqn:Enag;
    [| reflexivity].
  apply from_payload_work_name_eq in Enag. cbv zeta.
  set (nag' := if truthy _ then with_icon_png_base64 nag _ else nag).
  assert (Ew : work_name nag' = work_name nag).
  { unfold nag'. now destruct (truthy _). }
  clearbody nag'. cbn [nags_by_work].
  assert (Hn : work_name nag' <> name) by congruence.
  destruct (String.eqb _ "delete").
  - now apply lookup_delete_ne.
  - now apply lookup_insert_ne.
Qed.

Lemma replay_others ops clock rows name :
  forall i st,
    (forall row, row ∈ rows -> row_name ops row <> Some name) ->
    nags_by_work (replay ops clock i rows st) !! name
    = nags_by_work st !! name.
Proof.
  induction rows as [| row rows IH]; intros i st Hrows; cbn [replay];
    [reflexivity |].
  rewrite IH by (intros r Hr; apply Hrows; now right).
  apply replay_row_other, Hrows. left.
Qed.

(** A work name that no event row carries is not in the map after a
    rebuild. *)
Lemma rebuild_unnamed_absent ops clock events name :
  (forall row, row ∈ events -> row_name ops row <> Some name) ->
  nags_by_work (_rebuild_current_nags_from_events ops clock events) !! name
  = None.
Proof.
  intros H. unfold _rebuild_current_nags_from_events. cbv zeta.
  rewrite replay_others; [apply lookup_empty |].
  intros row Hrow. apply H. now rewrite py_sorted_perm in Hrow.
Qed.

(** Whatever the event rows hold, after a rebuild the number of valid
    reminder rows is at most the number of parseable payload rows, which is
    at most the number of rows; the map holds at most as many reminders as
    there were valid rows; and every reminder of the map is stored under its
    own work name, which is not empty and is carried by one of the rows. *)
Theorem rebuild_invariants (ops : PyOps) (clock : nat -> Z)
    (events : list pydict) :
  let r := _rebuild_current_nags_from_events ops clock events in
  0 <= last_valid_nag_rows r <= last_parseable_payload_rows r
  /\ last_parseable_payload_rows r <= Z.of_nat (length events)
  /\ Z.of_nat (size (nags_by_work r)) <= last_valid_nag_rows r
  /\ forall name nag, nags_by_work r !! name = Some nag ->
       work_name nag = name /\ name <> EmptyString
       /\ exists row, row ∈ events /\ row_name ops row = Some name.
Proof.
  assert (Hnamed : forall name nag,
            nags_by_work (_rebuild_current_nags_from_events ops clock events)
              !! name = Some nag ->
            exists row, row ∈ events /\ row_name ops row = Some name).
  { intros name nag Hl.
    destruct (decide (Exists (fun row => row_name ops row = Some name) events))
      as [Hex | Hno].
    - apply Exists_exists in Hex. exact Hex.
    - rewrite rebuild_unnamed_absent in Hl; [discriminate |].
      intros row Hrow E. apply Hno. apply Exists_exists. eauto. }
  revert Hnamed.
  unfold _rebuild_current_nags_from_events.
  set (sorted_events := py_sorted _ events). intros Hnamed.
  assert (Hlen : length sorted_events = length events).
  { unfold sorted_events. now rewrite py_sorted_perm. }
  pose proof (replay_invariant ops clock sorted_events 0%nat
                (mk_Rebuilt ∅ 0 0) 0) as H.
  cbn zeta in H. rewrite Hlen in H. cbn zeta.
  replace (Z.of_nat (length events)) with (0 + Z.of_nat (length events)) by lia.
  assert (H0 : 0 <= last_valid_nag_rows (mk_Rebuilt ∅ 0 0)
                 <= last_parseable_payload_rows (mk_Rebuilt ∅ 0 0)
               /\ last_parseable_payload_rows (mk_Rebuilt ∅ 0 0) <= 0
               /\ Z.of_nat (size (nags_by_work (mk_Rebuilt ∅ 0 0)))
                  <= last_valid_nag_rows (mk_Rebuilt ∅ 0 0)
               /\ forall name nag,
                    nags_by_work (mk_Rebuilt ∅ 0 0) !! name = Some nag ->
                    work_name nag = name /\ name <> EmptyString).
  { cbn [nags_by_work last_parseable_payload_rows last_valid_nag_rows].
    split; [lia |]. split; [lia |]. split; [rewrite map_size_empty; lia |].
    intros name nag Hl. rewrite lookup_empty in Hl. discriminate. }
  destruct (H H0) as (Hc & Hp & Hs & Hk).
  split; [exact Hc |]. split; [exact Hp |]. split; [exact Hs |].
  intros name nag Hl. destruct (Hk name nag Hl) as [Hw Hn].
  split; [exact Hw |]. split; [exact Hn |]. exact (Hnamed name nag Hl).
Qed.

(** In the replay loop the last row that carries a work name decides what
    the map holds under that name: the rows after it, which carry other
    names or no payload, leave the entry (or its absence) as that row left
    it. *)
Theorem replay_last_row_wins (ops : PyOps) (clock : nat -> Z) (i : nat)
    (before after : list pydict) (row : pydict) (st : Rebuilt)
    (name : string) :
  (forall later, later ∈ after -> row_name ops later <> Some name) ->
  nags_by_work (replay ops clock i (before ++ row :: after) st) !! name
  = nags_by_work
      (replay_row ops (clock (i + length before)%nat)
         (replay ops clock i before st) row) !! name.
Proof.
  intros Hafter. rewrite replay_app. cbn [replay].
  now apply replay_others.
Qed.

Lemma replay_last_row_wins_witness :
  nags_by_work
    (replay example_ops clock_zero 0 ([row_first] ++ row_second :: [row_other])
            (mk_Rebuilt ∅ 0 0)) !! "rent"
  = nags_by_work
      (replay_row example_ops (clock_zero (0 + length [row_first])%nat)
         (replay example_ops clock_zero 0 [row_first] (mk_Rebuilt ∅ 0 0))
         row_second) !! "rent".
Proof.
  apply (replay_last_row_wins example_ops clock_zero 0 [row_first]
           [row_other] row_second (mk_Rebuilt ∅ 0 0) "rent").
  intros later Hin. apply list_elem_of_singleton in Hin. subst later.
  vm_compute. discriminate.
Defined.

(** ** The visible list *)

Lemma resolve_next_due_ms_monthly tz nag reference_ms w :
  resolve_current_display_monthly_due_window tz nag reference_ms = Ok (Some w) ->
  (mode nag =? NAG_MODE_ONE_TIME)%string = false ->
  resolve_next_due_ms tz nag reference_ms = Ok (Some (due_ms w)).
Proof.
  unfold resolve_current_display_monthly_due_window, resolve_next_due_ms.
  intros H ->.
  destruct (resolve_next_recurring_base_due_ms tz nag reference_ms)
    as [[base_due |] |]; cbn [rbind] in *; try discriminate.
  destruct (resolve_previous_recurring_base_due_ms tz nag (base_due - 1))
    as [previous |]; cbn [rbind] in *; try discriminate.
  now injection H as <-.
Qed.

Lemma visible_entries_of_nag_ok tz nag now_ms_value horizon_ms
    recurring_view_mode added :
  visible_entries_of_nag tz nag now_ms_value horizon_ms
    (now_ms_value + horizon_ms) recurring_view_mode = Ok added ->
  Forall (fun e => entry_nag e = nag
                   /\ visible_entry_ok tz now_ms_value horizon_ms e) added.
Proof.
  unfold visible_entries_of_nag, visible_entry_ok.
  destruct (String.eqb (mode nag) NAG_MODE_ONE_TIME) eqn:Emode.
  { destruct (resolve_due_window tz nag now_ms_value) as [window |] eqn:Ew;
      cbn [rbind]; [| discriminate].
    intros [= <-]. repeat constructor. cbn [entry_nag due_window key].
    rewrite Emode. now split. }
  destruct (String.eqb recurring_view_mode RECUR_ALL_WINDOW).
  - destruct (resolve_monthly_due_windows_in_range tz nag now_ms_value
                (now_ms_value + horizon_ms)) as [windows |] eqn:Ew;
      cbn [rbind]; [| discriminate].
    intros [= <-]. rewrite Forall_forall. intros e He.
    apply list_elem_of_In, in_map_iff in He.
    destruct He as (window & <- & Hin). apply filter_In in Hin.
    destruct Hin as [Hin Hshow]. cbn [entry_nag due_window key].
    split; [reflexivity |]. rewrite Emode. exists window.
    unfold resolve_monthly_due_windows_in_range in Ew.
    destruct (Z.ltb_spec (now_ms_value + horizon_ms) now_ms_value);
      [injection Ew as <-; destruct Hin |].
    apply windows_loop_props in Ew. destruct Ew as (_ & Hall & _).
    rewrite List.Forall_forall in Hall. specialize (Hall window Hin).
    repeat split; first [assumption | lia].
  - destruct (resolve_current_display_monthly_due_window tz nag now_ms_value)
      as [display_window |] eqn:Ew; cbn [rbind]; [| discriminate].
    destruct (resolve_next_due_ms tz nag now_ms_value) as [next |] eqn:En;
      cbn [rbind]; [| discriminate].
    destruct display_window as [window |]; [| intros [= <-]; constructor].
    rewrite (resolve_next_due_ms_monthly _ _ _ _ Ew Emode) in En.
    injection En as <-.
    destruct (Z.ltb_spec horizon_ms (due_ms window - now_ms_value));
      [intros [= <-]; constructor |].
    destruct (should_show_recurring_due_window nag (due_ms window)
                now_ms_value) eqn:Eshow; cbn [negb];
      [| intros [= <-]; constructor].
    intros [= <-]. repeat constructor. cbn [entry_nag due_window key].
    rewrite Emode. exists window.
    apply current_display_window_ordered in Ew.
    repeat split; first [assumption | reflexivity | lia].
Qed.



(** ** The other sort modes *)



(** The sorted list, whatever the mode: a rearrangement of the entries in
    which every entry's key tuple is at most the key tuple of each later
    entry. *)
Lemma sort_entries_by_key tz entries sort_mode now_ms_value sorted :
  sort_entries tz entries sort_mode now_ms_value = Ok sorted ->
  sorted ≡ₚ entries
  /\ StronglySorted
       (fun a b => exists ka kb,
          sort_key tz sort_mode now_ms_value a = Ok ka
          /\ sort_key tz sort_mode now_ms_value b = Ok kb
          /\ tuple_leb ka kb = true) sorted.
Proof.
  unfold sort_entries.
  destruct (keyed _ entries) as [decorated |] eqn:Ek; cbn [rbind];
    [| discriminate].
  intros [= <-]. apply keyed_spec in Ek. destruct Ek as [Esnd Hkeys].
  set (leb := fun a b : list Z * NagListEntry => tuple_leb (fst a) (fst b)).
  pose proof (py_sorted_perm leb decorated) as Hperm.
  split.
  - rewrite <- Esnd. now apply fmap_Permutation.
  - assert (Htrans : Transitive (fun x y => leb x y = true))
      by (intros x y z; apply tuple_leb_trans).
    apply (StronglySorted_fmap (fun x y => leb x y = true)).
    + intros [ka a] [kb b] Ha Hb Hle.
      rewrite Hperm in Ha, Hb. rewrite Forall_forall in Hkeys.
      apply Hkeys in Ha, Hb. cbn [fst snd] in *.
      now exists ka, kb.
    + apply Sorted_StronglySorted; [exact Htrans |].
      apply py_sorted_Sorted. intros x y. apply tuple_leb_total.
Qed.




Lemma keyed_returns {A K} (f : A -> result K) (l : list A) :
  Forall (fun x => is_ok (f x) = true) l -> is_ok (keyed f l) = true.
Proof.
  induction 1 as [| x l Hx _ IH]; cbn [keyed]; [reflexivity |].
  destruct (f x); [| discriminate]. cbn [rbind].
  destruct (keyed f l); [reflexivity | discriminate].
Qed.

(** Sorting the visible list returns: computing the sort key of an entry
    that [build_visible_entries] made raises no exception, whatever the sort
    mode and the instant of the sort. *)
Theorem sort_visible_entries_returns (tz : Z) (nags : list Nag)
    (now_ms_value monthly_view_days : Z)
    (recurring_view_mode sort_mode : string) (sort_now : Z)
    (entries : list NagListEntry) :
  build_visible_entries tz nags now_ms_value monthly_view_days
                        recurring_view_mode = Ok entries ->
  exists sorted,
    sort_entries tz entries sort_mode sort_now = Ok sorted
    /\ sorted ≡ₚ entries.
Proof.
  intros H.
  assert (Hk : is_ok (keyed (sort_key tz sort_mode sort_now) entries) = true).
  { apply keyed_returns.
    unfold build_visible_entries in H. cbv zeta in H.
    revert entries H.
    induction nags as [| nag rest IH]; intros entries;
      cbn [visible_entries_loop].
    { intros [= <-]. constructor. }
    destruct (visible_entries_of_nag tz nag now_ms_value _ _ _)
      as [added |] eqn:Ea; cbn [rbind]; [| discriminate].
    destruct (visible_entries_loop tz rest now_ms_value _ _ _)
      as [more |] eqn:Em; cbn [rbind]; [| discriminate].
    intros [= <-]. apply Forall_app. split; [| now apply IH].
    apply visible_entries_of_nag_ok in Ea.
    eapply Forall_impl; [exact Ea |].
    intros e [_ Hok]. unfold visible_entry_ok in Hok. cbv zeta in Hok.
    unfold sort_key, entry_due_ms.
    destruct (String.eqb (mode (entry_nag e)) NAG_MODE_ONE_TIME) eqn:Emode.
    - destruct (due_window e) as [w |]; cbn [rbind].
      + now repeat destruct (String.eqb sort_mode _).
      + unfold resolve_next_due_ms. rewrite Emode.
        destruct (one_time_epoch_ms (entry_nag e)); cbn [rbind default];
          now repeat destruct (String.eqb sort_mode _).
    - destruct Hok as (w & -> & _). cbn [rbind].
      now repeat destruct (String.eqb sort_mode _). }
  destruct (sort_entries tz entries sort_mode sort_now) as [sorted |] eqn:Es.
  - exists sorted. split; [reflexivity |].
    now apply sort_entries_by_key in Es.
  - unfold sort_entries in Es.
    destruct (keyed _ entries); [discriminate Es | discriminate Hk].
Qed.

Lemma sort_visible_entries_returns_witness :
  exists sorted,
    sort_entries 0 example_entries SORT_DUE T_2023_11_15_0900 = Ok sorted
    /\ sorted ≡ₚ example_entries.
Proof.
  apply (sort_visible_entries_returns 0 example_nags T_2023_11_14 30
           RECUR_NEXT_ONLY SORT_DUE T_2023_11_15_0900 example_entries).
  vm_compute. reflexivity.
Defined.

Lemma visible_entries_of_nag_shape tz nag now_ms_value horizon_ms
    horizon_end_ms recurring_view_mode added :
  visible_entries_of_nag tz nag now_ms_value horizon_ms horizon_end_ms
    recurring_view_mode = Ok added ->
  Forall (fun e => entry_nag e = nag) added
  /\ (is_one_time nag = true -> length added = 1%nat)
  /\ (recurring_view_mode <> RECUR_ALL_WINDOW -> (length added <= 1)%nat).
Proof.
  unfold visible_entries_of_nag, is_one_time.
  destruct (String.eqb (mode nag) NAG_MODE_ONE_TIME).
  { destruct (resolve_due_window tz nag now_ms_value); cbn [rbind];
      [| discriminate].
    intros [= <-]. repeat split; [repeat constructor | cbn; lia]. }
  destruct (String.eqb_spec recurring_view_mode RECUR_ALL_WINDOW)
    as [Eall | Eall].
  - destruct (resolve_monthly_due_windows_in_range tz nag now_ms_value
                horizon_end_ms); cbn [rbind]; [| discriminate].
    intros [= <-]. repeat split; [| discriminate | contradiction].
    rewrite Forall_forall. intros e He.
    apply list_elem_of_In, in_map_iff in He.
    now destruct He as (window & <- & _).
  - destruct (resolve_current_display_monthly_due_window tz nag now_ms_value)
      as [[window |] |]; cbn [rbind];
      destruct (resolve_next_due_ms tz nag now_ms_value) as [[next |] |];
      cbn [rbind]; try discriminate;
      try (intros [= <-]; repeat split;
           [constructor | discriminate | cbn; lia]).
    destruct (horizon_ms <? next - now_ms_value);
      [| destruct (negb _)];
      intros [= <-]; repeat split;
        first [discriminate | repeat constructor | cbn; lia].
Qed.

(** A one-time reminder is never left out: the visible list shows the
    one-time reminders exactly once each and in the order of the input,
    whatever the horizon and the view mode.  When the view mode is not
    "All in window", every reminder is shown at most once, in the order of
    the input. *)
Theorem build_visible_entries_one_time (tz : Z) (nags : list Nag)
    (now_ms_value monthly_view_days : Z) (recurring_view_mode : string)
    (entries : list NagListEntry) :
  build_visible_entries tz nags now_ms_value monthly_view_days
                        recurring_view_mode = Ok entries ->
  List.filter is_one_time (entry_nag <$> entries) = List.filter is_one_time nags
  /\ (recurring_view_mode <> RECUR_ALL_WINDOW ->
      (entry_nag <$> entries) `sublist_of` nags).
Proof.
  unfold build_visible_entries. cbv zeta. revert entries.
  induction nags as [| nag rest IH]; intros entries; cbn [visible_entries_loop].
  { intros [= <-]. split; [reflexivity | constructor]. }
  destruct (visible_entries_of_nag tz nag now_ms_value _ _ _)
    as [added |] eqn:Ea; cbn [rbind]; [| discriminate].
  destruct (visible_entries_loop tz rest now_ms_value _ _ _)
    as [more |] eqn:Em; cbn [rbind]; [| discriminate].
  intros [= <-]. destruct (IH more eq_refl) as [IHf IHs].
  apply visible_entries_of_nag_shape in Ea. destruct Ea as (Hall & Hone & Hmost).
  rewrite fmap_app. split.
  - rewrite List.filter_app, IHf. cbn [List.filter].
    destruct (is_one_time nag) eqn:E1.
    + specialize (Hone eq_refl).
      destruct added as [| e [| e' added]]; try discriminate Hone.
      apply Forall_inv in Hall. cbn. rewrite Hall, E1. reflexivity.
    + replace (List.filter is_one_time (entry_nag <$> added)) with (@nil Nag);
        [reflexivity |].
      clear Hone Hmost.
      induction Hall as [| x l Hx _ IHa]; [reflexivity |].
      cbn. rewrite Hx, E1. exact IHa.
  - intros Hmode. specialize (IHs Hmode). specialize (Hmost Hmode).
    destruct added as [| e [| e' added]]; cbn in Hmost; try lia.
    + cbn. now apply sublist_cons.
    + apply Forall_inv in Hall. cbn. rewrite Hall. now apply sublist_skip.
Qed.

Lemma build_visible_entries_one_time_witness :
  List.filter is_one_time (entry_nag <$> example_entries)
  = List.filter is_one_time example_nags
  /\ (RECUR_NEXT_ONLY <> RECUR_ALL_WINDOW ->
      (entry_nag <$> example_entries) `sublist_of` example_nags).
Proof.
  apply (build_visible_entries_one_time 0 example_nags T_2023_11_14 30
           RECUR_NEXT_ONLY example_entries).
  vm_compute. reflexivity.
Defined.

(** ** Labels *)

(** The compact duration is a count followed by a unit.  The unit is the
    largest of w, d, h, m, s that fits into the duration (ms when none
    does), and the count is the duration in that unit, rounded down; a
    negative duration is printed as the duration 0. *)
Theorem format_duration_compact_spec (duration_ms : Z) :
  exists count unit size,
    format_duration_compact duration_ms = str_of_int count +:+ unit
    /\ (unit, size) ∈ DURATION_UNITS
    /\ (size <= Z.max 0 duration_ms \/ unit = "ms")
    /\ count * size <= Z.max 0 duration_ms < (count + 1) * size
    /\ forall unit' size',
         (unit', size') ∈ DURATION_UNITS -> size < size' ->
         Z.max 0 duration_ms < size'.
Proof.
  unfold format_duration_compact. cbv zeta.
  set (millis := Z.max 0 duration_ms).
  assert (Hpos : 0 <= millis) by (unfold millis; lia).
  assert (Hdiv : forall size, 0 < size ->
            millis / size * size <= millis < (millis / size + 1) * size).
  { intros size Hs. pose proof (Z.mul_div_le millis size Hs).
    pose proof (Z.mul_succ_div_gt millis size Hs). lia. }
  assert (Hunits : forall (P : Z -> Prop) unit' size',
            (unit', size') ∈ DURATION_UNITS ->
            P 604800000 -> P 86400000 -> P 3600000 -> P 60000 -> P 1000 ->
            P 1 -> P size').
  { intros P unit' size' Hin. unfold DURATION_UNITS in Hin.
    repeat (apply elem_of_cons in Hin as [[= -> ->] | Hin]; [auto |]).
    inversion Hin. }
  destruct (Z.leb_spec (7 * 24 * 60 * 60 * 1000) millis) as [Hw | Hw].
  { exists (millis / (7 * 24 * 60 * 60 * 1000)), "w", 604800000.
    split; [reflexivity |]. split; [unfold DURATION_UNITS; repeat constructor |].
    split; [left; lia |].
    split; [apply (Hdiv 604800000); lia |].
    intros unit' size' Hin. pattern size'.
    apply (Hunits _ unit' _ Hin); lia. }
  destruct (Z.leb_spec (24 * 60 * 60 * 1000) millis) as [Hd | Hd].
  { exists (millis / (24 * 60 * 60 * 1000)), "d", 86400000.
    split; [reflexivity |]. split; [unfold DURATION_UNITS; repeat constructor |].
    split; [left; lia |].
    split; [apply (Hdiv 86400000); lia |].
    intros unit' size' Hin. pattern size'.
    apply (Hunits _ unit' _ Hin); lia. }
  destruct (Z.leb_spec (60 * 60 * 1000) millis) as [Hh | Hh].
  { exists (millis / (60 * 60 * 1000)), "h", 3600000.
    split; [reflexivity |]. split; [unfold DURATION_UNITS; repeat constructor |].
    split; [left; lia |].
    split; [apply (Hdiv 3600000); lia |].
    intros unit' size' Hin. pattern size'.
    apply (Hunits _ unit' _ Hin); lia. }
  destruct (Z.leb_spec (60 * 1000) millis) as [Hm | Hm].
  { exists (millis / (60 * 1000)), "m", 60000.
    split; [reflexivity |]. split; [unfold DURATION_UNITS; repeat constructor |].
    split; [left; lia |].
    split; [apply (Hdiv 60000); lia |].
    intros unit' size' Hin. pattern size'.
    apply (Hunits _ unit' _ Hin); lia. }
  destruct (Z.leb_spec 1000 millis) as [Hs | Hs].
  { exists (millis / 1000), "s", 1000.
    split; [reflexivity |]. split; [unfold DURATION_UNITS; repeat constructor |].
    split; [left; lia |].
    split; [apply (Hdiv 1000); lia |].
    intros unit' size' Hin. pattern size'.
    apply (Hunits _ unit' _ Hin); lia. }
  exists millis, "ms", 1.
  split; [reflexivity |]. split; [unfold DURATION_UNITS; repeat constructor |].
  split; [now right |].
  split; [lia |].
  intros unit' size' Hin. pattern size'.
  apply (Hunits _ unit' _ Hin); lia.
Qed.

(** Labels of a few durations: whole units, rounded down. *)
Example format_duration_examples :
  format_duration_compact 0 = "0ms"
  /\ format_duration_compact (-5) = "0ms"
  /\ format_duration_compact 999 = "999ms"
  /\ format_duration_compact 59999 = "59s"
  /\ format_duration_compact (2 * 3600000 - 1) = "1h"
  /\ format_duration_compact (13 * 86400000) = "1w"
  /\ due_status_label T_2023_11_15_0900 T_2023_11_14 = "+10h"
  /\ due_status_label T_2023_11_14 T_2023_11_15_0900 = "10h".
Proof. repeat split; vm_compute; reflexivity. Qed.

(** ** Progress fraction *)

Lemma float_ltb_leb x y : float_ltb x y = true -> float_leb x y = true.
Proof.
  unfold float_ltb, float_leb, SFltb, SFleb.
  now destruct (SFcompare x y) as [[| |] |].
Qed.

(** The progress fraction, when the division returns, is a float from 0.0
    to 1.0; an empty or inverted window never divides and gives 1.0 from
    the end of the window on and 0.0 before it. *)
Theorem progress_fraction_bounds (now_ms_value start end_ms : Z) :
  (end_ms <= start ->
   progress_fraction now_ms_value start end_ms
   = Ok (if end_ms <=? now_ms_value then float_1 else float_0))
  /\ forall fraction,
       progress_fraction now_ms_value start end_ms = Ok fraction ->
       float_leb float_0 fraction = true /\ float_leb fraction float_1 = true.
Proof.
  unfold progress_fraction. split.
  { intros H. destruct (Z.leb_spec end_ms start); [reflexivity | lia]. }
  intros fraction.
  destruct (end_ms <=? start).
  { intros [= <-]. destruct (end_ms <=? now_ms_value); now vm_compute. }
  destruct (int_true_div (now_ms_value - start) (end_ms - start))
    as [ratio |]; cbn [rbind]; [| discriminate].
  intros [= <-]. unfold float_max, float_min.
  destruct (float_ltb ratio float_1) eqn:E1.
  - destruct (float_ltb float_0 ratio) eqn:E0.
    + split; now apply float_ltb_leb.
    + now vm_compute.
  - destruct (float_ltb float_0 float_1) eqn:E0; now vm_compute.
Qed.

(** ** What the normalisers accept *)

Lemma value_induction (P : value -> Prop) :
  P VNone -> (forall b, P (VBool b)) -> (forall z, P (VInt z)) ->
  (forall f, P (VFloat f)) -> (forall s, P (VStr s)) ->
  (forall items, Forall P items -> P (VList items)) ->
  (forall fields, Forall (fun kv => P (snd kv)) fields -> P (VDict fields)) ->
  forall v, P v.
Proof.
  intros HN HB HI HF HS HL HD. fix IH 1.
  intros [| b | z | f | s | items | fields];
    [exact HN | apply HB | apply HI | apply HF | apply HS | |].
  - apply HL. revert items. fix IHl 1.
    intros [| x items]; constructor; [apply IH | apply IHl].
  - apply HD. revert fields. fix IHl 1.
    intros [| [k x] fields]; constructor; [apply IH | apply IHl].
Qed.

Lemma first_truthy_Some results s :
  first_truthy results = Some s ->
  Some (Some s) ∈ results /\ s <> EmptyString.
Proof.
  induction results as [| [v |] results IH]; cbn [first_truthy];
    [discriminate | |].
  - destruct (truthy v) eqn:Ev.
    + intros ->. split; [left |]. cbn in Ev.
      destruct (String.eqb_spec s EmptyString); [discriminate | assumption].
    + intros H. destruct (IH H). split; [now right | assumption].
  - intros H. destruct (IH H). split; [now right | assumption].
Qed.

Lemma dict_find_Some {B} (f : value -> B) (d : pydict) k r :
  dict_find f d k = Some r -> exists v, (k, v) ∈ d /\ r = f v.
Proof.
  induction d as [| [k' v] d IH]; cbn [dict_find]; [discriminate |].
  destruct (String.eqb_spec k' k) as [-> | _].
  - intros [= <-]. exists v. split; [left | reflexivity].
  - intros H. destruct (IH H) as (v' & Hin & E). exists v'.
    split; [now right | assumption].
Qed.

(** The result of a normaliser over the keys of a dict comes from one of
    the dict's values. *)
Lemma first_truthy_dict (f : value -> option string) (P : string -> Prop)
    (d : pydict) (keys : list string) s :
  Forall (fun kv => forall s, f (snd kv) = Some s -> P s) d ->
  first_truthy (map (dict_find f d) keys) = Some s -> P s.
Proof.
  intros Hall H. apply first_truthy_Some in H. destruct H as [Hin _].
  apply list_elem_of_In, in_map_iff in Hin. destruct Hin as (k & Hk & _).
  apply dict_find_Some in Hk. destruct Hk as (v & Hv & E).
  rewrite Forall_forall in Hall. exact (Hall _ Hv s (eq_sym E)).
Qed.

Lemma first_truthy_list (f : value -> option string) (P : string -> Prop)
    (items : list value) s :
  Forall (fun v => forall s, f v = Some s -> P s) items ->
  first_truthy (map (fun item => Some (f item)) items) = Some s -> P s.
Proof.
  intros Hall H. apply first_truthy_Some in H. destruct H as [Hin _].
  apply list_elem_of_In, in_map_iff in Hin.
  destruct Hin as (v & [= E] & Hv). apply list_elem_of_In in Hv.
  rewrite Forall_forall in Hall. exact (Hall _ Hv s E).
Qed.

Lemma normalize_image_url_valid ops v :
  forall s, normalize_image_url ops v = Some s -> is_http_url ops s.
Proof.
  induction v as [| b | z | f | t | items _ | fields IH] using value_induction;
    intros s; cbn [normalize_image_url]; try discriminate;
    try (apply (first_truthy_dict _ _ _ _ _ IH));
    cbv zeta;
    match goal with
    | |- context [String.eqb ?t EmptyString] =>
      destruct (String.eqb_spec t EmptyString); [discriminate |]
    end;
    (destruct (startswith _ "http://" || startswith _ "https://") eqn:E;
     [| discriminate]);
    intros [= <-]; (split; [assumption | now apply orb_true_iff in E]).
Qed.

Lemma normalize_icon_png_base64_valid ops v :
  forall s, normalize_icon_png_base64 ops v = Some s -> is_base64_image ops s.
Proof.
  induction v as [| b | z | f | t | items IH | fields IH]
    using value_induction;
    intros s; cbn [normalize_icon_png_base64]; try discriminate;
    try (apply (first_truthy_dict _ _ _ _ _ IH));
    try (apply (first_truthy_list _ _ _ _ IH));
    cbv zeta;
    match goal with
    | |- context [String.eqb ?t EmptyString] =>
      destruct (String.eqb_spec t EmptyString); [discriminate |]
    end;
    match goal with
    | |- (if str_len ops ?t <? 16 then _ else _) = _ -> _ =>
      destruct (Z.ltb_spec (str_len ops t) 16); [discriminate |];
      destruct (b64_valid ops t) eqn:E; [| discriminate]
    end;
    intros [= <-]; (split; assumption).
Qed.

Lemma normalize_icon_glyph_valid ops v :
  forall s, normalize_icon_glyph ops v = Some s -> is_icon_text s.
Proof.
  induction v as [| b | z | f | t | items IH | fields IH]
    using value_induction;
    intros s; cbn [normalize_icon_glyph]; try discriminate;
    try (apply (first_truthy_dict _ _ _ _ _ IH));
    try (apply (first_truthy_list _ _ _ _ IH));
    cbv zeta;
    match goal with
    | |- context [String.eqb ?t EmptyString] =>
      destruct (String.eqb_spec t EmptyString); [discriminate |]
    end;
    (destruct (str_in _ INVALID_ICON_TOKENS); [discriminate |]);
    (destruct (startswith _ "<img" || startswith _ "http"); [discriminate |]);
    match goal with
    | |- (if (?t =? EmptyString)%string then _ else _) = _ -> _ =>
      destruct (String.eqb_spec t EmptyString); [discriminate |];
      destruct (looks_like_icon_text t) eqn:E; [| discriminate]
    end;
    intros [= <-]; (split; assumption).
Qed.

Lemma normalize_project_name_valid ops v s :
  normalize_project_name ops v = Some s -> s <> EmptyString.
Proof.
  destruct v; cbn [normalize_project_name]; try discriminate; cbv zeta;
    match goal with
    | |- (if (?t =? EmptyString)%string then _ else _) = _ -> _ =>
      destruct (String.eqb_spec t EmptyString); [discriminate |]
    end;
    now intros [= <-].
Qed.

(** Whatever value a normaliser is given (a scalar, or lists and dicts
    nested to any depth), a text it returns is never empty; an image URL
    starts with http:// or https:// (case-insensitively); an image in
    base64 has at least 16 characters and decodes; an icon glyph holds a
    non-ASCII character. *)
Theorem normalizers_validate (ops : PyOps) (v : value) (s : string) :
  (normalize_image_url ops v = Some s -> is_http_url ops s)
  /\ (normalize_icon_png_base64 ops v = Some s -> is_base64_image ops s)
  /\ (normalize_icon_glyph ops v = Some s -> is_icon_text s)
  /\ (normalize_project_name ops v = Some s -> s <> EmptyString).
Proof.
  split; [| split; [| split]].
  - apply normalize_image_url_valid.
  - apply normalize_icon_png_base64_valid.
  - apply normalize_icon_glyph_valid.
  - apply normalize_project_name_valid.
Qed.

Lemma probe_keys_from (f : value -> option string) payload keys acc s :
  probe_keys f payload keys acc = Some s ->
  acc = Some s \/ exists v, f v = Some s.
Proof.
  revert acc. induction keys as [| k keys IH]; intros acc; cbn [probe_keys];
    [now left |].
  cbv zeta. destruct (truthy (f (dict_get payload k VNone))).
  - intros H. right. eauto.
  - intros H. destruct (IH _ H) as [E | E]; [right; eauto | now right].
Qed.

(** The media fields of a reminder built by [from_payload] are validated:
    whatever the payload holds under the candidate keys, an image URL of the
    reminder starts with http:// or https://, an image in base64 has at
    least 16 characters and decodes, and an icon glyph holds a non-ASCII
    character; none of them is the empty text. *)
Theorem from_payload_media_validated (ops : PyOps) (now : Z)
    (payload : pydict) (nag : Nag) :
  from_payload ops now payload = Some nag ->
  (forall s, image_url nag = Some s -> is_http_url ops s)
  /\ (forall s, icon_png_base64 nag = Some s -> is_base64_image ops s)
  /\ (forall s, icon_glyph nag = Some s -> is_icon_text s).
Proof.
  intros H. from_payload_inv H.
  cbn [image_url icon_png_base64 icon_glyph].
  split; [| split]; intros s Hs.
  - apply (probe_keys_from (normalize_image_url ops) payload
             ["imageUrl"; "iconImageUrl"; "nagImageUrl"; "nagImage";
              "iconUrl"; "image"; "icon"] None) in Hs.
    destruct Hs as [Hs | [v Hs]]; [discriminate Hs |].
    exact (normalize_image_url_valid ops v s Hs).
  - apply (probe_keys_from (normalize_icon_png_base64 ops) payload
             ["iconPngBase64"; "icon_png_base64"; "iconImageBase64";
              "nagIconBase64"] None) in Hs.
    destruct Hs as [Hs | [v Hs]]; [discriminate Hs |].
    exact (normalize_icon_png_base64_valid ops v s Hs).
  - apply (probe_keys_from (normalize_icon_glyph ops) payload
             ["iconGlyph"; "icon"; "iconEmoji"; "nagIcon"; "iconText"] None)
      in Hs.
    destruct Hs as [Hs | [v Hs]]; [discriminate Hs |].
    exact (normalize_icon_glyph_valid ops v s Hs).
Qed.

Lemma from_payload_media_validated_witness :
  (forall s, image_url rent_with_image = Some s -> is_http_url example_ops s)
  /\ (forall s, icon_png_base64 rent_with_image = Some s ->
        is_base64_image example_ops s)
  /\ (forall s, icon_glyph rent_with_image = Some s -> is_icon_text s).
Proof.
  apply (from_payload_media_validated example_ops 0 payload_with_image
           rent_with_image).
  vm_compute. reflexivity.
Defined.

(** ** The previous occurrence *)

Lemma previous_scan_found tz nag hour minute reference_ms probe offsets due :
  previous_scan tz nag hour minute reference_ms probe offsets = Ok (Some due) ->
  exists pre k post cur,
    offsets = pre ++ k :: post
    /\ date_add_days probe (- k) = Ok cur
    /\ date_valid cur = true
    /\ 0 <= hour <= 23 /\ 0 <= minute <= 59
    /\ is_recurring_date_match tz nag cur = Ok true
    /\ due = occurrence_ms tz cur hour minute
    /\ due <= reference_ms
    /\ Forall (day_too_late tz nag hour minute reference_ms probe) pre.
Proof.
  induction offsets as [| k rest IH]; cbn [previous_scan]; [discriminate |].
  destruct (date_add_days probe (- k)) as [cur |] eqn:Eadd; cbn [rbind];
    [| discriminate].
  assert (Hstep : day_too_late tz nag hour minute reference_ms probe k ->
            previous_scan tz nag hour minute reference_ms probe rest
            = Ok (Some due) ->
            exists pre k' post cur',
              k :: rest = pre ++ k' :: post
              /\ date_add_days probe (- k') = Ok cur'
              /\ date_valid cur' = true
              /\ 0 <= hour <= 23 /\ 0 <= minute <= 59
              /\ is_recurring_date_match tz nag cur' = Ok true
              /\ due = occurrence_ms tz cur' hour minute
              /\ due <= reference_ms
              /\ Forall (day_too_late tz nag hour minute reference_ms probe)
                        pre).
  { intros Hk H. destruct (IH H) as (pre & k' & post & cur' & -> & Hrest).
    exists (k :: pre), k', post, cur'. split; [reflexivity |].
    destruct Hrest as (A & B & C & D & F & G & I & Hpre).
    repeat split; try assumption; try lia. now constructor. }
  destruct (is_recurring_date_match tz nag cur) as [[] |] eqn:Em;
    cbn [rbind negb]; [| | discriminate].
  - destruct (new_datetime _ _ _ _ _) as [due_dt |] eqn:Edt; cbn [rbind];
      [| discriminate].
    apply new_datetime_inv in Edt. destruct Edt as (-> & V & Hh & Hm).
    fold (occurrence_ms tz cur hour minute).
    destruct (Z.ltb_spec reference_ms (occurrence_ms tz cur hour minute))
      as [Hlt | Hge].
    + apply Hstep. intros c Hc _. rewrite Eadd in Hc. now injection Hc as <-.
    + intros [= <-]. exists [], k, rest, cur.
      repeat split; try assumption; try lia. constructor.
  - apply Hstep. intros c Hc Hm. rewrite Eadd in Hc. injection Hc as <-.
    congruence.
Qed.

Lemma resolve_previous_unfold tz nag reference_ms r :
  resolve_previous_recurring_base_due_ms tz nag reference_ms = Ok (Some r) ->
  exists hour minute,
    monthly_hour nag = Some hour /\ monthly_minute nag = Some minute
    /\ mode nag = NAG_MODE_MONTHLY
    /\ ordinal_ok (local_ordinal tz reference_ms) = true
    /\ previous_scan tz nag hour minute reference_ms
         (ord2ymd (local_ordinal tz reference_ms)) SCAN_OFFSETS = Ok (Some r).
Proof.
  unfold resolve_previous_recurring_base_due_ms.
  destruct (String.eqb_spec (mode nag) NAG_MODE_MONTHLY) as [Hmode | _];
    cbn [negb]; [| discriminate].
  destruct (monthly_hour nag) as [hour |]; [| discriminate].
  destruct (monthly_minute nag) as [minute |]; [| discriminate].
  unfold ms_to_local.
  destruct (ordinal_ok (utc_ordinal reference_ms)); cbn [negb rbind];
    [| discriminate].
  destruct (ordinal_ok (local_ordinal tz reference_ms)) eqn:El;
    cbn [negb rbind]; [| discriminate].
  intros H. exists hour, minute. repeat split; assumption.
Qed.

(** An occurrence on a day after the local date of the reference is after
    the reference. *)
Lemma occurrence_after_reference tz reference_ms dv hour minute :
  0 <= hour <= 23 -> 0 <= minute <= 59 ->
  local_ordinal tz reference_ms < toordinal dv ->
  reference_ms < occurrence_ms tz dv hour minute.
Proof.
  intros Hh Hm. rewrite occurrence_ms_ordinal.
  unfold local_ordinal, MS_PER_DAY, EPOCH_ORDINAL.
  intros Ho. Z.div_mod_to_equations. lia.
Qed.

(** What [resolve_previous] returns is the latest occurrence at or before
    the reference: the configured time of day on a date that matches the
    pattern, with no matching date whose occurrence lies after it and at or
    before the reference.  The skipped list plays no part: a completed
    occurrence is returned like any other. *)
Theorem resolve_previous_is_latest (tz : Z) (nag : Nag)
    (reference_ms due : Z) :
  resolve_previous_recurring_base_due_ms tz nag reference_ms = Ok (Some due) ->
  exists hour minute dv,
    monthly_hour nag = Some hour /\ monthly_minute nag = Some minute
    /\ date_valid dv = true
    /\ is_recurring_date_match tz nag dv = Ok true
    /\ due = occurrence_ms tz dv hour minute
    /\ due <= reference_ms
    /\ forall dv',
         date_valid dv' = true ->
         is_recurring_date_match tz nag dv' = Ok true ->
         occurrence_ms tz dv' hour minute <= reference_ms ->
         occurrence_ms tz dv' hour minute <= due.
Proof.
  intros H. apply resolve_previous_unfold in H.
  destruct H as (hour & minute & Eh & Emi & _ & Hl & Hscan).
  apply previous_scan_found in Hscan.
  destruct Hscan
    as (pre & k & post & cur & Eoff & Eadd & Vc & Hh & Hm & Hmatch & -> & Hle
        & Hpre).
  exists hour, minute, cur. repeat split; try assumption.
  intros dv' V' Hmatch' Hle'.
  apply ordinal_ok_spec in Hl.
  destruct (ord2ymd_spec _ Hl) as [Vp Ep].
  apply date_add_days_inv in Eadd. destruct Eadd as (_ & Ec & _).
  rewrite Ep in Ec.
  destruct (Z.le_gt_cases (toordinal dv') (toordinal cur)) as [Hbefore | Hafter].
  { rewrite !occurrence_ms_ordinal. lia. }
  exfalso.
  destruct (Z.le_gt_cases (toordinal dv') (local_ordinal tz reference_ms))
    as [Hin | Hout].
  - set (j := local_ordinal tz reference_ms - toordinal dv').
    assert (Hj : j ∈ pre).
    { apply (seqZ_prefix_mem 0 (366 * 6 + 1) pre k post); [exact Eoff |].
      unfold j. lia. }
    rewrite Forall_forall in Hpre. specialize (Hpre j Hj dv').
    assert (Hadd : date_add_days (ord2ymd (local_ordinal tz reference_ms)) (- j)
                   = Ok dv').
    { unfold date_add_days. rewrite Ep.
      replace (local_ordinal tz reference_ms + - j) with (toordinal dv')
        by (unfold j; lia).
      pose proof (toordinal_range dv' V') as Hr.
      apply ordinal_ok_spec in Hr. rewrite Hr.
      now rewrite ord2ymd_toordinal. }
    specialize (Hpre Hadd Hmatch'). lia.
  - pose proof (occurrence_after_reference tz reference_ms dv' hour minute
                  Hh Hm Hout). lia.
Qed.

Lemma resolve_previous_is_latest_witness :
  exists hour minute dv,
    monthly_hour monthly_15th = Some hour
    /\ monthly_minute monthly_15th = Some minute
    /\ date_valid dv = true
    /\ is_recurring_date_match 0 monthly_15th dv = Ok true
    /\ T_2023_10_15_0900 = occurrence_ms 0 dv hour minute
    /\ T_2023_10_15_0900 <= T_2023_11_14
    /\ forall dv',
         date_valid dv' = true ->
         is_recurring_date_match 0 monthly_15th dv' = Ok true ->
         occurrence_ms 0 dv' hour minute <= T_2023_11_14 ->
         occurrence_ms 0 dv' hour minute <= T_2023_10_15_0900.
Proof.
  apply (resolve_previous_is_latest 0 monthly_15th T_2023_11_14
           T_2023_10_15_0900).
  vm_compute. reflexivity.
Defined.

(** ** The range query and the display window *)

Lemma windows_loop_head tz nag range_end_ms fuel search_cursor windows :
  windows_loop tz nag range_end_ms (S fuel) search_cursor = Ok windows ->
  match resolve_next_recurring_base_due_ms tz nag search_cursor with
  | Ok (Some base_due) =>
    if range_end_ms <? apply_push_offset nag base_due then windows = []
    else
      exists window,
        resolve_current_display_monthly_due_window tz nag search_cursor
        = Ok (Some window)
        /\ source_due_ms window = base_due
        /\ head windows = Some window
  | Ok None =>
    windows = []
    /\ resolve_current_display_monthly_due_window tz nag search_cursor
       = Ok None
  | Raise _ => False
  end.
Proof.
  cbn [windows_loop].
  unfold resolve_current_display_monthly_due_window.
  destruct (resolve_next_recurring_base_due_ms tz nag search_cursor)
    as [[base_due |] |]; cbn [rbind]; [| now intros [= <-] | discriminate].
  destruct (range_end_ms <? apply_push_offset nag base_due);
    [now intros [= <-] |].
  destruct (resolve_previous_recurring_base_due_ms tz nag (base_due - 1))
    as [previous |]; cbn [rbind]; [| discriminate].
  destruct (windows_loop tz nag range_end_ms fuel (base_due + 60000))
    as [rest |]; cbn [rbind]; [| discriminate].
  intros [= <-]. eexists. repeat split.
Qed.

(** The first window of the range query that starts at an instant is the
    display window of that instant: the "All in window" view begins with the
    row of the "Next only" view.  The list is empty exactly when there is no
    such window, or its pushed due instant lies beyond the end of the
    range. *)
Theorem range_starts_with_display_window (tz : Z) (nag : Nag)
    (range_start_ms range_end_ms : Z) (windows : list DueWindow) :
  range_start_ms <= range_end_ms ->
  resolve_monthly_due_windows_in_range tz nag range_start_ms range_end_ms
  = Ok windows ->
  match resolve_next_recurring_base_due_ms tz nag range_start_ms with
  | Ok (Some base_due) =>
    if range_end_ms <? apply_push_offset nag base_due then windows = []
    else
      exists window,
        resolve_current_display_monthly_due_window tz nag range_start_ms
        = Ok (Some window)
        /\ source_due_ms window = base_due
        /\ head windows = Some window
  | Ok None =>
    windows = []
    /\ resolve_current_display_monthly_due_window tz nag range_start_ms
       = Ok None
  | Raise _ => False
  end.
Proof.
  intros Hle. unfold resolve_monthly_due_windows_in_range.
  destruct (Z.ltb_spec range_end_ms range_start_ms); [lia |].
  apply windows_loop_head.
Qed.

Lemma range_starts_with_display_window_witness :
  match resolve_next_recurring_base_due_ms 0 monthly_15th T_2023_11_14 with
  | Ok (Some base_due) =>
    if T_2023_11_14 + 30 * MS_PER_DAY <? apply_push_offset monthly_15th base_due
    then [window_2023_11] = []
    else
      exists window,
        resolve_current_display_monthly_due_window 0 monthly_15th T_2023_11_14
        = Ok (Some window)
        /\ source_due_ms window = base_due
        /\ head [window_2023_11] = Some window
  | Ok None =>
    [window_2023_11] = []
    /\ resolve_current_display_monthly_due_window 0 monthly_15th T_2023_11_14
       = Ok None
  | Raise _ => False
  end.
Proof.
  apply (range_starts_with_display_window 0 monthly_15th T_2023_11_14
           (T_2023_11_14 + 30 * MS_PER_DAY) [window_2023_11]).
  - vm_compute. discriminate.
  - vm_compute. reflexivity.
Defined.

(** ** The project overview *)

Lemma urgency_le_refl now_ms_value a due_a :
  urgency_le now_ms_value a due_a a due_a.
Proof. unfold urgency_le. cbv zeta. lia. Qed.

Lemma urgency_le_trans now_ms_value a due_a b due_b c due_c :
  urgency_le now_ms_value a due_a b due_b ->
  urgency_le now_ms_value b due_b c due_c ->
  urgency_le now_ms_value a due_a c due_c.
Proof.
  unfold urgency_le. cbv zeta.
  destruct (due_a <=? now_ms_value), (due_b <=? now_ms_value),
    (due_c <=? now_ms_value); lia.
Qed.

Lemma overview_key_ltb now_ms_value a due_a b due_b :
  if tuple_ltb (overview_key now_ms_value a due_a)
               (overview_key now_ms_value b due_b)
  then urgency_le now_ms_value a due_a b due_b
  else urgency_le now_ms_value b due_b a due_a.
Proof.
  unfold overview_key, urgency_le. cbn [tuple_ltb]. cbv zeta.
  destruct (due_a <=? now_ms_value), (due_b <=? now_ms_value);
    repeat match goal with
           | |- context [?x <? ?y] => destruct (Z.ltb_spec x y)
           end; lia.
Qed.

Lemma pick_representative_spec tz now_ms_value project_nags :
  forall representative result,
    pick_representative tz now_ms_value project_nags representative
    = Ok result ->
    (forall nag window due, representative = Some (nag, window, due) ->
       overview_due tz nag now_ms_value = Ok due) ->
    match result with
    | None => representative = None /\ project_nags = []
    | Some (rep_nag, _, rep_due) =>
      overview_due tz rep_nag now_ms_value = Ok rep_due
      /\ ((exists window, representative = Some (rep_nag, window, rep_due))
          \/ rep_nag ∈ project_nags)
      /\ (forall nag window due, representative = Some (nag, window, due) ->
            urgency_le now_ms_value rep_nag rep_due nag due)
      /\ forall nag, nag ∈ project_nags ->
           exists due, overview_due tz nag now_ms_value = Ok due
                       /\ urgency_le now_ms_value rep_nag rep_due nag due
    end.
Proof.
  induction project_nags as [| x rest IH]; intros representative result;
    cbn [pick_representative].
  { intros [= <-] Hrep. destruct representative as [[[nag window] due] |];
      [| now split].
    split; [now apply (Hrep nag window) |].
    split; [left; eauto |].
    split; [| intros y Hy; inversion Hy].
    intros nag' window' due' [= <- <- <-]. apply urgency_le_refl. }
  destruct (resolve_due_window tz x now_ms_value) as [window |] eqn:Ew;
    cbn [rbind]; [| discriminate].
  destruct (overview_due_of tz x now_ms_value window) as [due |] eqn:Ed;
    cbn [rbind]; [| discriminate].
  assert (Hx : overview_due tz x now_ms_value = Ok due).
  { unfold overview_due. now rewrite Ew. }
  cbv zeta.
  assert (Hnew : forall result,
            pick_representative tz now_ms_value rest (Some (x, window, due))
            = Ok result ->
            match result with
            | None => False
            | Some (rep_nag, _, rep_due) =>
              overview_due tz rep_nag now_ms_value = Ok rep_due
              /\ rep_nag ∈ x :: rest
              /\ urgency_le now_ms_value rep_nag rep_due x due
              /\ forall nag, nag ∈ rest ->
                   exists due', overview_due tz nag now_ms_value = Ok due'
                     /\ urgency_le now_ms_value rep_nag rep_due nag due'
            end).
  { intros r Hr. apply IH in Hr.
    - destruct r as [[[rep_nag rep_window] rep_due] |];
        [| now destruct Hr].
      destruct Hr as (Hd & Hfrom & Hle & Hall).
      split; [exact Hd |]. split.
      + destruct Hfrom as [[w [= -> _ _]] | Hin]; [left | now right].
      + split; [now apply (Hle x window) | exact Hall].
    - now intros nag' window' due' [= <- <- <-]. }
  destruct representative as [[[rep0 window0] due0] |].
  - pose proof (overview_key_ltb now_ms_value x due rep0 due0) as Hcmp.
    destruct (tuple_ltb (overview_key now_ms_value x due)
                        (overview_key now_ms_value rep0 due0)).
    + intros Hr Hrep. apply Hnew in Hr.
      destruct result as [[[rep_nag rep_window] rep_due] |]; [| contradiction].
      destruct Hr as (Hd & Hin & Hle & Hall).
      split; [exact Hd |]. split; [now right |]. split.
      * intros nag' window' due' [= <- <- <-].
        eapply urgency_le_trans; eassumption.
      * intros nag Hnag. apply elem_of_cons in Hnag as [-> | Hnag];
          [eauto | now apply Hall].
    + intros Hr Hrep. apply IH in Hr; [| exact Hrep].
      destruct result as [[[rep_nag rep_window] rep_due] |];
        [| destruct Hr; discriminate].
      destruct Hr as (Hd & Hfrom & Hle & Hall).
      split; [exact Hd |]. split.
      * destruct Hfrom as [Hsame | Hin]; [now left | right; now right].
      * split; [exact Hle |].
        intros nag Hnag. apply elem_of_cons in Hnag as [-> | Hnag];
          [| now apply Hall].
        exists due. split; [exact Hx |].
        eapply urgency_le_trans; [now apply (Hle rep0 window0) | exact Hcmp].
  - intros Hr _. apply Hnew in Hr.
    destruct result as [[[rep_nag rep_window] rep_due] |]; [| contradiction].
    destruct Hr as (Hd & Hin & Hle & Hall).
    split; [exact Hd |]. split; [now right |]. split; [discriminate |].
    intros nag Hnag. apply elem_of_cons in Hnag as [-> | Hnag];
      [eauto | now apply Hall].
Qed.

Lemma grouped_add_keys grouped project nag :
  (grouped_add grouped project nag).*1
  = if decide (project ∈ grouped.*1) then grouped.*1
    else grouped.*1 ++ [project].
Proof.
  induction grouped as [| [q l] rest IH]; cbn [grouped_add].
  { rewrite decide_False by apply not_elem_of_nil. reflexivity. }
  destruct (String.eqb_spec q project) as [-> | Hne].
  - rewrite decide_True by (cbn; left). reflexivity.
  - cbn [fmap list_fmap fst]. change (list_fmap _ _ fst ?l) with (l.*1).
    rewrite IH. destruct (decide (project ∈ rest.*1)) as [Hin | Hout].
    + rewrite decide_True by now right. reflexivity.
    + rewrite decide_False; [reflexivity |].
      intros Hin. apply elem_of_cons in Hin as [E | Hin];
        [congruence | contradiction].
Qed.

Lemma grouped_add_members grouped project nag p members :
  NoDup grouped.*1 ->
  (p, members) ∈ grouped_add grouped project nag ->
  (p <> project /\ (p, members) ∈ grouped)
  \/ (p = project
      /\ exists old,
           members = old ++ [nag]
           /\ ((p, old) ∈ grouped \/ (old = [] /\ (project ∉ grouped.*1)))).
Proof.
  induction grouped as [| [q l] rest IH]; cbn [grouped_add]; intros Hnd.
  { intros Hin. apply list_elem_of_singleton in Hin. injection Hin as -> ->.
    right. split; [reflexivity |]. exists []. split; [reflexivity |].
    right. split; [reflexivity | apply not_elem_of_nil]. }
  cbn [fmap list_fmap fst] in Hnd. apply NoDup_cons in Hnd as [Hq Hnd].
  destruct (String.eqb_spec q project) as [-> | Hne].
  - intros Hin. apply elem_of_cons in Hin as [E | Hin].
    + injection E as -> ->. right. split; [reflexivity |].
      exists l. split; [reflexivity |]. left. left.
    + left. split; [| now right].
      intros ->. apply Hq. apply list_elem_of_fmap.
      now exists (project, members).
  - intros Hin. apply elem_of_cons in Hin as [E | Hin].
    + injection E as -> ->. left. split; [exact Hne | left].
    + destruct (IH Hnd Hin) as [[Hp Hold] | [-> (old & -> & Hold)]].
      * left. split; [exact Hp | now right].
      * right. split; [reflexivity |]. exists old. split; [reflexivity |].
        destruct Hold as [Hold | [-> Hout]]; [left; now right |].
        right. split; [reflexivity |].
        intros H. cbn [fmap list_fmap fst] in H.
        apply elem_of_cons in H as [E | H]; [congruence | contradiction].
Qed.

Lemma grouped_add_ok ops grouped seen nag :
  grouped_ok ops grouped seen ->
  grouped_ok ops (grouped_add grouped (project_of ops nag) nag) (seen ++ [nag]).
Proof.
  intros (Hnd & Hmem & Hall).
  pose proof (grouped_add_keys grouped (project_of ops nag) nag) as Hk.
  split; [| split].
  - rewrite Hk. destruct (decide _) as [Hin | Hout]; [exact Hnd |].
    apply NoDup_app. split; [exact Hnd |]. split.
    + intros p Hp Hp'. apply list_elem_of_singleton in Hp'. congruence.
    + apply NoDup_singleton.
  - intros p members Hin.
    apply grouped_add_members in Hin; [| exact Hnd].
    destruct Hin as [[Hp Hin] | [-> (old & -> & [Hin | [-> Hn]])]].
    + destruct (Hmem p members Hin) as [Hne Hx]. split; [exact Hne |].
      intros x. rewrite Hx, elem_of_app, list_elem_of_singleton.
      split; [tauto |]. intros [[H | ->] E]; [tauto | congruence].
    + destruct (Hmem _ old Hin) as [_ Hx]. split; [now destruct old |].
      intros x. rewrite !elem_of_app, list_elem_of_singleton, Hx.
      split; [intros [[H E] | ->]; tauto |].
      intros [[H | ->] E]; tauto.
    + split; [discriminate |].
      intros x. cbn [app]. rewrite elem_of_app, !list_elem_of_singleton.
      split; [intros ->; tauto |].
      intros [[H | ->] E]; [| reflexivity].
      exfalso. apply Hn. rewrite <- E. now apply Hall.
  - intros x Hx. rewrite Hk.
    apply elem_of_app in Hx as [Hx | Hx].
    + specialize (Hall x Hx). destruct (decide _); [exact Hall |].
      apply elem_of_app. now left.
    + apply list_elem_of_singleton in Hx. subst x.
      destruct (decide _) as [Hin | Hout]; [exact Hin |].
      apply elem_of_app. right. now apply list_elem_of_singleton.
Qed.

Lemma group_by_project_ok ops nags :
  grouped_ok ops (group_by_project ops nags) nags.
Proof.
  unfold group_by_project.
  assert (H : forall grouped seen,
            grouped_ok ops grouped seen ->
            grouped_ok ops
              (fold_left (fun grouped nag =>
                            grouped_add grouped (project_of ops nag) nag)
                         nags grouped)
              (seen ++ nags)).
  { induction nags as [| nag rest IH]; intros grouped seen Hok;
      cbn [fold_left].
    - now rewrite app_nil_r.
    - replace (seen ++ nag :: rest) with ((seen ++ [nag]) ++ rest)
        by now rewrite <- app_assoc.
      apply IH. now apply grouped_add_ok. }
  apply (H [] []). split; [constructor |]. split.
  - intros p members Hin. inversion Hin.
  - intros x Hx. inversion Hx.
Qed.

Lemma overview_loop_spec ops tz now_ms_value grouped :
  forall entries,
    overview_loop ops tz now_ms_value grouped = Ok entries ->
    Forall (fun g => snd g <> []) grouped ->
    Forall2 (fun g e =>
               entry_nag e ∈ snd g
               /\ due_window e = None
               /\ key e = "project_overview_" +:+ str_lower ops (fst g)
               /\ forall x, x ∈ snd g ->
                    at_least_as_urgent tz now_ms_value (entry_nag e) x)
            grouped entries.
Proof.
  induction grouped as [| [p members] rest IH]; intros entries;
    cbn [overview_loop].
  { intros [= <-] _. constructor. }
  destruct (pick_representative tz now_ms_value members None)
    as [representative |] eqn:Epick; cbn [rbind]; [| discriminate].
  destruct (overview_loop ops tz now_ms_value rest) as [more |]; cbn [rbind];
    [| discriminate].
  intros H Hne. apply Forall_cons in Hne as [Hm Hne]. cbn [snd] in Hm.
  apply pick_representative_spec in Epick; [| discriminate].
  destruct representative as [[[rep_nag rep_window] rep_due] |];
    [| now destruct Epick].
  injection H as <-.
  destruct Epick as (Hd & Hfrom & _ & Hall).
  constructor; [| now apply IH].
  cbn [entry_nag due_window key fst snd].
  split; [destruct Hfrom as [[w Hw] | Hin]; [discriminate | exact Hin] |].
  split; [reflexivity |]. split; [reflexivity |].
  intros x Hx. destruct (Hall x Hx) as (due & Hxd & Hle).
  now exists rep_due, due.
Qed.

Lemma overview_entries_of_groups ops tz now_ms_value (nags : list Nag)
    (grouped : list (string * list Nag)) (entries : list NagListEntry) :
  Forall2 (fun g e =>
             entry_nag e ∈ snd g
             /\ due_window e = None
             /\ key e = "project_overview_" +:+ str_lower ops (fst g)
             /\ forall x, x ∈ snd g ->
                  at_least_as_urgent tz now_ms_value (entry_nag e) x)
          grouped entries ->
  (forall p members, (p, members) ∈ grouped ->
     forall x, x ∈ members -> x ∈ nags /\ project_of ops x = p) ->
  (fun e => project_of ops (entry_nag e)) <$> entries = grouped.*1
  /\ Forall (fun e =>
               entry_nag e ∈ nags
               /\ due_window e = None
               /\ key e = "project_overview_"
                          +:+ str_lower ops (project_of ops (entry_nag e)))
            entries
  /\ forall p members, (p, members) ∈ grouped ->
       exists e, e ∈ entries
                 /\ project_of ops (entry_nag e) = p
                 /\ forall x, x ∈ members ->
                      at_least_as_urgent tz now_ms_value (entry_nag e) x.
Proof.
  induction 1 as [| [p members] e grouped entries He _ IH]; intros Hmem.
  { split; [reflexivity |]. split; [constructor |].
    intros p members Hin. inversion Hin. }
  cbn [fst snd] in He. destruct He as (Hin & Hw & Hk & Hurgent).
  destruct (Hmem p members ltac:(left) _ Hin) as [Hnag Hp].
  destruct IH as (IHp & IHe & IHg).
  { intros q l Hq. apply Hmem. now right. }
  split; [cbn; now rewrite IHp, Hp |]. split.
  - constructor; [| exact IHe]. rewrite Hp. now repeat split.
  - intros q l Hq. apply elem_of_cons in Hq as [[= -> ->] | Hq].
    + exists e. split; [left |]. now split.
    + destruct (IHg q l Hq) as (e' & He' & Hrest). exists e'.
      split; [now right | exact Hrest].
Qed.

Lemma build_project_overview_entries_props (ops : PyOps) (tz : Z)
    (nags : list Nag) (now_ms_value : Z) (entries : list NagListEntry) :
  build_project_overview_entries ops tz nags now_ms_value = Ok entries ->
  NoDup ((fun e => project_of ops (entry_nag e)) <$> entries)
  /\ (forall nag, nag ∈ nags ->
        exists e, e ∈ entries
                  /\ project_of ops (entry_nag e) = project_of ops nag
                  /\ at_least_as_urgent tz now_ms_value (entry_nag e) nag)
  /\ Forall (fun e =>
               entry_nag e ∈ nags
               /\ due_window e = None
               /\ key e = "project_overview_"
                          +:+ str_lower ops (project_of ops (entry_nag e)))
            entries.
Proof.
  intros H.
  assert (Hloop : overview_loop ops tz now_ms_value
                    (group_by_project ops nags) = Ok entries).
  { unfold build_project_overview_entries in H.
    destruct nags; [| exact H]. injection H as <-. reflexivity. }
  clear H.
  destruct (group_by_project_ok ops nags) as (Hnd & Hmem & Hall).
  apply overview_loop_spec in Hloop.
  2: { rewrite Forall_forall. intros [p members] Hin. cbn [snd].
       now destruct (Hmem p members Hin). }
  apply (overview_entries_of_groups ops tz now_ms_value nags) in Hloop.
  2: { intros p members Hin x Hx. now apply (Hmem p members Hin). }
  destruct Hloop as (Hp & He & Hg).
  split; [now rewrite Hp |]. split; [| exact He].
  intros nag Hnag. specialize (Hall nag Hnag).
  apply list_elem_of_fmap in Hall. destruct Hall as ([p members] & Ep & Hin).
  cbn [fst] in Ep. subst p.
  destruct (Hg _ members Hin) as (e & He' & Hproj & Hurgent).
  exists e. split; [exact He' |]. split; [exact Hproj |].
  apply Hurgent. apply (Hmem _ members Hin). now split.
Qed.

(** The project overview shows every project once, by its most urgent
    reminder: the entries stand for pairwise distinct projects; every given
    reminder has an entry of its own project whose reminder is at least as
    urgent (due instant come before not yet come, then earlier due, then
    larger weight, then earlier creation); and every entry shows one of the
    given reminders, carries no due window, and has the key
    "project_overview_" followed by the project name in lower case. *)
Theorem build_project_overview_entries_spec (ops : PyOps) (tz : Z)
    (nags : list Nag) (now_ms_value : Z) (entries : list NagListEntry) :
  build_project_overview_entries ops tz nags now_ms_value = Ok entries ->
  NoDup ((fun e => project_of ops (entry_nag e)) <$> entries)
  /\ (forall nag, nag ∈ nags ->
        exists e, e ∈ entries
                  /\ project_of ops (entry_nag e) = project_of ops nag
                  /\ at_least_as_urgent tz now_ms_value (entry_nag e) nag)
  /\ Forall (fun e =>
               entry_nag e ∈ nags
               /\ due_window e = None
               /\ key e = "project_overview_"
                          +:+ str_lower ops (project_of ops (entry_nag e)))
            entries.
Proof. apply build_project_overview_entries_props. Qed.

Lemma build_project_overview_entries_spec_witness :
  NoDup ((fun e => project_of example_ops (entry_nag e)) <$> example_overview)
  /\ (forall nag, nag ∈ example_nags ->
        exists e, e ∈ example_overview
                  /\ project_of example_ops (entry_nag e)
                     = project_of example_ops nag
                  /\ at_least_as_urgent 0 T_2023_11_14 (entry_nag e) nag)
  /\ Forall (fun e =>
               entry_nag e ∈ example_nags
               /\ due_window e = None
               /\ key e = "project_overview_"
                          +:+ str_lower example_ops
                                (project_of example_ops (entry_nag e)))
            example_overview.
Proof.
  apply (build_project_overview_entries_spec example_ops 0 example_nags
           T_2023_11_14 example_overview).
  vm_compute. reflexivity.
Defined.

Lemma overview_due_next_returns tz nag now_ms_value due :
  overview_due tz nag now_ms_value = Ok due ->
  is_ok (resolve_next_due_ms tz nag now_ms_value) = true.
Proof.
  unfold overview_due, resolve_due_window.
  destruct (String.eqb (mode nag) NAG_MODE_ONE_TIME) eqn:Emode.
  { intros _. unfold resolve_next_due_ms. rewrite Emode.
    now destruct (one_time_epoch_ms nag). }
  destruct (resolve_current_display_monthly_due_window tz nag now_ms_value)
    as [[w |] |] eqn:Ew; cbn [rbind overview_due_of]; [| | discriminate].
  - intros _. now rewrite (resolve_next_due_ms_monthly _ _ _ _ Ew Emode).
  - now destruct (resolve_next_due_ms tz nag now_ms_value).
Qed.

(** Sorting the project overview returns: at the instant of the overview,
    computing the sort key of one of its entries raises no exception,
    whatever the sort mode. *)
Theorem sort_overview_entries_returns (ops : PyOps) (tz : Z)
    (nags : list Nag) (now_ms_value : Z) (sort_mode : string)
    (entries : list NagListEntry) :
  build_project_overview_entries ops tz nags now_ms_value = Ok entries ->
  exists sorted,
    sort_entries tz entries sort_mode now_ms_value = Ok sorted
    /\ sorted ≡ₚ entries.
Proof.
  intros H. apply build_project_overview_entries_props in H.
  destruct H as (_ & Hrep & Hall).
  assert (Hk : is_ok (keyed (sort_key tz sort_mode now_ms_value) entries)
               = true).
  { apply keyed_returns. eapply Forall_impl; [exact Hall |].
    intros e (Hin & Hw & _). cbv beta.
    destruct (Hrep _ Hin) as (e' & _ & _ & due' & due & _ & Hdue & _).
    apply overview_due_next_returns in Hdue.
    unfold sort_key, entry_due_ms. rewrite Hw.
    destruct (resolve_next_due_ms tz (entry_nag e) now_ms_value);
      [| discriminate]. cbn [rbind].
    now repeat destruct (String.eqb sort_mode _). }
  destruct (sort_entries tz entries sort_mode now_ms_value) as [sorted |] eqn:Es.
  - exists sorted. split; [reflexivity |].
    now apply sort_entries_by_key in Es.
  - unfold sort_entries in Es.
    destruct (keyed _ entries); [discriminate Es | discriminate Hk].
Qed.

Lemma sort_overview_entries_returns_witness :
  exists sorted,
    sort_entries 0 example_overview SORT_SMART T_2023_11_14 = Ok sorted
    /\ sorted ≡ₚ example_overview.
Proof.
  apply (sort_overview_entries_returns example_ops 0 example_nags T_2023_11_14
           SORT_SMART example_overview).
  vm_compute. reflexivity.
Defined.

(** ** DAY_OF_WEEK *)

(** DAY_OF_WEEK recurs every week: from a date that matches, the date [k]
    days away matches exactly when [k] is a multiple of 7. *)
Theorem day_of_week_match_weekly (tz : Z) (nag : Nag) (dv later : date)
    (k : Z) :
  mode nag = NAG_MODE_MONTHLY ->
  recurring_pattern_type nag = PATTERN_DAY_OF_WEEK ->
  date_valid dv = true ->
  (year dv, month dv) <> (9999, 12) ->
  date_add_days dv k = Ok later ->
  (year later, month later) <> (9999, 12) ->
  is_recurring_date_match tz nag dv = Ok true ->
  (is_recurring_date_match tz nag later = Ok true <-> k mod 7 = 0).
Proof.
  intros Hmode Hpat V Hne Hadd Hne'.
  apply date_add_days_inv in Hadd. destruct Hadd as (_ & Eo & V').
  destruct (monthly_match_unfold tz nag dv Hmode V Hne) as (_ & _ & ->).
  destruct (monthly_match_unfold tz nag later Hmode V' Hne') as (_ & _ & ->).
  cbn [rbind]. cbv zeta. rewrite Hpat.
  change ((PATTERN_DAY_OF_WEEK =? EmptyString)%string) with false. cbv iota.
  change ((PATTERN_DAY_OF_WEEK =? PATTERN_DAY_OF_MONTH)%string) with false.
  change ((PATTERN_DAY_OF_WEEK =? PATTERN_DAY_OF_WEEK)%string) with true.
  cbv iota. rewrite !java_day_of_week_ordinal, Eo.
  set (target := or_int (recurring_day_of_week nag) JAVA_MONDAY).
  intros [= H]. apply Z.eqb_eq in H.
  split.
  - intros [= H']. apply Z.eqb_eq in H'. Z.div_mod_to_equations. lia.
  - intros Hk. f_equal. apply Z.eqb_eq. Z.div_mod_to_equations. lia.
Qed.

Lemma day_of_week_match_weekly_witness :
  is_recurring_date_match 0 (with_pattern monthly_15th PATTERN_DAY_OF_WEEK)
    (mk_date 2023 11 27) = Ok true
  <-> 14 mod 7 = 0.
Proof.
  apply (day_of_week_match_weekly 0
           (with_pattern monthly_15th PATTERN_DAY_OF_WEEK)
           (mk_date 2023 11 13) (mk_date 2023 11 27) 14).
  - reflexivity.
  - reflexivity.
  - reflexivity.
  - cbn. congruence.
  - vm_compute. reflexivity.
  - cbn. congruence.
  - vm_compute. reflexivity.
Defined.
